(** * Pizza operations dashboard: integration flows

    A shallow embedding of the integration client
    ([src/services/integrationService.js]), the order form
    ([src/components/OrderForm.jsx]), the integrations page
    ([src/pages/IntegrationsPage.jsx]), the webhook monitor
    ([src/components/WebhookEventsComponent.jsx]) and the application
    context with its notifications ([AppContext]).

    JavaScript numbers are IEEE-754 binary64 values ([PrimFloat.float]);
    objects used as maps are [gmap string _]; the asynchronous handlers are
    programs of a small free monad ([Async.Prog]) that suspend at every
    [await], run by an event-driven machine whose events are the user's
    actions, timer ticks and the settling of outstanding service calls. *)

From Stdlib Require Import ZArith Ascii PrimFloat FloatOps SpecFloat FloatAxioms.
From Stdlib Require Import DecimalString DecimalPos DecimalN.
From stdpp Require Import gmap strings list.


(* ===================================================================== *)
(** * Part I: the model *)
(* ===================================================================== *)

(** ** JavaScript values and the library functions the components rely on *)

Module Js.

(** A decoded JSON value. [undefined] is the absence of a value: the
    [None] of an [option json]. *)
Inductive json : Type :=
| JNull
| JBool (b : bool)
| JNum (x : float)
| JStr (s : string)
| JArr (l : list json)
| JObj (m : gmap string json).

(** ToBoolean on strings: only the empty string is falsy. *)
Definition truthy_string (s : string) : bool :=
  match s with EmptyString => false | String _ _ => true end.

(** ToBoolean: [null], [false], [0], [-0], [NaN] and [""] are falsy. *)
Definition truthy (v : json) : bool :=
  match v with
  | JNull => false
  | JBool b => b
  | JNum x => negb (PrimFloat.eqb x 0 || PrimFloat.is_nan x)
  | JStr s => truthy_string s
  | JArr _ | JObj _ => true
  end.

(** [v || fallback], where [v] may be [undefined]. *)
Definition or_else (v : option json) (fallback : json) : json :=
  match v with
  | Some j => if truthy j then j else fallback
  | None => fallback
  end.

(** [d?.[key]] on a value that may be [undefined]: only an object has own
    properties; [null] and [undefined] short-circuit, primitives and arrays
    have no such property. *)
Definition get (key : string) (d : option json) : option json :=
  match d with
  | Some (JObj m) => m !! key
  | _ => None
  end.

(** [Array.prototype.find]: the first element satisfying the predicate. *)
Fixpoint find {A} (p : A -> bool) (l : list A) : option A :=
  match l with
  | [] => None
  | x :: l' => if p x then Some x else find p l'
  end.

(** [arr.splice(start, 1)] on a copy, returning the remaining array.  The
    start index is clamped as the standard prescribes: a negative index
    counts from the end, an index past the end removes nothing. *)
Definition splice1 {A} (start : Z) (l : list A) : list A :=
  let len := Z.of_nat (length l) in
  let actual :=
    if (start <? 0)%Z then Z.max (len + start) 0 else Z.min start len in
  take (Z.to_nat actual) l ++ drop (S (Z.to_nat actual)) l.

(** [[...new Set(l)]]: distinct elements in order of first occurrence. *)
Definition unique {A} `{EqDecision A} (l : list A) : list A :=
  fold_left (fun seen x => if decide (x ∈ seen) then seen else seen ++ [x]) l [].

(** *** [Number.prototype.toFixed(2)] *)

(** The decimal digits of a natural number ("0" for zero). *)
Definition decimal (n : N) : string :=
  NilZero.string_of_uint (N.to_uint n).

(** Steps 11.c-11.d of [toFixed] for two fraction digits: pad the digit
    string of [n] with leading zeros to at least three characters and put
    the point before the last two. *)
Definition pad3 (m : string) : string :=
  match String.length m with
  | 0%nat => "000" +:+ m
  | 1%nat => "00" +:+ m
  | 2%nat => "0" +:+ m
  | _ => m
  end.

Definition point2 (n : N) : string :=
  let m := pad3 (decimal n) in
  let k := String.length m in
  String.substring 0 (k - 2) m +:+ "." +:+ String.substring (k - 2) 2 m.

(** Step 11.a: the integer [n] for which [n / 100 - x] is as close to zero
    as possible, the larger one on a tie, for [x = m * 2^e]. *)
Definition nearest_hundredths (m : positive) (e : Z) : Z :=
  if (0 <=? e)%Z then 100 * Z.pos m * 2 ^ e
  else (200 * Z.pos m + 2 ^ (- e)) / (2 * 2 ^ (- e)).

(** [10^21 <= m * 2^e], decided on integers. *)
Definition at_least_1e21 (m : positive) (e : Z) : bool :=
  if (0 <=? e)%Z then (10 ^ 21 <=? Z.pos m * 2 ^ e)%Z
  else (10 ^ 21 * 2 ^ (- e) <=? Z.pos m)%Z.

(** What [toFixed] returns: a string the algorithm spells out, or, for a
    magnitude of [10^21] and more, the sign followed by
    [Number::toString] of the magnitude (exponential notation, e.g.
    ["1e+21"]), which is left symbolic. *)
Inductive number_text : Type :=
| Text (s : string)
| NumberToString (sign : string) (magnitude : float).

Definition sign_text (negative : bool) : string :=
  if negative then "-" else "".

Definition toFixed2 (x : float) : number_text :=
  match Prim2SF x with
  | S754_nan => Text "NaN"
  | S754_infinity s => Text (sign_text s +:+ "Infinity")
  | S754_zero _ => Text (point2 0)
  | S754_finite s m e =>
      if at_least_1e21 m e then NumberToString (sign_text s) (PrimFloat.abs x)
      else Text (sign_text s +:+ point2 (Z.to_N (nearest_hundredths m e)))
  end.

End Js.

(** ** Asynchronous handlers *)

Module Async.
Section Machine.

(** [St]: the component's React state; [Op]: a service call with its
    arguments; [Val]: what a fulfilled call yields; [Err]: what a rejected
    call throws. *)
Context {St Op Val Err : Type}.

Inductive Outcome (A : Type) : Type :=
| Fulfilled (v : A)
| Rejected (e : Err).
Global Arguments Fulfilled {A} v.
Global Arguments Rejected {A} e.

(** The body of an [async] function, up to its observable effects: state
    setter calls, [console.error], and suspension on a service call
    ([Await]) or on [Promise.all] of two service calls ([AwaitAll2]). *)
Inductive Prog : Type :=
| Ret
| Throw (e : Err)
| SetState (f : St -> St) (k : Prog)
| ConsoleError (msg : string) (e : Err) (k : Prog)
| Await (op : Op) (k : Outcome Val -> Prog)
| AwaitAll2 (op1 op2 : Op) (k : Outcome (Val * Val) -> Prog).

(** [await op]: resume with the value, or throw the rejection reason. *)
Definition await (op : Op) (k : Val -> Prog) : Prog :=
  Await op (fun o => match o with Fulfilled v => k v | Rejected e => Throw e end).

Definition await_all2 (op1 op2 : Op) (k : Val -> Val -> Prog) : Prog :=
  AwaitAll2 op1 op2
    (fun o => match o with Fulfilled (v1, v2) => k v1 v2 | Rejected e => Throw e end).

(** [p; q] *)
Fixpoint seq (p q : Prog) : Prog :=
  match p with
  | Ret => q
  | Throw e => Throw e
  | SetState f k => SetState f (seq k q)
  | ConsoleError msg e k => ConsoleError msg e (seq k q)
  | Await op k => Await op (fun o => seq (k o) q)
  | AwaitAll2 op1 op2 k => AwaitAll2 op1 op2 (fun o => seq (k o) q)
  end.

(** [try { p } catch (err) { h err }] *)
Fixpoint try_catch (p : Prog) (h : Err -> Prog) : Prog :=
  match p with
  | Ret => Ret
  | Throw e => h e
  | SetState f k => SetState f (try_catch k h)
  | ConsoleError msg e k => ConsoleError msg e (try_catch k h)
  | Await op k => Await op (fun o => try_catch (k o) h)
  | AwaitAll2 op1 op2 k => AwaitAll2 op1 op2 (fun o => try_catch (k o) h)
  end.

(** [try { p } finally { fin }] *)
Fixpoint finally (p fin : Prog) : Prog :=
  match p with
  | Ret => fin
  | Throw e => seq fin (Throw e)
  | SetState f k => SetState f (finally k fin)
  | ConsoleError msg e k => ConsoleError msg e (finally k fin)
  | Await op k => Await op (fun o => finally (k o) fin)
  | AwaitAll2 op1 op2 k => AwaitAll2 op1 op2 (fun o => finally (k o) fin)
  end.

(** A suspended handler: waiting for one call, or for a [Promise.all] over
    two calls, of which some may already be fulfilled. *)
Inductive Waiter : Type :=
| WaitOne (id : nat) (k : Outcome Val -> Prog)
| WaitAll2 (id1 id2 : nat) (got1 got2 : option Val)
    (k : Outcome (Val * Val) -> Prog).

(** What the outside world observes, in chronological order. *)
Inductive LogEntry : Type :=
| Invoked (id : nat) (op : Op)
| Settled (id : nat) (o : Outcome Val)
| Console (msg : string) (e : Err)
| Unhandled (e : Err).

Record Sys : Type := mkSys {
  state : St;
  waiters : list Waiter;
  in_flight : list nat;
  next_id : nat;
  log : list LogEntry
}.

Definition start (st : St) : Sys :=
  {| state := st; waiters := []; in_flight := []; next_id := 0; log := [] |}.

Definition with_state (f : St -> St) (s : Sys) : Sys :=
  {| state := f (state s); waiters := waiters s; in_flight := in_flight s;
     next_id := next_id s; log := log s |}.

Definition record (entry : LogEntry) (s : Sys) : Sys :=
  {| state := state s; waiters := waiters s; in_flight := in_flight s;
     next_id := next_id s; log := log s ++ [entry] |}.

(** Issue a service call: it gets the next call identifier and is in
    flight until it settles. *)
Definition invoke (op : Op) (s : Sys) : Sys :=
  {| state := state s; waiters := waiters s;
     in_flight := in_flight s ++ [next_id s];
     next_id := S (next_id s);
     log := log s ++ [Invoked (next_id s) op] |}.

Definition suspend (w : Waiter) (s : Sys) : Sys :=
  {| state := state s; waiters := waiters s ++ [w]; in_flight := in_flight s;
     next_id := next_id s; log := log s |}.

(** Run a handler until it returns or suspends. *)
Fixpoint exec (p : Prog) (s : Sys) : Sys :=
  match p with
  | Ret => s
  | Throw e => record (Unhandled e) s
  | SetState f k => exec k (with_state f s)
  | ConsoleError msg e k => exec k (record (Console msg e) s)
  | Await op k =>
      suspend (WaitOne (next_id s) k) (invoke op s)
  | AwaitAll2 op1 op2 k =>
      suspend (WaitAll2 (next_id s) (S (next_id s)) None None k)
        (invoke op2 (invoke op1 s))
  end.

(** How one waiter reacts to the settling of call [id]: [None] when it
    does not wait for that call; otherwise what remains of the waiter and
    the program to resume.  [Promise.all] rejects as soon as one of its
    promises rejects and fulfils once all have fulfilled. *)
Definition react (id : nat) (o : Outcome Val) (w : Waiter)
  : option (option Waiter * Prog) :=
  match w with
  | WaitOne id' k =>
      if decide (id = id') then Some (None, k o) else None
  | WaitAll2 id1 id2 got1 got2 k =>
      if decide (id = id1) then
        match o, got2 with
        | Rejected e, _ => Some (None, k (Rejected e))
        | Fulfilled v1, Some v2 => Some (None, k (Fulfilled (v1, v2)))
        | Fulfilled v1, None => Some (Some (WaitAll2 id1 id2 (Some v1) got2 k), Ret)
        end
      else if decide (id = id2) then
        match o, got1 with
        | Rejected e, _ => Some (None, k (Rejected e))
        | Fulfilled v2, Some v1 => Some (None, k (Fulfilled (v1, v2)))
        | Fulfilled v2, None => Some (Some (WaitAll2 id1 id2 got1 (Some v2) k), Ret)
        end
      else None
  end.

Fixpoint resume (id : nat) (o : Outcome Val) (ws : list Waiter)
  : list Waiter * Prog :=
  match ws with
  | [] => ([], Ret)
  | w :: ws' =>
      match react id o w with
      | Some (w', p) => (option_list w' ++ ws', p)
      | None => let '(ws'', p) := resume id o ws' in (w :: ws'', p)
      end
  end.

(** Call [id] settles with outcome [o].  A call settles once: an
    identifier that is not in flight is ignored.  A settled call nobody
    waits for any more (the other promise of a rejected [Promise.all])
    resumes nothing. *)
Definition settle (id : nat) (o : Outcome Val) (s : Sys) : Sys :=
  if decide (id ∈ in_flight s) then
    let '(ws, p) := resume id o (waiters s) in
    exec p
      {| state := state s; waiters := ws;
         in_flight := filter (fun i => i ≠ id) (in_flight s);
         next_id := next_id s;
         log := log s ++ [Settled id o] |}
  else s.

End Machine.

Global Arguments Prog : clear implicits.
Global Arguments Waiter : clear implicits.
Global Arguments LogEntry : clear implicits.
Global Arguments Sys : clear implicits.
Global Arguments Outcome : clear implicits.

End Async.

(** ** The integration client ([integrationService.js]) *)

Module IntegrationService.
Import Js.

Definition API_BASE_URL : string := "/api/integration".

(** An axios response, as far as the code reads it: [response.data]. *)
Record HttpResponse : Type := { data : option json }.

(** A rejection reason.  An axios error for a non-2xx answer carries the
    response; a network failure or any other thrown value has no
    [response] property. *)
Record HttpError : Type := { response : option HttpResponse }.

(** [err.response?.data?.message] *)
Definition error_message (err : HttpError) : option json :=
  match response err with
  | Some r => get "message" (data r)
  | None => None
  end.

(** The methods of the service object with their arguments. *)
Inductive Call : Type :=
| getAdapters
| getConnections
| connect (system : string) (credentials : gmap string string)
| disconnect (connectionId : string)
| send (system endpoint : string) (payload : json)
| getWebhooks
| registerWebhook (path : string) (options : gmap string json).

Inductive Verb : Type := GET | POST.

Record Request : Type := { verb : Verb; url : string; body : option json }.

(** Object spread [{ ...target, ...src }]: every own property of [src] is
    copied onto [target], replacing a property of the same name. *)
Definition spread (target src : gmap string json) : gmap string json :=
  src ∪ target.

(** The one axios call each method issues. *)
Definition request (c : Call) : Request :=
  match c with
  | getAdapters =>
      {| verb := GET; url := API_BASE_URL +:+ "/adapters"; body := None |}
  | getConnections =>
      {| verb := GET; url := API_BASE_URL +:+ "/connections"; body := None |}
  | connect system credentials =>
      {| verb := POST; url := API_BASE_URL +:+ "/connect/" +:+ system;
         body := Some (JObj (JStr <$> credentials)) |}
  | disconnect connectionId =>
      {| verb := POST; url := API_BASE_URL +:+ "/disconnect/" +:+ connectionId;
         body := None |}
  | send system endpoint payload =>
      {| verb := POST;
         url := API_BASE_URL +:+ "/send/" +:+ system +:+ "/" +:+ endpoint;
         body := Some payload |}
  | getWebhooks =>
      {| verb := GET; url := API_BASE_URL +:+ "/webhooks"; body := None |}
  | registerWebhook path options =>
      {| verb := POST; url := API_BASE_URL +:+ "/webhooks/register";
         body := Some (JObj (spread {[ "path" := JStr path ]} options)) |}
  end.

(** The message each method logs before rethrowing. *)
Definition failure_message (c : Call) : string :=
  match c with
  | getAdapters => "Error fetching adapters:"
  | getConnections => "Error fetching connections:"
  | connect system _ => "Error connecting to " +:+ system +:+ ":"
  | disconnect connectionId =>
      "Error disconnecting connection " +:+ connectionId +:+ ":"
  | send system endpoint _ =>
      "Error sending data to " +:+ system +:+ "/" +:+ endpoint +:+ ":"
  | getWebhooks => "Error fetching webhooks:"
  | registerWebhook _ _ => "Error registering webhook:"
  end.

(** What a method's promise settles to once its axios call has settled:
    [response.data] on success; on failure the error is logged and rethrown
    unchanged.  The second component is the [console.error] output. *)
Definition complete (c : Call) (o : HttpResponse + HttpError)
  : (option json + HttpError) * list (string * HttpError) :=
  match o with
  | inl r => (inl (data r), [])
  | inr err => (inr err, [(failure_message c, err)])
  end.

End IntegrationService.

(** ** The order form ([OrderForm.jsx]) *)

Module OrderForm.
Import Js IntegrationService Async.

Record Item : Type := mkItem { name : string; quantity : float; price : float }.

Record OrderData : Type := mkOrderData {
  customerName : string;
  customerEmail : string;
  customerPhone : string;
  items : list Item;
  notes : string;
  deliveryAddress : string;
  paymentMethod : string
}.

Inductive Status : Type := processing | success | error_status.

Record State : Type := mkState {
  orderData : OrderData;
  isSubmitting : bool;
  orderStatus : option Status;
  orderResponse : option json;
  error : option json
}.

Definition blank_item : Item :=
  {| name := ""; quantity := 1; price := 0 |}.

Definition initial_orderData : OrderData :=
  {| customerName := ""; customerEmail := ""; customerPhone := "";
     items := [blank_item]; notes := ""; deliveryAddress := "";
     paymentMethod := "card" |}.

Definition initial : State :=
  {| orderData := initial_orderData; isSubmitting := false;
     orderStatus := None; orderResponse := None; error := None |}.

(** The state setters. *)
Definition setOrderData (f : OrderData -> OrderData) (st : State) : State :=
  {| orderData := f (orderData st); isSubmitting := isSubmitting st;
     orderStatus := orderStatus st; orderResponse := orderResponse st;
     error := error st |}.
Definition setIsSubmitting (b : bool) (st : State) : State :=
  {| orderData := orderData st; isSubmitting := b;
     orderStatus := orderStatus st; orderResponse := orderResponse st;
     error := error st |}.
Definition setOrderStatus (v : option Status) (st : State) : State :=
  {| orderData := orderData st; isSubmitting := isSubmitting st;
     orderStatus := v; orderResponse := orderResponse st;
     error := error st |}.
Definition setOrderResponse (v : option json) (st : State) : State :=
  {| orderData := orderData st; isSubmitting := isSubmitting st;
     orderStatus := orderStatus st; orderResponse := v;
     error := error st |}.
Definition setError (v : option json) (st : State) : State :=
  {| orderData := orderData st; isSubmitting := isSubmitting st;
     orderStatus := orderStatus st; orderResponse := orderResponse st;
     error := v |}.

Definition with_items (l : list Item) (d : OrderData) : OrderData :=
  {| customerName := customerName d; customerEmail := customerEmail d;
     customerPhone := customerPhone d; items := l; notes := notes d;
     deliveryAddress := deliveryAddress d; paymentMethod := paymentMethod d |}.

(** The [name] attributes of the inputs wired to [handleInputChange]. *)
Inductive InputName : Type :=
| in_customerName | in_customerEmail | in_customerPhone
| in_deliveryAddress | in_notes | in_paymentMethod.

(** [{ ...prev, [name]: value }] *)
Definition with_input (n : InputName) (value : string) (d : OrderData) : OrderData :=
  {| customerName := if n is in_customerName then value else customerName d;
     customerEmail := if n is in_customerEmail then value else customerEmail d;
     customerPhone := if n is in_customerPhone then value else customerPhone d;
     items := items d;
     notes := if n is in_notes then value else notes d;
     deliveryAddress := if n is in_deliveryAddress then value else deliveryAddress d;
     paymentMethod := if n is in_paymentMethod then value else paymentMethod d |}.

Definition handleInputChange (n : InputName) (value : string) (st : State) : State :=
  setOrderData (with_input n value) st.

(** The three item fields with the values their inputs pass:
    [e.target.value], [parseInt(e.target.value) || 0],
    [parseFloat(e.target.value) || 0]. *)
Inductive ItemEdit : Type :=
| edit_name (value : string)
| edit_quantity (value : float)
| edit_price (value : float).

(** [{ ...item, [field]: value }] *)
Definition with_field (e : ItemEdit) (it : Item) : Item :=
  match e with
  | edit_name v => {| name := v; quantity := quantity it; price := price it |}
  | edit_quantity v => {| name := name it; quantity := v; price := price it |}
  | edit_price v => {| name := name it; quantity := quantity it; price := v |}
  end.

(** [handleItemChange(index, field, value)].  Each rendered row passes its
    own index, so the index names an existing item; [None] stands for a
    call no row can make (JavaScript would grow the array there). *)
Definition handleItemChange (index : nat) (e : ItemEdit) (st : State) : option State :=
  match items (orderData st) !! index with
  | Some it =>
      let updatedItems := <[index := with_field e it]> (items (orderData st)) in
      Some (setOrderData (with_items updatedItems) st)
  | None => None
  end.

Definition addItem (st : State) : State :=
  setOrderData (fun prev => with_items (items prev ++ [blank_item]) prev) st.

Definition removeItem (index : Z) (st : State) : State :=
  if decide (length (items (orderData st)) = 1%nat) then st
  else
    let updatedItems := splice1 index (items (orderData st)) in
    setOrderData (with_items updatedItems) st.

(** The running total of [reduce], starting from [0]. *)
Definition order_sum (l : list Item) : float :=
  fold_left (fun total item => (total + quantity item * price item)%float) l 0%float.

Definition calculateTotal (st : State) : number_text :=
  toFixed2 (order_sum (items (orderData st))).

(** The object handed to [send]. *)
Definition item_json (it : Item) : json :=
  JObj (list_to_map
    [("name", JStr (name it)); ("quantity", JNum (quantity it));
     ("price", JNum (price it))]).

Definition order_json (d : OrderData) : json :=
  JObj (list_to_map
    [("customerName", JStr (customerName d));
     ("customerEmail", JStr (customerEmail d));
     ("customerPhone", JStr (customerPhone d));
     ("items", JArr (item_json <$> items d));
     ("notes", JStr (notes d));
     ("deliveryAddress", JStr (deliveryAddress d));
     ("paymentMethod", JStr (paymentMethod d))]).

(** [!item.name || item.quantity < 1 || item.price <= 0] *)
Definition invalid_item (it : Item) : bool :=
  negb (truthy_string (name it))
  || PrimFloat.ltb (quantity it) 1 || PrimFloat.leb (price it) 0.

Abbreviation Prog := (Async.Prog State Call json HttpError).
Abbreviation Sys := (Async.Sys State Call json HttpError).

(** [handleSubmit], run against the [orderData] of the render that
    installed it. *)
Definition handleSubmit (orderData : OrderData) : Prog :=
  if negb (truthy_string (customerName orderData)) then
    SetState (setError (Some (JStr "Customer name is required"))) Ret
  else if existsb invalid_item (items orderData) then
    SetState (setError (Some (JStr "All items must have a name, quantity, and price"))) Ret
  else
    finally
      (try_catch
        (SetState (setIsSubmitting true)
        (SetState (setError None)
        (SetState (setOrderStatus (Some processing))
        (await (send "square" "orders/create" (order_json orderData)) (fun result =>
        (SetState (setOrderResponse (Some result))
        (SetState (setOrderStatus (Some success))
        (SetState (setOrderData (fun _ => initial_orderData))
         Ret))))))))
        (fun err =>
          ConsoleError "Order submission error:" err
          (SetState (setOrderStatus (Some error_status))
          (SetState (setError (Some (or_else (error_message err)
             (JStr "Failed to process order. Please try again."))))
           Ret))))
      (SetState (setIsSubmitting false) Ret).

Definition handleCloseSuccess (st : State) : State :=
  setOrderResponse None (setOrderStatus None st).

(** What the error banner shows: [{error && <div>{error}</div>}]. *)
Definition error_banner (st : State) : option json :=
  match error st with
  | Some e => if truthy e then Some e else None
  | None => None
  end.

(** Everything that can happen to a mounted form. *)
Inductive Event : Type :=
| InputChange (n : InputName) (value : string)
| ItemChange (index : nat) (e : ItemEdit)
| AddItem
| RemoveItem (index : Z)
| Submit
| CloseSuccess
| Settle (id : nat) (o : Outcome HttpError json).

Definition step (s : Sys) (ev : Event) : Sys :=
  match ev with
  | InputChange n v => with_state (handleInputChange n v) s
  | ItemChange i e =>
      match handleItemChange i e (state s) with
      | Some st => with_state (fun _ => st) s
      | None => s
      end
  | AddItem => with_state addItem s
  | RemoveItem i => with_state (removeItem i) s
  | Submit => exec (handleSubmit (orderData (state s))) s
  | CloseSuccess => with_state handleCloseSuccess s
  | Settle id o => settle id o s
  end.

Definition mount : Sys := start initial.

Definition run (evs : list Event) : Sys := fold_left step evs mount.

(** *** The success panel *)

(** [orderResponse.key] for the three keys the panel reads, none of which
    a primitive or an array has: reading a property of [null] (or of
    [undefined]) throws a TypeError, which [None] stands for. *)
Definition response_field (key : string) (orderResponse : option json)
  : option (option json) :=
  match orderResponse with
  | None | Some JNull => None
  | Some (JObj m) => Some (m !! key)
  | Some _ => Some None
  end.

(** What is rendered in place of the success panel. *)
Inductive SuccessPanel : Type :=
| NoPanel
| Panel (orderId status receiptUrl : option json)
| RenderError.

(** The panel shows the order id and the status of the response, and the
    receipt link when the response has a truthy [receiptUrl]. *)
Definition success_panel (st : State) : SuccessPanel :=
  match orderStatus st with
  | Some success =>
      match response_field "orderId" (orderResponse st),
            response_field "status" (orderResponse st),
            response_field "receiptUrl" (orderResponse st) with
      | Some orderId, Some status, Some receiptUrl =>
          Panel orderId status
            (match receiptUrl with
             | Some url => if truthy url then Some url else None
             | None => None
             end)
      | _, _, _ => RenderError
      end
  | _ => NoPanel
  end.

(** *** What the rendered controls allow *)

(** The form is rendered unless the last order has succeeded; the success
    panel is rendered instead then. *)
Definition form_shown (st : State) : bool :=
  match orderStatus st with Some success => false | _ => true end.

(** The events the rendered controls can produce.  Every control of the
    form is disabled while a submission is under way; a row's inputs and
    its remove button exist for the rows rendered; the remove button is
    also disabled on a single row.  The close button belongs to the
    success panel: it exists when the panel is rendered, and not when
    rendering the panel throws.  The answer to a call can arrive at any
    time. *)
Definition enabled (st : State) (ev : Event) : bool :=
  match ev with
  | InputChange _ _ | AddItem | Submit =>
      form_shown st && negb (isSubmitting st)
  | ItemChange index _ =>
      form_shown st && negb (isSubmitting st)
      && bool_decide (index < length (items (orderData st)))
  | RemoveItem index =>
      form_shown st
      && negb (isSubmitting st || bool_decide (length (items (orderData st)) = 1))
      && bool_decide (0 <= index < Z.of_nat (length (items (orderData st))))%Z
  | CloseSuccess =>
      match success_panel st with Panel _ _ _ => true | _ => false end
  | Settle _ _ => true
  end.

(** A session at the rendered form: [None] as soon as an event is one the
    controls cannot produce. *)
Fixpoint interact (s : Sys) (evs : list Event) : option Sys :=
  match evs with
  | [] => Some s
  | ev :: evs' =>
      if enabled (state s) ev then interact (step s ev) evs' else None
  end.

End OrderForm.

(** ** The connection manager ([IntegrationsPage.jsx]) *)

Module CredentialField.
Record t : Type := mk {
  name : string;
  label : string;
  type : string;
  required : bool;
  placeholder : option string;
  description : option string
}.
End CredentialField.

Module Adapter.
Record t : Type := mk {
  id : string;
  name : string;
  requiredCredentials : list CredentialField.t
}.
End Adapter.

Module Connection.
Record t : Type := mk {
  id : string;
  system : string;
  name : string;
  status : string;
  connectedAt : string;
  lastSync : option string
}.
End Connection.

Module IntegrationsPage.
Import Js IntegrationService Async.

(** What the service calls of this page resolve to.  The backend answers
    each operation with the payload of its contract: the adapter list, the
    connection list, or an acknowledgement the page does not inspect. *)
Inductive Payload : Type :=
| AdapterList (l : list Adapter.t)
| ConnectionList (l : list Connection.t)
| Ack (j : json).

Definition adapters_of (v : Payload) : list Adapter.t :=
  match v with AdapterList l => l | _ => [] end.
Definition connections_of (v : Payload) : list Connection.t :=
  match v with ConnectionList l => l | _ => [] end.

Record WebhookOptions : Type := mkOptions {
  description : string;
  events : list string
}.

Definition options_object (o : WebhookOptions) : gmap string json :=
  list_to_map
    [("description", JStr (description o)); ("events", JArr (JStr <$> events o))].

Record State : Type := mkState {
  adapters : list Adapter.t;
  connections : list Connection.t;
  loading : bool;
  error : option string;
  selectedAdapter : string;
  credentials : gmap string string;
  formError : option json;
  formSuccess : option string;
  isSubmitting : bool;
  webhookPath : string;
  webhookOptions : WebhookOptions;
  webhookError : option json;
  webhookSuccess : option string;
  isRegisteringWebhook : bool
}.

Definition initial : State :=
  {| adapters := []; connections := []; loading := true; error := None;
     selectedAdapter := ""; credentials := ∅; formError := None;
     formSuccess := None; isSubmitting := false;
     webhookPath := ""; webhookOptions := {| description := ""; events := [] |};
     webhookError := None; webhookSuccess := None;
     isRegisteringWebhook := false |}.

(** The state setters. *)
Definition setAdapters v (st : State) : State :=
  {| adapters := v; connections := connections st; loading := loading st;
     error := error st; selectedAdapter := selectedAdapter st;
     credentials := credentials st; formError := formError st;
     formSuccess := formSuccess st; isSubmitting := isSubmitting st;
     webhookPath := webhookPath st; webhookOptions := webhookOptions st;
     webhookError := webhookError st; webhookSuccess := webhookSuccess st;
     isRegisteringWebhook := isRegisteringWebhook st |}.
Definition setConnections v (st : State) : State :=
  {| adapters := adapters st; connections := v; loading := loading st;
     error := error st; selectedAdapter := selectedAdapter st;
     credentials := credentials st; formError := formError st;
     formSuccess := formSuccess st; isSubmitting := isSubmitting st;
     webhookPath := webhookPath st; webhookOptions := webhookOptions st;
     webhookError := webhookError st; webhookSuccess := webhookSuccess st;
     isRegisteringWebhook := isRegisteringWebhook st |}.
Definition setLoading v (st : State) : State :=
  {| adapters := adapters st; connections := connections st; loading := v;
     error := error st; selectedAdapter := selectedAdapter st;
     credentials := credentials st; formError := formError st;
     formSuccess := formSuccess st; isSubmitting := isSubmitting st;
     webhookPath := webhookPath st; webhookOptions := webhookOptions st;
     webhookError := webhookError st; webhookSuccess := webhookSuccess st;
     isRegisteringWebhook := isRegisteringWebhook st |}.
Definition setError v (st : State) : State :=
  {| adapters := adapters st; connections := connections st;
     loading := loading st; error := v; selectedAdapter := selectedAdapter st;
     credentials := credentials st; formError := formError st;
     formSuccess := formSuccess st; isSubmitting := isSubmitting st;
     webhookPath := webhookPath st; webhookOptions := webhookOptions st;
     webhookError := webhookError st; webhookSuccess := webhookSuccess st;
     isRegisteringWebhook := isRegisteringWebhook st |}.
Definition setSelectedAdapter v (st : State) : State :=
  {| adapters := adapters st; connections := connections st;
     loading := loading st; error := error st; selectedAdapter := v;
     credentials := credentials st; formError := formError st;
     formSuccess := formSuccess st; isSubmitting := isSubmitting st;
     webhookPath := webhookPath st; webhookOptions := webhookOptions st;
     webhookError := webhookError st; webhookSuccess := webhookSuccess st;
     isRegisteringWebhook := isRegisteringWebhook st |}.
Definition setCredentials (f : gmap string string -> gmap string string)
    (st : State) : State :=
  {| adapters := adapters st; connections := connections st;
     loading := loading st; error := error st;
     selectedAdapter := selectedAdapter st;
     credentials := f (credentials st); formError := formError st;
     formSuccess := formSuccess st; isSubmitting := isSubmitting st;
     webhookPath := webhookPath st; webhookOptions := webhookOptions st;
     webhookError := webhookError st; webhookSuccess := webhookSuccess st;
     isRegisteringWebhook := isRegisteringWebhook st |}.
Definition setFormError v (st : State) : State :=
  {| adapters := adapters st; connections := connections st;
     loading := loading st; error := error st;
     selectedAdapter := selectedAdapter st;
     credentials := credentials st; formError := v;
     formSuccess := formSuccess st; isSubmitting := isSubmitting st;
     webhookPath := webhookPath st; webhookOptions := webhookOptions st;
     webhookError := webhookError st; webhookSuccess := webhookSuccess st;
     isRegisteringWebhook := isRegisteringWebhook st |}.
Definition setFormSuccess v (st : State) : State :=
  {| adapters := adapters st; connections := connections st;
     loading := loading st; error := error st;
     selectedAdapter := selectedAdapter st;
     credentials := credentials st; formError := formError st;
     formSuccess := v; isSubmitting := isSubmitting st;
     webhookPath := webhookPath st; webhookOptions := webhookOptions st;
     webhookError := webhookError st; webhookSuccess := webhookSuccess st;
     isRegisteringWebhook := isRegisteringWebhook st |}.
Definition setIsSubmitting v (st : State) : State :=
  {| adapters := adapters st; connections := connections st;
     loading := loading st; error := error st;
     selectedAdapter := selectedAdapter st;
     credentials := credentials st; formError := formError st;
     formSuccess := formSuccess st; isSubmitting := v;
     webhookPath := webhookPath st; webhookOptions := webhookOptions st;
     webhookError := webhookError st; webhookSuccess := webhookSuccess st;
     isRegisteringWebhook := isRegisteringWebhook st |}.
Definition setWebhookPath v (st : State) : State :=
  {| adapters := adapters st; connections := connections st;
     loading := loading st; error := error st;
     selectedAdapter := selectedAdapter st;
     credentials := credentials st; formError := formError st;
     formSuccess := formSuccess st; isSubmitting := isSubmitting st;
     webhookPath := v; webhookOptions := webhookOptions st;
     webhookError := webhookError st; webhookSuccess := webhookSuccess st;
     isRegisteringWebhook := isRegisteringWebhook st |}.
Definition setWebhookOptions (f : WebhookOptions -> WebhookOptions)
    (st : State) : State :=
  {| adapters := adapters st; connections := connections st;
     loading := loading st; error := error st;
     selectedAdapter := selectedAdapter st;
     credentials := credentials st; formError := formError st;
     formSuccess := formSuccess st; isSubmitting := isSubmitting st;
     webhookPath := webhookPath st; webhookOptions := f (webhookOptions st);
     webhookError := webhookError st; webhookSuccess := webhookSuccess st;
     isRegisteringWebhook := isRegisteringWebhook st |}.
Definition setWebhookError v (st : State) : State :=
  {| adapters := adapters st; connections := connections st;
     loading := loading st; error := error st;
     selectedAdapter := selectedAdapter st;
     credentials := credentials st; formError := formError st;
     formSuccess := formSuccess st; isSubmitting := isSubmitting st;
     webhookPath := webhookPath st; webhookOptions := webhookOptions st;
     webhookError := v; webhookSuccess := webhookSuccess st;
     isRegisteringWebhook := isRegisteringWebhook st |}.
Definition setWebhookSuccess v (st : State) : State :=
  {| adapters := adapters st; connections := connections st;
     loading := loading st; error := error st;
     selectedAdapter := selectedAdapter st;
     credentials := credentials st; formError := formError st;
     formSuccess := formSuccess st; isSubmitting := isSubmitting st;
     webhookPath := webhookPath st; webhookOptions := webhookOptions st;
     webhookError := webhookError st; webhookSuccess := v;
     isRegisteringWebhook := isRegisteringWebhook st |}.
Definition setIsRegisteringWebhook v (st : State) : State :=
  {| adapters := adapters st; connections := connections st;
     loading := loading st; error := error st;
     selectedAdapter := selectedAdapter st;
     credentials := credentials st; formError := formError st;
     formSuccess := formSuccess st; isSubmitting := isSubmitting st;
     webhookPath := webhookPath st; webhookOptions := webhookOptions st;
     webhookError := webhookError st; webhookSuccess := webhookSuccess st;
     isRegisteringWebhook := v |}.

Abbreviation Prog := (Async.Prog State Call Payload HttpError).
Abbreviation Sys := (Async.Sys State Call Payload HttpError).
Abbreviation Entry := (Async.LogEntry Call Payload HttpError).
Abbreviation PWaiter := (Async.Waiter State Call Payload HttpError).

Definition load_failed : string :=
  "Failed to load integration data. Please try again later.".
Definition connect_failed : string :=
  "Failed to connect. Please check your credentials and try again.".
Definition disconnect_failed : string :=
  "Failed to disconnect. Please try again.".
Definition register_failed : string :=
  "Failed to register webhook. Please try again.".

(** The mount effect: [fetchData]. *)
Definition fetchData : Prog :=
  finally
    (try_catch
      (SetState (setLoading true)
      (await_all2 getAdapters getConnections (fun adaptersData connectionsData =>
      (SetState (setAdapters (adapters_of adaptersData))
      (SetState (setConnections (connections_of connectionsData))
      (SetState (setError None)
       Ret))))))
      (fun err =>
        ConsoleError "Error fetching integration data:" err
        (SetState (setError (Some load_failed)) Ret)))
    (SetState (setLoading false) Ret).

(** [obj[key] = value] on an object created by [{}], for a string
    [value].  A map of this model holds the own properties of the object.
    Every key but one becomes an own property, or updates it.  The key
    "__proto__" is the accessor property of [Object.prototype]: the
    assignment calls its setter, which ignores a value that is neither an
    object nor [null], and no property is created. *)
Definition assign (key value : string) (obj : gmap string string)
  : gmap string string :=
  if decide (key = "__proto__") then obj else <[key := value]> obj.

(** The credentials object [handleAdapterChange] builds: starting from
    [{}], one assignment [initialCredentials[field.name] = ''] per
    required field, in order. *)
Definition initialCredentials (fields : list CredentialField.t) : gmap string string :=
  fold_left (fun acc field => assign (CredentialField.name field) "" acc) fields ∅.

Definition handleAdapterChange (selectedAdapterId : string) (st : State) : State :=
  let st1 := setSelectedAdapter selectedAdapterId st in
  let adapter :=
    find (fun a => bool_decide (Adapter.id a = selectedAdapterId)) (adapters st) in
  let st2 :=
    match adapter with
    | Some a =>
        setCredentials (fun _ => initialCredentials (Adapter.requiredCredentials a)) st1
    | None => setCredentials (fun _ => ∅) st1
    end in
  setFormSuccess None (setFormError None st2).

(** [{...prev, [name]: value}]: a computed key of an object literal
    defines an own property whatever its name. *)
Definition handleCredentialChange (name value : string) (st : State) : State :=
  setCredentials (fun prev => <[name := value]> prev) st.

(** [handleConnect], run against the [selectedAdapter] and [credentials]
    of the render that installed it. *)
Definition handleConnect (selectedAdapter : string)
    (credentials : gmap string string) : Prog :=
  if negb (truthy_string selectedAdapter) then
    SetState (setFormError (Some (JStr "Please select an adapter"))) Ret
  else
    finally
      (try_catch
        (SetState (setIsSubmitting true)
        (SetState (setFormError None)
        (await (connect selectedAdapter credentials) (fun result =>
        (await getConnections (fun updatedConnections =>
        (SetState (setConnections (connections_of updatedConnections))
        (SetState (setFormSuccess
           (Some ("Successfully connected to " +:+ selectedAdapter)))
        (SetState (setSelectedAdapter "")
        (SetState (setCredentials (fun _ => ∅))
         Ret))))))))))
        (fun err =>
          ConsoleError "Connection error:" err
          (SetState (setFormError
             (Some (or_else (error_message err) (JStr connect_failed))))
           Ret)))
      (SetState (setIsSubmitting false) Ret).

(** [handleDisconnect]; [confirmed] is the answer of [window.confirm]. *)
Definition handleDisconnect (connectionId : string) (confirmed : bool) : Prog :=
  if negb confirmed then Ret
  else
    finally
      (try_catch
        (SetState (setLoading true)
        (await (disconnect connectionId) (fun _ =>
        (await getConnections (fun updatedConnections =>
        (SetState (setConnections (connections_of updatedConnections))
        (SetState (setFormSuccess (Some "Successfully disconnected"))
         Ret)))))))
        (fun err =>
          ConsoleError "Disconnection error:" err
          (SetState (setFormError
             (Some (or_else (error_message err) (JStr disconnect_failed))))
           Ret)))
      (SetState (setLoading false) Ret).

(** The only input wired to [handleWebhookOptionChange] is named
    [description]. *)
Definition handleWebhookOptionChange (value : string) (st : State) : State :=
  setWebhookOptions
    (fun prev => {| description := value; events := events prev |}) st.

Definition handleWebhookEventsChange (options : list string) (st : State) : State :=
  setWebhookOptions
    (fun prev => {| description := description prev; events := options |}) st.

Definition handleRegisterWebhook (webhookPath : string)
    (webhookOptions : WebhookOptions) : Prog :=
  if negb (truthy_string webhookPath) then
    SetState (setWebhookError (Some (JStr "Please enter a webhook path"))) Ret
  else
    finally
      (try_catch
        (SetState (setIsRegisteringWebhook true)
        (SetState (setWebhookError None)
        (await (registerWebhook webhookPath (options_object webhookOptions)) (fun _ =>
        (SetState (setWebhookSuccess
           (Some ("Successfully registered webhook at " +:+ webhookPath)))
        (SetState (setWebhookPath "")
        (SetState (setWebhookOptions
           (fun _ => {| description := ""; events := [] |}))
         Ret)))))))
        (fun err =>
          ConsoleError "Webhook registration error:" err
          (SetState (setWebhookError
             (Some (or_else (error_message err) (JStr register_failed))))
           Ret)))
      (SetState (setIsRegisteringWebhook false) Ret).

(** The page shows the spinner instead of its content under this
    condition. *)
Definition shows_spinner (st : State) : bool :=
  loading st && bool_decide (connections st = []) && bool_decide (adapters st = []).

(** What the connect form's error banner shows. *)
Definition form_error_banner (st : State) : option json :=
  match formError st with
  | Some e => if truthy e then Some e else None
  | None => None
  end.

(** Everything that can happen to a mounted page.  The two
    [...NoticeExpired] events are the 5-second timers that clear a success
    notice; they can only fire while the notice is up. *)
Inductive Event : Type :=
| AdapterChange (selectedAdapterId : string)
| CredentialChange (name value : string)
| SubmitConnect
| ClickDisconnect (connectionId : string) (confirmed : bool)
| WebhookPathChange (value : string)
| WebhookOptionChange (value : string)
| WebhookEventsChange (options : list string)
| SubmitRegisterWebhook
| FormNoticeExpired
| WebhookNoticeExpired
| Settle (id : nat) (o : Outcome HttpError Payload).

Definition step (s : Sys) (ev : Event) : Sys :=
  match ev with
  | AdapterChange a => with_state (handleAdapterChange a) s
  | CredentialChange n v => with_state (handleCredentialChange n v) s
  | SubmitConnect =>
      exec (handleConnect (selectedAdapter (state s)) (credentials (state s))) s
  | ClickDisconnect c confirmed => exec (handleDisconnect c confirmed) s
  | WebhookPathChange v => with_state (setWebhookPath v) s
  | WebhookOptionChange v => with_state (handleWebhookOptionChange v) s
  | WebhookEventsChange l => with_state (handleWebhookEventsChange l) s
  | SubmitRegisterWebhook =>
      exec (handleRegisterWebhook (webhookPath (state s)) (webhookOptions (state s))) s
  | FormNoticeExpired =>
      if formSuccess (state s) is Some _ then with_state (setFormSuccess None) s else s
  | WebhookNoticeExpired =>
      if webhookSuccess (state s) is Some _ then with_state (setWebhookSuccess None) s else s
  | Settle id o => settle id o s
  end.

(** Mounting runs the effect once. *)
Definition mount : Sys := exec fetchData (start initial).

Definition run (evs : list Event) : Sys := fold_left step evs mount.

(** *** The timers of the success notices *)

(** The delay after which a success notice hides, in milliseconds. *)
Definition NOTICE_MS : Z := 5000.

(** The page with the timeouts of its two auto-hide effects ([Some r]:
    set, firing in [r] milliseconds; [None]: not set, cleared or spent). *)
Record Timed : Type := mkTimed {
  page : Sys;
  formTimer : option Z;
  webhookTimer : option Z
}.

(** An auto-hide effect after a render.  When its dependency, the
    notice, is what it was at the last render, the effect does not run.
    Otherwise the cleanup of its last run clears the timeout that run had
    set, and the effect runs again: a truthy notice sets a new timeout. *)
Definition effect (before after : option string) (timer : option Z) : option Z :=
  if decide (before = after) then timer
  else
    match after with
    | Some notice => if truthy_string notice then Some NOTICE_MS else None
    | None => None
    end.

(** The page has rendered [after] where it showed [before]. *)
Definition rendered (before after : Sys) (m : Timed) : Timed :=
  {| page := after;
     formTimer :=
       effect (formSuccess (state before)) (formSuccess (state after)) (formTimer m);
     webhookTimer :=
       effect (webhookSuccess (state before)) (webhookSuccess (state after))
         (webhookTimer m) |}.

(** At the mount both notices are [null]: neither effect sets a timeout. *)
Definition timed_mount : Timed :=
  {| page := mount; formTimer := None; webhookTimer := None |}.

(** One millisecond passes.  A timeout that becomes due is spent and
    runs its callback, which clears its notice. *)
Definition form_tick (m : Timed) : Timed :=
  match formTimer m with
  | Some r =>
      if decide (r <= 1)%Z then
        rendered (page m) (with_state (setFormSuccess None) (page m))
          {| page := page m; formTimer := None; webhookTimer := webhookTimer m |}
      else {| page := page m; formTimer := Some (r - 1)%Z;
              webhookTimer := webhookTimer m |}
  | None => m
  end.

Definition webhook_tick (m : Timed) : Timed :=
  match webhookTimer m with
  | Some r =>
      if decide (r <= 1)%Z then
        rendered (page m) (with_state (setWebhookSuccess None) (page m))
          {| page := page m; formTimer := formTimer m; webhookTimer := None |}
      else {| page := page m; formTimer := formTimer m;
              webhookTimer := Some (r - 1)%Z |}
  | None => m
  end.

Definition timed_tick (m : Timed) : Timed := webhook_tick (form_tick m).

Definition elapse (ms : Z) (m : Timed) : Timed :=
  Nat.iter (Z.to_nat ms) timed_tick m.

(** What happens to a page with its timers: the user acts or a call
    settles, or time passes.  The expiry of a notice is the timers' doing,
    not an event from outside. *)
Inductive TimedEvent : Type :=
| Happens (ev : Event)
| Elapse (ms : Z).

Definition timed_step (m : Timed) (tev : TimedEvent) : Timed :=
  match tev with
  | Happens FormNoticeExpired | Happens WebhookNoticeExpired => m
  | Happens ev => rendered (page m) (step (page m) ev) m
  | Elapse ms => elapse ms m
  end.

Definition timed_run (tevs : list TimedEvent) : Timed :=
  fold_left timed_step tevs timed_mount.

(** What the two success banners show. *)
Definition notice_banner (notice : option string) : option string :=
  match notice with
  | Some s => if truthy_string s then Some s else None
  | None => None
  end.

(** *** What the rendered buttons allow *)

(** The three controls that start a flow, as they are rendered: none
    exists while the spinner replaces the page; the connect button is
    disabled without a selection and while submitting; a disconnect button
    belongs to a listed connection and is disabled while loading; the
    register button is disabled without a path and while
    registering.  Every other event is left unrestricted. *)
Definition enabled (st : State) (ev : Event) : bool :=
  match ev with
  | SubmitConnect =>
      negb (shows_spinner st)
      && truthy_string (selectedAdapter st) && negb (isSubmitting st)
  | ClickDisconnect connectionId _ =>
      negb (shows_spinner st) && negb (loading st)
      && bool_decide (connectionId ∈ Connection.id <$> connections st)
  | SubmitRegisterWebhook =>
      negb (shows_spinner st)
      && truthy_string (webhookPath st) && negb (isRegisteringWebhook st)
  | _ => true
  end.

(** A session at the rendered page: [None] as soon as a flow is started
    through a button that is not there or is disabled. *)
Fixpoint interact (s : Sys) (evs : list Event) : option Sys :=
  match evs with
  | [] => Some s
  | ev :: evs' =>
      if enabled (state s) ev then interact (step s ev) evs' else None
  end.

End IntegrationsPage.

(** ** The webhook monitor ([WebhookEventsComponent.jsx]) *)

Module WebhookEvent.
Record t : Type := mk {
  id : string;
  source : string;
  timestamp : string;
  path : string;
  method : string;
  payload : Js.json
}.
End WebhookEvent.

Module WebhookEventsComponent.
Import Js IntegrationService Async.

Record State : Type := mkState {
  webhookEvents : list WebhookEvent.t;
  loading : bool;
  error : option string;
  filterSource : string;
  sources : list string
}.

Definition initial : State :=
  {| webhookEvents := []; loading := true; error := None;
     filterSource := "all"; sources := [] |}.

Definition setWebhookEvents v (st : State) : State :=
  {| webhookEvents := v; loading := loading st; error := error st;
     filterSource := filterSource st; sources := sources st |}.
Definition setLoading v (st : State) : State :=
  {| webhookEvents := webhookEvents st; loading := v; error := error st;
     filterSource := filterSource st; sources := sources st |}.
Definition setError v (st : State) : State :=
  {| webhookEvents := webhookEvents st; loading := loading st; error := v;
     filterSource := filterSource st; sources := sources st |}.
Definition setFilterSource v (st : State) : State :=
  {| webhookEvents := webhookEvents st; loading := loading st;
     error := error st; filterSource := v; sources := sources st |}.
Definition setSources v (st : State) : State :=
  {| webhookEvents := webhookEvents st; loading := loading st;
     error := error st; filterSource := filterSource st; sources := v |}.

Abbreviation Prog := (Async.Prog State Call (list WebhookEvent.t) HttpError).
Abbreviation Sys := (Async.Sys State Call (list WebhookEvent.t) HttpError).
Abbreviation Response := (Async.Outcome HttpError (list WebhookEvent.t)).

Definition load_failed : string :=
  "Failed to load webhook events. Please try again later.".

Definition fetchWebhookEvents : Prog :=
  finally
    (try_catch
      (await getWebhooks (fun webhooks =>
      (SetState (setWebhookEvents webhooks)
      (let uniqueSources := unique (WebhookEvent.source <$> webhooks) in
      (SetState (setSources uniqueSources)
      (SetState (setError None)
       Ret))))))
      (fun err =>
        ConsoleError "Error fetching webhook events:" err
        (SetState (setError (Some load_failed)) Ret)))
    (SetState (setLoading false) Ret).

Definition filteredEvents (st : State) : list WebhookEvent.t :=
  filter (fun event =>
            filterSource st = "all" ∨ WebhookEvent.source event = filterSource st)
    (webhookEvents st).

(** The polling period of [setInterval], in milliseconds. *)
Definition POLL_MS : Z := 15000.

(** A monitor instance: the component with its pending fetches, the
    interval timer of the mount effect ([Some r]: armed, firing in [r]
    milliseconds; [None]: cleared or never set) and whether the component
    is mounted. *)
Record Monitor : Type := mkMonitor {
  sys : Sys;
  pollingInterval : option Z;
  mounted : bool
}.

(** The mount effect: fetch at once, then arm the interval. *)
Definition mount : Monitor :=
  {| sys := exec fetchWebhookEvents (start initial);
     pollingInterval := Some POLL_MS;
     mounted := true |}.

(** The effect's cleanup: [clearInterval(pollingInterval)]. *)
Definition unmount (m : Monitor) : Monitor :=
  {| sys := sys m; pollingInterval := None; mounted := false |}.

(** One millisecond passes.  An armed interval that becomes due runs its
    callback, [fetchWebhookEvents], and is armed again. *)
Definition tick (m : Monitor) : Monitor :=
  match pollingInterval m with
  | Some r =>
      if decide (r <= 1)%Z then
        {| sys := exec fetchWebhookEvents (sys m);
           pollingInterval := Some POLL_MS; mounted := mounted m |}
      else
        {| sys := sys m; pollingInterval := Some (r - 1)%Z; mounted := mounted m |}
  | None => m
  end.

(** [ms] milliseconds pass. *)
Definition advance (ms : Z) (m : Monitor) : Monitor :=
  Nat.iter (Z.to_nat ms) tick m.

(** The response of fetch [id] arrives and the continuation of
    [fetchWebhookEvents] runs.  The cleanup cancels no fetch and the
    component keeps no mounted flag, so the continuation runs after the
    unmount as before it, and its [console.error] is written.  Its setter
    calls, however, then address a component React has removed: React
    (^19, [package.json]) drops a state update of an unmounted component,
    so the state stays what it was.  A handler never reads the state, so
    dropping its setter calls one by one comes to restoring the state
    afterwards. *)
Definition deliver (id : nat) (o : Outcome HttpError (list WebhookEvent.t))
    (m : Monitor) : Monitor :=
  let s := settle id o (sys m) in
  {| sys := if mounted m then s else with_state (fun _ => state (sys m)) s;
     pollingInterval := pollingInterval m;
     mounted := mounted m |}.

(** The user picks a filter; only a mounted component has a dropdown. *)
Definition select_filter (src : string) (m : Monitor) : Monitor :=
  if mounted m then
    {| sys := with_state (setFilterSource src) (sys m);
       pollingInterval := pollingInterval m; mounted := mounted m |}
  else m.

Inductive Event : Type :=
| Advance (ms : Z)
| Deliver (id : nat) (o : Outcome HttpError (list WebhookEvent.t))
| SelectFilter (src : string)
| Unmount.

Definition step (m : Monitor) (ev : Event) : Monitor :=
  match ev with
  | Advance ms => advance ms m
  | Deliver id o => deliver id o m
  | SelectFilter src => select_filter src m
  | Unmount => unmount m
  end.

Definition run (evs : list Event) : Monitor := fold_left step evs mount.

(** The number of [getWebhooks] calls issued so far. *)
Definition is_fetch (entry : LogEntry Call (list WebhookEvent.t) HttpError) : bool :=
  match entry with Invoked _ getWebhooks => true | _ => false end.

Definition fetches (m : Monitor) : nat :=
  length (List.filter is_fetch (log (sys m))).


(** What the component renders: the spinner, the error message, or the
    filter dropdown (its options besides "all", and its value) with the
    list of filtered events. *)
Inductive View : Type :=
| Spinner
| ErrorMessage (error : string)
| EventList (sources : list string) (filterSource : string)
    (events : list WebhookEvent.t).

Definition render (st : State) : View :=
  if loading st then Spinner
  else
    match error st with
    | Some e =>
        if truthy_string e then ErrorMessage e
        else EventList (sources st) (filterSource st) (filteredEvents st)
    | None => EventList (sources st) (filterSource st) (filteredEvents st)
    end.

End WebhookEventsComponent.

(** ** The application context ([AppContext.jsx]) *)

Module AppContext.

Record Notification : Type := mkNotification {
  open : bool;
  message : string;
  type : string
}.

Record State : Type := mkState {
  isLoading : bool;
  notification : Notification
}.

Definition initial : State :=
  {| isLoading := false;
     notification := {| open := false; message := ""; type := "info" |} |}.

Definition setIsLoading (b : bool) (st : State) : State :=
  {| isLoading := b; notification := notification st |}.
Definition setNotification (f : Notification -> Notification) (st : State) : State :=
  {| isLoading := isLoading st; notification := f (notification st) |}.

(** [prev => ({ ...prev, open: false })] *)
Definition closed (prev : Notification) : Notification :=
  {| open := false; message := message prev; type := type prev |}.

(** The delay of the auto-hide [setTimeout], in milliseconds. *)
Definition AUTO_HIDE_MS : Z := 5000.

(** The provider with the timeouts that [showNotification] has set and
    that have not fired yet: the milliseconds each has left, oldest first.
    No code clears one. *)
Record Provider : Type := mkProvider {
  state : State;
  timeouts : list Z
}.

Definition mount : Provider := {| state := initial; timeouts := [] |}.

(** [showNotification(message, type = 'info')]; [None] is an argument
    that is omitted or [undefined]. *)
Definition showNotification (message : string) (type : option string)
    (p : Provider) : Provider :=
  {| state :=
       setNotification
         (fun _ => {| open := true; message := message;
                      type := default "info" type |})
         (state p);
     timeouts := timeouts p ++ [AUTO_HIDE_MS] |}.

Definition hideNotification (p : Provider) : Provider :=
  {| state := setNotification closed (state p); timeouts := timeouts p |}.

(** One millisecond passes: every timeout that becomes due runs its
    callback and is spent; the others have a millisecond less to go. *)
Definition due (r : Z) : bool := (r <=? 1)%Z.

Definition tick (p : Provider) : Provider :=
  {| state :=
       fold_left (fun st _ => setNotification closed st)
         (List.filter due (timeouts p)) (state p);
     timeouts :=
       (fun r => (r - 1)%Z) <$> List.filter (fun r => negb (due r)) (timeouts p) |}.

Definition advance (ms : Z) (p : Provider) : Provider :=
  Nat.iter (Z.to_nat ms) tick p.

(** What the provider renders besides its children: the notification, if
    open, with its type and message; and the loading overlay. *)
Definition banner (st : State) : option (string * string) :=
  if open (notification st)
  then Some (type (notification st), message (notification st))
  else None.

Definition overlay (st : State) : bool := isLoading st.

Inductive Event : Type :=
| ShowNotification (message : string) (type : option string)
| HideNotification
| SetIsLoading (b : bool)
| Advance (ms : Z).

Definition step (p : Provider) (ev : Event) : Provider :=
  match ev with
  | ShowNotification message type => showNotification message type p
  | HideNotification => hideNotification p
  | SetIsLoading b => {| state := setIsLoading b (state p); timeouts := timeouts p |}
  | Advance ms => advance ms p
  end.

Definition run (evs : list Event) : Provider := fold_left step evs mount.

End AppContext.

(* ===================================================================== *)
(** * Part II: the vocabulary of the properties *)
(* ===================================================================== *)

(** The continuations the handlers leave at their [await]s, the
    invariants of the sessions, and the predicates and sample data the
    statements of Part III are written with. *)

Section AsyncVocabulary.
Import Async.
Context {St Op Val Err : Type}.
Implicit Types (s : Sys St Op Val Err) (p : Prog St Op Val Err).
Implicit Types (w : Waiter St Op Val Err) (o : Outcome Err Val).

(** A program that makes no service call. *)
Inductive quiet : Prog St Op Val Err -> Prop :=
| quiet_Ret : quiet Ret
| quiet_Throw e : quiet (Throw e)
| quiet_SetState f k : quiet k -> quiet (SetState f k)
| quiet_ConsoleError msg e k : quiet k -> quiet (ConsoleError msg e k).

(** A log entry that is neither a call nor the settling of one. *)
Definition silent (entry : LogEntry Op Val Err) : Prop :=
  match entry with
  | Invoked _ _ | Settled _ _ => False
  | Console _ _ | Unhandled _ => True
  end.

End AsyncVocabulary.

Section OrderFormVocabulary.
Import Js IntegrationService Async OrderForm.

(** The continuation [handleSubmit] leaves behind at its [await]. *)
Definition submit_k : Outcome HttpError json -> OrderForm.Prog :=
  fun o =>
    finally
      (try_catch
        match o with
        | Fulfilled result =>
            SetState (setOrderResponse (Some result))
            (SetState (setOrderStatus (Some success))
            (SetState (setOrderData (fun _ => initial_orderData)) Ret))
        | Rejected e => Throw e
        end
        (fun err =>
          ConsoleError "Order submission error:" err
          (SetState (setOrderStatus (Some error_status))
          (SetState (setError (Some (or_else (error_message err)
             (JStr "Failed to process order. Please try again."))))
           Ret))))
      (SetState (setIsSubmitting false) Ret).

(** What holds of the form whatever has happened to it: the item list is
    not empty, every suspended handler is a submission, and every [send]
    call in flight has its handler waiting. *)
Definition form_ok (s : OrderForm.Sys) : Prop :=
  (1 <= length (items (orderData (state s))))%nat
  /\ Forall (fun w => exists id, w = WaitOne id submit_k) (waiters s)
  /\ forall id, id ∈ in_flight s -> WaitOne id submit_k ∈ waiters s.

(** A session that fills in a valid order and submits it; the [send]
    call has identifier 0. *)
Definition margherita : list OrderForm.Event :=
  [OrderForm.InputChange OrderForm.in_customerName "Ada";
   OrderForm.ItemChange 0 (OrderForm.edit_name "Margherita");
   OrderForm.ItemChange 0 (OrderForm.edit_price 9.5);
   OrderForm.Submit].

End OrderFormVocabulary.

Section TotalVocabulary.
Import Js IntegrationService Async OrderForm.
Local Open Scope Z_scope.

(** The format of a number with two decimal places. *)
Definition is_digit (c : ascii) : bool :=
  match c with
  | "0" | "1" | "2" | "3" | "4" | "5" | "6" | "7" | "8" | "9" => true
  | _ => false
  end%char.

Fixpoint digits_only (s : string) : bool :=
  match s with
  | EmptyString => true
  | String c r => is_digit c && digits_only r
  end.

Definition frac_ok (s : string) : bool :=
  match s with
  | String d1 (String d2 EmptyString) => is_digit d1 && is_digit d2
  | _ => false
  end.

(** One or more digits, a point, two digits. *)
Fixpoint int_then_frac (s : string) : bool :=
  match s with
  | EmptyString => false
  | String c rest =>
      is_digit c &&
      match rest with
      | String "." f => frac_ok f
      | _ => int_then_frac rest
      end
  end.

(** A number written with exactly two decimal places: an optional minus
    sign, an integer part, a point and two digits. *)
Definition two_decimals (s : string) : bool :=
  match s with
  | String "-" r => int_then_frac r
  | _ => int_then_frac s
  end.

(** Reading such a text back: drop the point and read the digits, which
    gives the number of hundredths the text stands for. *)
Fixpoint unpoint (s : string) : string :=
  match s with
  | EmptyString => EmptyString
  | String c r => if Ascii.eqb c "." then r else String c (unpoint r)
  end.

Definition hundredths_of (s : string) : option N :=
  N.of_uint <$> NilEmpty.uint_of_string (unpoint s).

(** [n] is the integer nearest to [100 * m * 2^e], the larger of the two
    on a tie. *)
Definition nearest_to_hundredfold (n : Z) (m : positive) (e : Z) : Prop :=
  if 0 <=? e then n = 100 * Z.pos m * 2 ^ e
  else 2 ^ (- e) * (2 * n - 1) <= 200 * Z.pos m < 2 ^ (- e) * (2 * n + 1).

(** A total [toFixed] writes in fixed notation: zero, or finite and of
    magnitude below [10^21]. *)
Definition in_fixed_range (x : float) : bool :=
  match Prim2SF x with
  | S754_zero _ => true
  | S754_finite _ m e => negb (at_least_1e21 m e)
  | _ => false
  end.

(** The magnitude of [x] rounds to [n] hundredths. *)
Definition rounds_to_hundredths (x : float) (n : Z) : Prop :=
  match Prim2SF x with
  | S754_zero _ => n = 0
  | S754_finite _ m e => nearest_to_hundredfold n m e
  | _ => False
  end.

(** The sign [toFixed] writes: that of a finite non-zero value. *)
Definition is_negative (x : float) : bool :=
  match Prim2SF x with
  | S754_finite s _ _ => s
  | _ => false
  end.

(** The initial form with its items replaced. *)
Definition with_order_items (l : list Item) : OrderForm.State :=
  setOrderData (with_items l) initial.

(** An order of three items at 0.1 each. *)
Definition three_slices : OrderForm.State :=
  with_order_items [mkItem "Slice" 3 0.1].

End TotalVocabulary.

Section AdapterSelectionVocabulary.
Import Js IntegrationService Async IntegrationsPage.

(** The names of the credential fields an adapter requires. *)
Definition field_names (a : Adapter.t) : list string :=
  CredentialField.name <$> Adapter.requiredCredentials a.

(** The two adapters of the page's test data. *)
Definition square : Adapter.t :=
  Adapter.mk "square" "Square POS"
    [CredentialField.mk "apiKey" "API Key" "password" true None None;
     CredentialField.mk "locationId" "Location ID" "text" true None None].

Definition sendgrid : Adapter.t :=
  Adapter.mk "sendgrid" "SendGrid"
    [CredentialField.mk "apiKey" "API Key" "password" true None None].

(** A page that has fetched them. *)
Definition loaded : State := setAdapters [square; sendgrid] initial.

(** The field names that become keys of the credentials: all but
    "__proto__". *)
Definition own_names (a : Adapter.t) : list string :=
  filter (fun n => n <> "__proto__") (field_names a).

(** An adapter that requires two credentials, the second of which is
    named "__proto__", and a page that has fetched it. *)
Definition gateway : Adapter.t :=
  Adapter.mk "gateway" "Payment Gateway"
    [CredentialField.mk "apiKey" "API Key" "password" true None None;
     CredentialField.mk "__proto__" "Prototype" "text" true None None].

Definition loaded_gateway : State := setAdapters [square; gateway] initial.

End AdapterSelectionVocabulary.

Section PageContinuationsVocabulary.
Import Js IntegrationService Async IntegrationsPage.

(** What each handler leaves behind at its [await]s. *)
Definition load_k : Outcome HttpError (Payload * Payload) -> IntegrationsPage.Prog :=
  fun o =>
    finally
      (try_catch
        match o with
        | Fulfilled (adaptersData, connectionsData) =>
            SetState (setAdapters (adapters_of adaptersData))
            (SetState (setConnections (connections_of connectionsData))
            (SetState (setError None) Ret))
        | Rejected e => Throw e
        end
        (fun err =>
          ConsoleError "Error fetching integration data:" err
          (SetState (setError (Some load_failed)) Ret)))
      (SetState (setLoading false) Ret).

Definition connect_catch (err : HttpError) : IntegrationsPage.Prog :=
  ConsoleError "Connection error:" err
  (SetState (setFormError
     (Some (or_else (error_message err) (JStr connect_failed))))
   Ret).

Definition connect_refresh_k (sel : string)
  : Outcome HttpError Payload -> IntegrationsPage.Prog :=
  fun o =>
    finally
      (try_catch
        match o with
        | Fulfilled updatedConnections =>
            SetState (setConnections (connections_of updatedConnections))
            (SetState (setFormSuccess (Some ("Successfully connected to " +:+ sel)))
            (SetState (setSelectedAdapter "")
            (SetState (setCredentials (fun _ => ∅)) Ret)))
        | Rejected e => Throw e
        end
        connect_catch)
      (SetState (setIsSubmitting false) Ret).

Definition connect_k (sel : string)
  : Outcome HttpError Payload -> IntegrationsPage.Prog :=
  fun o =>
    finally
      (try_catch
        match o with
        | Fulfilled _ =>
            await getConnections (fun updatedConnections =>
            SetState (setConnections (connections_of updatedConnections))
            (SetState (setFormSuccess (Some ("Successfully connected to " +:+ sel)))
            (SetState (setSelectedAdapter "")
            (SetState (setCredentials (fun _ => ∅)) Ret))))
        | Rejected e => Throw e
        end
        connect_catch)
      (SetState (setIsSubmitting false) Ret).

Definition disconnect_catch (err : HttpError) : IntegrationsPage.Prog :=
  ConsoleError "Disconnection error:" err
  (SetState (setFormError
     (Some (or_else (error_message err) (JStr disconnect_failed))))
   Ret).

Definition disconnect_refresh_k
  : Outcome HttpError Payload -> IntegrationsPage.Prog :=
  fun o =>
    finally
      (try_catch
        match o with
        | Fulfilled updatedConnections =>
            SetState (setConnections (connections_of updatedConnections))
            (SetState (setFormSuccess (Some "Successfully disconnected")) Ret)
        | Rejected e => Throw e
        end
        disconnect_catch)
      (SetState (setLoading false) Ret).

Definition disconnect_k
  : Outcome HttpError Payload -> IntegrationsPage.Prog :=
  fun o =>
    finally
      (try_catch
        match o with
        | Fulfilled _ =>
            await getConnections (fun updatedConnections =>
            SetState (setConnections (connections_of updatedConnections))
            (SetState (setFormSuccess (Some "Successfully disconnected")) Ret))
        | Rejected e => Throw e
        end
        disconnect_catch)
      (SetState (setLoading false) Ret).

Definition register_k (path : string)
  : Outcome HttpError Payload -> IntegrationsPage.Prog :=
  fun o =>
    finally
      (try_catch
        match o with
        | Fulfilled _ =>
            SetState (setWebhookSuccess
              (Some ("Successfully registered webhook at " +:+ path)))
            (SetState (setWebhookPath "")
            (SetState (setWebhookOptions
               (fun _ => {| description := ""; events := [] |})) Ret))
        | Rejected e => Throw e
        end
        (fun err =>
          ConsoleError "Webhook registration error:" err
          (SetState (setWebhookError
             (Some (or_else (error_message err) (JStr register_failed))))
           Ret)))
      (SetState (setIsRegisteringWebhook false) Ret).

End PageContinuationsVocabulary.

Section PageInvariantVocabulary.
Import Js IntegrationService Async IntegrationsPage.

(** The continuation that waits for a call is the one its handler
    installed. *)
Definition cont_matches (op : Call)
    (k : Outcome HttpError Payload -> IntegrationsPage.Prog) : Prop :=
  match op with
  | connect sel _ => k = connect_k sel
  | disconnect _ => k = disconnect_k
  | registerWebhook path _ => k = register_k path
  | getConnections =>
      (exists sel, k = connect_refresh_k sel) \/ k = disconnect_refresh_k
  | _ => False
  end.

Definition known_waiter (lg : list Entry) (w : PWaiter) : Prop :=
  match w with
  | WaitOne id k =>
      2 <= id /\ exists op, Invoked id op ∈ lg /\ cont_matches op k
  | WaitAll2 id1 id2 _ _ k => id1 = 0 /\ id2 = 1 /\ k = load_k
  end.

Record page_inv_of (ws : list PWaiter) (fl : list nat) (n : nat)
    (lg : list Entry) : Prop := {
  inv_fresh : forall id op, Invoked id op ∈ lg -> id < n;
  inv_unique : forall id op op',
    Invoked id op ∈ lg -> Invoked id op' ∈ lg -> op = op';
  inv_initial : Invoked 0 getAdapters ∈ lg /\ Invoked 1 getConnections ∈ lg;
  inv_waiters : Forall (known_waiter lg) ws;
  inv_pending : forall id, id ∈ fl -> 2 <= id -> exists k, WaitOne id k ∈ ws;
  inv_flight_fresh : forall id, id ∈ fl -> id < n;
  inv_settled_fresh : forall id o, Settled id o ∈ lg -> id < n
}.

Definition page_inv (s : IntegrationsPage.Sys) : Prop :=
  page_inv_of (waiters s) (in_flight s) (next_id s) (log s).

(** What settling call [id] does to a page in a session: the call leaves
    the calls in flight, its settling is logged, and then the handler that
    waited for it, if any, resumes. *)
Definition settled_pre (s : IntegrationsPage.Sys) (id : nat)
    (o : Outcome HttpError Payload) (ws : list PWaiter) : IntegrationsPage.Sys :=
  {| state := state s; waiters := ws;
     in_flight := filter (fun i => i ≠ id) (in_flight s);
     next_id := next_id s; log := log s ++ [Settled id o] |}.

(** The calls that change the set of connections. *)
Definition is_mutation (op : Call) : bool :=
  match op with connect _ _ | disconnect _ => true | _ => false end.

End PageInvariantVocabulary.

Section ConnectFailureVocabulary.
Import Js IntegrationService Async IntegrationsPage.

(** Two rejections of a [connect] call: the server's message is
    "Invalid API key", or the empty string. *)
Definition invalid_key : HttpError :=
  {| response := Some {| data := Some (JObj {[ "message" := JStr "Invalid API key" ]}) |} |}.

Definition empty_message : HttpError :=
  {| response := Some {| data := Some (JObj {[ "message" := JStr "" ]}) |} |}.

(** A session that loads both lists, picks the adapter [square], fills
    in its two required credentials and submits the connect form; the
    [connect] call has identifier 2. *)
Definition connecting : list Event :=
  [Settle 0 (Fulfilled (AdapterList [square; sendgrid]));
   Settle 1 (Fulfilled (ConnectionList []));
   AdapterChange "square";
   CredentialChange "apiKey" "k";
   CredentialChange "locationId" "L1";
   SubmitConnect].

(** The credentials it submits. *)
Definition typed_credentials : gmap string string :=
  <["locationId" := "L1"]>
    (<["apiKey" := "k"]> (initialCredentials (Adapter.requiredCredentials square))).

End ConnectFailureVocabulary.

Section InitialLoadVocabulary.
Import Js IntegrationService Async IntegrationsPage.

(** While the page is loading nothing but the two fetches can happen:
    the events of the activation are the settlings of calls. *)
Definition settlings (outs : list (nat * Outcome HttpError Payload)) : list Event :=
  (fun io => Settle io.1 io.2) <$> outs.

(** One of the two initial fetches has failed; both have succeeded. *)
Definition some_rejected (lg : list Entry) : Prop :=
  exists i e, i < 2 /\ Settled i (Rejected e) ∈ lg.

Definition both_fulfilled (lg : list Entry) : Prop :=
  exists v0 v1, Settled 0 (Fulfilled v0) ∈ lg /\ Settled 1 (Fulfilled v1) ∈ lg.

(** The log right after the mount. *)
Definition loading_log : list Entry :=
  [Invoked 0 getAdapters; Invoked 1 getConnections].

(** The stages of the activation. *)
Inductive load_phase (s : IntegrationsPage.Sys) : Prop :=
| both_pending :
    waiters s = [WaitAll2 0 1 None None load_k] ->
    in_flight s = [0; 1] ->
    log s = loading_log ->
    state s = setLoading true initial ->
    load_phase s
| adapters_arrived v :
    waiters s = [WaitAll2 0 1 (Some v) None load_k] ->
    in_flight s = [1] ->
    log s = loading_log ++ [Settled 0 (Fulfilled v)] ->
    state s = setLoading true initial ->
    load_phase s
| connections_arrived v :
    waiters s = [WaitAll2 0 1 None (Some v) load_k] ->
    in_flight s = [0] ->
    log s = loading_log ++ [Settled 1 (Fulfilled v)] ->
    state s = setLoading true initial ->
    load_phase s
| load_aborted :
    waiters s = [] ->
    loading (state s) = false ->
    error (state s) = Some load_failed ->
    some_rejected (log s) ->
    load_phase s
| load_complete :
    waiters s = [] ->
    in_flight s = [] ->
    loading (state s) = false ->
    error (state s) = None ->
    both_fulfilled (log s) ->
    ~ some_rejected (log s) ->
    load_phase s.

(** A failure that carries no response. *)
Definition network_down : HttpError := {| response := None |}.

End InitialLoadVocabulary.

Section ConnectRefreshVocabulary.
Import Js IntegrationService Async IntegrationsPage.

(** A [getConnections] call. *)
Definition is_refresh (entry : Entry) : bool :=
  match entry with Invoked _ getConnections => true | _ => false end.

(** The number of [getConnections] calls in a log. *)
Definition refreshes (lg : list Entry) : nat :=
  length (List.filter is_refresh lg).

(** The events that issue a call changing the connections. *)
Definition is_submit (ev : Event) : bool :=
  match ev with SubmitConnect => true | _ => false end.

Definition is_confirmed_disconnect (ev : Event) : bool :=
  match ev with ClickDisconnect _ true => true | _ => false end.

(** The number of times the connect form is submitted. *)
Definition submits (evs : list Event) : nat :=
  length (List.filter is_submit evs).

(** Some [connect] call has been fulfilled. *)
Definition connect_succeeded (lg : list Entry) : Prop :=
  exists c sel creds v,
    Invoked c (connect sel creds) ∈ lg /\ Settled c (Fulfilled v) ∈ lg.

(** The log reads: ..., the [connect] call [c], ..., [c] fulfilled, at
    once the refresh, ...; with one [getConnections] call before (the
    initial load) and none after. *)
Definition refreshed_after_connect (lg : list Entry) : Prop :=
  exists l1 l2 c sel creds v r,
    lg = l1 ++ [Settled c (Fulfilled v); Invoked r getConnections] ++ l2
    /\ Invoked c (connect sel creds) ∈ l1
    /\ refreshes l1 = 1
    /\ refreshes l2 = 0.

(** What the log of a session with one submission holds: no
    [disconnect] call; before the submission no [connect] call, afterwards
    at most one; and no fulfilled [connect] call until the refresh. *)
Definition no_disconnects (lg : list Entry) : Prop :=
  forall id cid, Invoked id (disconnect cid) ∉ lg.

Definition no_connects (lg : list Entry) : Prop :=
  forall id sel creds, Invoked id (connect sel creds) ∉ lg.

Definition one_connect (lg : list Entry) : Prop :=
  forall c c' sel creds sel' creds',
    Invoked c (connect sel creds) ∈ lg ->
    Invoked c' (connect sel' creds') ∈ lg -> c = c'.

Definition no_success (lg : list Entry) : Prop :=
  forall c sel creds v,
    Invoked c (connect sel creds) ∈ lg -> Settled c (Fulfilled v) ∉ lg.

(** The page before and after the one submission of the connect form. *)
Definition before_submit (s : IntegrationsPage.Sys) : Prop :=
  page_inv s /\ no_disconnects (log s) /\ no_connects (log s)
  /\ refreshes (log s) = 1.

Definition after_submit (s : IntegrationsPage.Sys) : Prop :=
  page_inv s /\ no_disconnects (log s) /\ one_connect (log s)
  /\ ((refreshes (log s) = 1 /\ no_success (log s))
      \/ (refreshed_after_connect (log s)
          /\ forall c sel creds,
               Invoked c (connect sel creds) ∈ log s -> c ∉ in_flight s)).

(** The session of [connecting], in which the [connect] call is then
    fulfilled and the refresh answered. *)
Definition connected : list Event :=
  connecting ++
  [Settle 2 (Fulfilled (Ack JNull));
   Settle 3 (Fulfilled (ConnectionList []))].

(** The connection the backend lists once the [connect] call has
    succeeded. *)
Definition square_register : Connection.t :=
  Connection.mk "conn_456" "square" "Square POS" "active"
    "2025-04-28T10:00:00Z" None.

(** A session that submits the connect form once, sees the [connect]
    call fulfilled and the new connection listed by the refresh, and then
    also confirms the disconnect of that connection, which refreshes the
    list as well: three [getConnections] calls. *)
Definition connected_then_disconnected : list Event :=
  connecting ++
  [Settle 2 (Fulfilled (Ack JNull));
   Settle 3 (Fulfilled (ConnectionList [square_register]));
   ClickDisconnect "conn_456" true;
   Settle 4 (Fulfilled (Ack JNull))].

End ConnectRefreshVocabulary.

Section MonitorVocabulary.
Import Js IntegrationService Async WebhookEventsComponent.
Local Open Scope Z_scope.

(** The continuation [fetchWebhookEvents] leaves behind at its [await]. *)
Definition fetch_k : Response -> WebhookEventsComponent.Prog :=
  fun o =>
    finally
      (try_catch
        match o with
        | Fulfilled webhooks =>
            SetState (setWebhookEvents webhooks)
            (SetState (setSources (unique (WebhookEvent.source <$> webhooks)))
            (SetState (setError None) Ret))
        | Rejected e => Throw e
        end
        (fun err =>
          ConsoleError "Error fetching webhook events:" err
          (SetState (setError (Some load_failed)) Ret)))
      (SetState (setLoading false) Ret).

(** What the continuation does to the component state. *)
Definition apply_response (o : Response) (st : State) : State :=
  match o with
  | Fulfilled webhooks =>
      setLoading false
        (setError None
          (setSources (unique (WebhookEvent.source <$> webhooks))
            (setWebhookEvents webhooks st)))
  | Rejected _ => setLoading false (setError (Some load_failed) st)
  end.

(** Every suspended handler is a fetch, and every fetch in flight has
    its handler waiting. *)
Definition fetching (s : WebhookEventsComponent.Sys) : Prop :=
  Forall (fun w => exists id, w = WaitOne id fetch_k) (waiters s)
  /\ forall id, (id ∈ in_flight s)%stdpp -> (WaitOne id fetch_k ∈ waiters s)%stdpp.

(** The number of [getWebhooks] calls in a log. *)
Definition count_fetches (lg : list (LogEntry Call (list WebhookEvent.t) HttpError)) : nat :=
  length (List.filter is_fetch lg).

(** The milliseconds a session lets pass. *)
Definition elapsed (evs : list Event) : Z :=
  fold_left
    (fun t ev => match ev with Advance ms => t + Z.max 0 ms | _ => t end) evs 0.

(** After [t] milliseconds of a mounted monitor: the interval fires at the
    next multiple of the period and one fetch has been issued at the start
    and at every multiple so far. *)
Definition polling (m : Monitor) (t : Z) : Prop :=
  0 <= t
  /\ mounted m = true
  /\ fetching (sys m)
  /\ pollingInterval m = Some (POLL_MS - t mod POLL_MS)
  /\ Z.of_nat (fetches m) = 1 + t / POLL_MS.

(** One time unit of the specification is a second. *)
Definition time_units (n : Z) : Z := n * 1000.

(** A webhook event of the monitor's test data. *)
Definition order_created : WebhookEvent.t :=
  WebhookEvent.mk "webhook_1" "square" "2025-04-28T10:15:30Z"
    "/api/webhooks/orders" "POST" (JObj {[ "orderId" := JStr "order_123" ]}).

End MonitorVocabulary.

Section RoutesVocabulary.
Import Js IntegrationService.

Definition route (c : Call) : Verb * string :=
  (verb (request c), url (request c)).

Definition same_target (c1 c2 : Call) : Prop :=
  match c1, c2 with
  | getAdapters, getAdapters
  | getConnections, getConnections
  | getWebhooks, getWebhooks
  | registerWebhook _ _, registerWebhook _ _ => True
  | connect system1 _, connect system2 _ => system1 = system2
  | disconnect id1, disconnect id2 => id1 = id2
  | send system1 endpoint1 _, send system2 endpoint2 _ =>
      system1 +:+ "/" +:+ endpoint1 = system2 +:+ "/" +:+ endpoint2
  | _, _ => False
  end.
End RoutesVocabulary.

Section AppContextVocabulary.
Import AppContext.
Local Open Scope Z_scope.

(** What holds of the provider whatever has happened: every pending
    timeout fires within the delay, and an open notification has one
    pending. *)
Definition provider_ok (p : Provider) : Prop :=
  Forall (fun r => 0 < r <= AUTO_HIDE_MS) (timeouts p)
  /\ (open (notification (state p)) = true -> timeouts p <> []).

(** The state after [k] milliseconds without any other event. *)
Definition after_ms (k : Z) (p : Provider) : Provider :=
  {| state :=
       if existsb (fun r => r <=? k) (timeouts p)
       then setNotification closed (state p) else state p;
     timeouts := (fun r => r - k) <$> List.filter (fun r => k <? r) (timeouts p) |}.

End AppContextVocabulary.

Section OrderFormSessionVocabulary.
Import Js IntegrationService Async OrderForm.

(** What holds of a form operated through its controls: it is idle, or
    one submission is under way, with its one call in flight. *)
Definition idle (s : OrderForm.Sys) : Prop :=
  isSubmitting (state s) = false /\ in_flight s = [] /\ waiters s = []
  /\ orderStatus (state s) <> Some processing.

Definition submitting (s : OrderForm.Sys) : Prop :=
  exists id,
    isSubmitting (state s) = true /\ in_flight s = [id]
    /\ waiters s = [WaitOne id submit_k]
    /\ orderStatus (state s) = Some processing
    /\ error (state s) = None.

(** An item as the validation of [handleSubmit] wants it. *)
Definition carbonara : Item := mkItem "Carbonara" 2 11.5.

End OrderFormSessionVocabulary.

Section SuccessPanelVocabulary.
Import Js IntegrationService Async OrderForm.


End SuccessPanelVocabulary.

Section LoadDataVocabulary.
Import Js IntegrationService Async IntegrationsPage.

(** The state the activation ends in: after a failure, and after both
    lists have arrived. *)
Definition load_failure : State :=
  setLoading false (setError (Some load_failed) (setLoading true initial)).

Definition load_success (adaptersData connectionsData : Payload) : State :=
  setLoading false
    (setError None
      (setConnections (connections_of connectionsData)
        (setAdapters (adapters_of adaptersData) (setLoading true initial)))).

(** The stages of the activation with the data they hold. *)
Inductive load_data (s : IntegrationsPage.Sys) : Prop :=
| data_pending :
    waiters s = [WaitAll2 0 1 None None load_k] ->
    in_flight s = [0; 1] ->
    state s = setLoading true initial ->
    ~ some_rejected (log s) ->
    load_data s
| data_adapters v :
    waiters s = [WaitAll2 0 1 (Some v) None load_k] ->
    in_flight s = [1] ->
    state s = setLoading true initial ->
    ~ some_rejected (log s) ->
    Settled 0 (Fulfilled v) ∈ log s ->
    load_data s
| data_connections v :
    waiters s = [WaitAll2 0 1 None (Some v) load_k] ->
    in_flight s = [0] ->
    state s = setLoading true initial ->
    ~ some_rejected (log s) ->
    Settled 1 (Fulfilled v) ∈ log s ->
    load_data s
| data_failed :
    waiters s = [] ->
    state s = load_failure ->
    some_rejected (log s) ->
    load_data s
| data_loaded v0 v1 :
    waiters s = [] ->
    in_flight s = [] ->
    state s = load_success v0 v1 ->
    ~ some_rejected (log s) ->
    Settled 0 (Fulfilled v0) ∈ log s ->
    Settled 1 (Fulfilled v1) ∈ log s ->
    load_data s.

End LoadDataVocabulary.

Section NoticeTimersVocabulary.
Import Js IntegrationService Async IntegrationsPage.
Local Open Scope Z_scope.

(** A notice and the timeout of its effect agree: a banner that shows has
    its timeout set, and a timeout that is set fires within the delay and
    belongs to a banner that shows. *)
Definition timer_ok (notice : option string) (timer : option Z) : Prop :=
  match timer with
  | Some r => 0 < r <= NOTICE_MS /\ notice_banner notice <> None
  | None => notice_banner notice = None
  end.

Definition timers_ok (m : Timed) : Prop :=
  timer_ok (formSuccess (state (page m))) (formTimer m)
  /\ timer_ok (webhookSuccess (state (page m))) (webhookTimer m).

(** A notice with its timeout, and what a millisecond does to the
    pair. *)
Definition form_notice (m : Timed) : option string * option Z :=
  (formSuccess (state (page m)), formTimer m).

Definition webhook_notice (m : Timed) : option string * option Z :=
  (webhookSuccess (state (page m)), webhookTimer m).

Definition notice_tick (nt : option string * option Z) : option string * option Z :=
  match nt.2 with
  | Some r => if decide (r <= 1) then (None, None) else (nt.1, Some (r - 1))
  | None => nt
  end.

(** A session that connects, as [connected] does, and then lets three
    seconds pass. *)
Definition connected_3s_ago : list TimedEvent :=
  (Happens <$> connected) ++ [Elapse 3000].

End NoticeTimersVocabulary.

Section MonitorViewVocabulary.
Import Js IntegrationService Async WebhookEventsComponent.

(** The events of a session up to its first unmount. *)
Fixpoint while_mounted (evs : list Event) : list Event :=
  match evs with
  | [] => []
  | Unmount :: _ => []
  | ev :: evs' => ev :: while_mounted evs'
  end.

(** The responses that have arrived, in their order of arrival. *)
Definition arrived (lg : list (LogEntry Call (list WebhookEvent.t) HttpError))
  : list Response :=
  omap (fun entry => match entry with Settled _ o => Some o | _ => None end) lg.

(** The snapshot of the last response that was fulfilled. *)
Definition last_snapshot (rs : list Response) : list WebhookEvent.t :=
  fold_left
    (fun snapshot o => match o with Fulfilled l => l | Rejected _ => snapshot end)
    rs [].

(** What holds of the state of a mounted monitor whatever has happened. *)
Definition shows_arrivals (s : WebhookEventsComponent.Sys) : Prop :=
  let rs := arrived (log s) in
  webhookEvents (state s) = last_snapshot rs
  /\ sources (state s) = unique (WebhookEvent.source <$> last_snapshot rs)
  /\ loading (state s) = bool_decide (rs = [])
  /\ error (state s) =
       match last rs with
       | Some (Rejected _) => Some load_failed
       | _ => None
       end.

End MonitorViewVocabulary.

Section PageFlowsVocabulary.
Import Js IntegrationService Async IntegrationsPage.

(** The flows of the page, and the flow a suspended handler belongs
    to. *)
Inductive Flow : Type := LoadFlow | ConnectFlow | DisconnectFlow | RegisterFlow.

#[global] Instance Flow_eq_dec : EqDecision Flow.
Proof. solve_decision. Defined.

Definition runs (w : PWaiter) (f : Flow) : Prop :=
  match w, f with
  | WaitAll2 _ _ _ _ k, LoadFlow => k = load_k
  | WaitOne _ k, ConnectFlow =>
      exists sel, k = connect_k sel \/ k = connect_refresh_k sel
  | WaitOne _ k, DisconnectFlow => k = disconnect_k \/ k = disconnect_refresh_k
  | WaitOne _ k, RegisterFlow => exists path, k = register_k path
  | _, _ => False
  end.

Definition flows (f : Flow) (fs : list Flow) : nat :=
  length (filter (fun x => x = f) fs).

Definition flag (b : bool) : nat := if b then 1 else 0.

(** What holds of a page whose flows are started through its buttons:
    each of the three busy flags counts the flows of its kind that are
    under way (the loading flag also stands for the initial load). *)
Definition flows_ok (s : IntegrationsPage.Sys) : Prop :=
  exists fs,
    Forall2 runs (waiters s) fs
    /\ flows ConnectFlow fs = flag (isSubmitting (state s))
    /\ flows RegisterFlow fs = flag (isRegisteringWebhook (state s))
    /\ flows DisconnectFlow fs + flows LoadFlow fs = flag (loading (state s)).

(** The flow a call starts, and the flag that is up while a flow of a
    kind is under way. *)
Definition starts (op : Call) : option Flow :=
  match op with
  | connect _ _ => Some ConnectFlow
  | disconnect _ => Some DisconnectFlow
  | registerWebhook _ _ => Some RegisterFlow
  | _ => None
  end.

Definition busy (f : Flow) (st : State) : bool :=
  match f with
  | ConnectFlow => isSubmitting st
  | RegisterFlow => isRegisteringWebhook st
  | DisconnectFlow | LoadFlow => loading st
  end.

(** The connection of the page's test data. *)
Definition square_pos : Connection.t :=
  Connection.mk "conn_123" "square" "Square POS" "active"
    "2025-04-01T12:00:00Z" (Some "2025-04-28T10:30:00Z").

(** A session in which the user, with the lists loaded, starts a
    disconnect and a webhook registration side by side. *)
Definition two_flows : list Event :=
  [Settle 0 (Fulfilled (AdapterList [square; sendgrid]));
   Settle 1 (Fulfilled (ConnectionList [square_pos]));
   ClickDisconnect "conn_123" true;
   WebhookPathChange "/api/webhooks/orders";
   SubmitRegisterWebhook].

End PageFlowsVocabulary.

(* ===================================================================== *)
(** * Part III: properties *)
(* ===================================================================== *)

(** Membership in a list that is written out. *)
Ltac in_list H :=
  repeat first
    [ apply elem_of_nil in H; destruct H
    | apply elem_of_cons in H as [H|H]
    | apply elem_of_app in H as [H|H] ].

Ltac solve_in :=
  repeat first [rewrite elem_of_app | rewrite elem_of_cons]; auto 12.

(** ** The integration client *)

Section IntegrationServiceProperties.
Import Js IntegrationService.

Lemma spread_lookup (target src : gmap string json) (k : string) :
  spread target src !! k =
  match src !! k with Some v => Some v | None => target !! k end.
Proof.
  unfold spread. rewrite lookup_union.
  destruct (src !! k), (target !! k); reflexivity.
Qed.

(** C10: [registerWebhook(path, options)] posts to
    [/api/integration/webhooks/register] the object whose entries are those
    of [{path}] overlaid with all entries of [options]: every key of
    [options] carries the value [options] gives it (so a [path] key inside
    [options] replaces the argument), the key [path] carries the argument
    when [options] has no such key, and there are no other keys. *)
Theorem registerWebhook_body (p : string) (o : gmap string json) :
  exists b : gmap string json,
    request (registerWebhook p o) =
      {| verb := POST; url := "/api/integration/webhooks/register";
         body := Some (JObj b) |}
    /\ b = o ∪ {[ "path" := JStr p ]}
    /\ (forall k v, o !! k = Some v -> b !! k = Some v)
    /\ (o !! "path" = None -> b !! "path" = Some (JStr p))
    /\ (forall v, o !! "path" = Some v -> b !! "path" = Some v)
    /\ (forall k, k <> "path" -> b !! k = o !! k).
Proof.
  exists (spread {[ "path" := JStr p ]} o).
  split; [reflexivity|]. split; [reflexivity|].
  repeat split.
  - intros k v Hk. rewrite spread_lookup, Hk. reflexivity.
  - intros Hnone. rewrite spread_lookup, Hnone. apply lookup_singleton_eq.
  - intros v Hv. rewrite spread_lookup, Hv. reflexivity.
  - intros k Hk. rewrite spread_lookup.
    destruct (o !! k); [reflexivity|].
    apply lookup_singleton_ne. congruence.
Qed.

End IntegrationServiceProperties.

(** ** The machine that runs the handlers *)

Section AsyncProperties.
Import Async.
Context {St Op Val Err : Type}.
Implicit Types (s : Sys St Op Val Err) (p : Prog St Op Val Err).
Implicit Types (w : Waiter St Op Val Err) (o : Outcome Err Val).

(** Settling a call resumes at most one waiter: the first that waits for
    it. *)
Lemma resume_spec id o (ws : list (Waiter St Op Val Err)) :
  (resume id o ws = (ws, Ret) /\ Forall (fun w => react id o w = None) ws)
  \/ exists l1 w l2 rest p,
       ws = l1 ++ w :: l2
       /\ Forall (fun x => react id o x = None) l1
       /\ react id o w = Some (rest, p)
       /\ resume id o ws = (l1 ++ option_list rest ++ l2, p).
Proof.
  induction ws as [|w ws IH]; simpl.
  - left. split; [reflexivity | constructor].
  - destruct (react id o w) as [[rest p]|] eqn:Hw.
    + right. exists [], w, ws, rest, p. simpl. repeat split; try done.
    + destruct IH as [[Heq Hall] | (l1 & x & l2 & rest & p & -> & Hl1 & Hx & Heq)].
      * left. rewrite Heq. split; [reflexivity | by constructor].
      * right. exists (w :: l1), x, l2, rest, p. rewrite Heq. simpl.
        repeat split; try done. by constructor.
Qed.

Lemma settle_not_in_flight id o s :
  id ∉ in_flight s -> settle id o s = s.
Proof. intros H. unfold settle. destruct (decide _); [contradiction | reflexivity]. Qed.

Lemma settle_in_flight id o s :
  id ∈ in_flight s ->
  settle id o s =
    exec (resume id o (waiters s)).2
      {| state := state s; waiters := (resume id o (waiters s)).1;
         in_flight := filter (fun i => i ≠ id) (in_flight s);
         next_id := next_id s; log := log s ++ [Settled id o] |}.
Proof.
  intros H. unfold settle. destruct (decide _); [|contradiction].
  destruct (resume id o (waiters s)); reflexivity.
Qed.

Lemma exec_quiet p s :
  quiet p ->
  waiters (exec p s) = waiters s
  /\ in_flight (exec p s) = in_flight s
  /\ next_id (exec p s) = next_id s
  /\ exists l, log (exec p s) = log s ++ l /\ Forall silent l.
Proof.
  intros Hq. revert s. induction Hq as [|e|f k Hq IH|msg e k Hq IH]; intros s; simpl.
  - repeat split. exists []. by rewrite app_nil_r.
  - repeat split. exists [Unhandled e]. split; [reflexivity|]. by repeat constructor.
  - destruct (IH (with_state f s)) as (-> & -> & -> & l & -> & Hl).
    repeat split. by exists l.
  - destruct (IH (record (Console msg e) s)) as (-> & -> & -> & l & -> & Hl).
    repeat split. exists (Console msg e :: l). simpl.
    split; [by rewrite <- app_assoc | by constructor].
Qed.

Lemma silent_invoked (l : list (LogEntry Op Val Err)) id op :
  Forall silent l -> Invoked id op ∉ l.
Proof.
  intros Hl Hin. rewrite Forall_forall in Hl. exact (Hl _ Hin).
Qed.

Lemma silent_settled (l : list (LogEntry Op Val Err)) id o :
  Forall silent l -> Settled id o ∉ l.
Proof.
  intros Hl Hin. rewrite Forall_forall in Hl. exact (Hl _ Hin).
Qed.

(** The two ways a waiter reacts: a single [await] resumes; a
    [Promise.all] resumes when it rejects or is complete, and otherwise
    notes the value and keeps waiting. *)
Lemma react_Some id o w rest p :
  react id o w = Some (rest, p) ->
  (exists k, w = WaitOne id k /\ rest = None /\ p = k o)
  \/ (exists id1 id2 g1 g2 k,
        w = WaitAll2 id1 id2 g1 g2 k
        /\ (id = id1 \/ id = id2)
        /\ ((rest = None /\ exists r : Outcome Err (Val * Val), p = k r)
            \/ (exists g1' g2',
                  rest = Some (WaitAll2 id1 id2 g1' g2' k) /\ p = Ret))).
Proof.
  destruct w as [id' k|id1 id2 g1 g2 k]; simpl.
  - destruct (decide (id = id')) as [->|]; [|discriminate].
    intros [= <- <-]. left. by exists k.
  - intros H. right. exists id1, id2, g1, g2, k. split; [reflexivity|].
    destruct (decide (id = id1)) as [->|Hne1].
    + split; [by left|].
      destruct o as [v|e]; [destruct g2 as [v2|]|]; injection H as <- <-;
        eauto 8.
    + destruct (decide (id = id2)) as [->|Hne2]; [|discriminate].
      split; [by right|].
      destruct o as [v|e]; [destruct g1 as [v1|]|]; injection H as <- <-;
        eauto 8.
Qed.

End AsyncProperties.

(** ** The order form *)

Section OrderFormProperties.
Import Js IntegrationService Async OrderForm.

Lemma handleSubmit_valid (d : OrderData) :
  truthy_string (customerName d) = true ->
  existsb invalid_item (items d) = false ->
  handleSubmit d =
    SetState (setIsSubmitting true)
    (SetState (setError None)
    (SetState (setOrderStatus (Some processing))
    (Await (send "square" "orders/create" (order_json d)) submit_k))).
Proof. intros H1 H2. unfold handleSubmit. rewrite H1, H2. reflexivity. Qed.

(** C8: submitting with an empty customer name issues no service call
    (the log of calls, the calls in flight and the suspended handlers are
    what they were), leaves the entered order data untouched and puts up
    the validation message. *)
Theorem handleSubmit_empty_name (s : OrderForm.Sys) :
  customerName (orderData (state s)) = "" ->
  let s' := step s Submit in
  log s' = log s
  /\ in_flight s' = in_flight s
  /\ waiters s' = waiters s
  /\ next_id s' = next_id s
  /\ orderData (state s') = orderData (state s)
  /\ error_banner (state s') = Some (JStr "Customer name is required").
Proof.
  intros Hname. simpl. unfold handleSubmit. rewrite Hname. simpl.
  repeat split; reflexivity.
Qed.

Lemma handleSubmit_empty_name_witness :
  let s' := step mount Submit in
  log s' = log mount
  /\ in_flight s' = in_flight mount
  /\ waiters s' = waiters mount
  /\ next_id s' = next_id mount
  /\ orderData (state s') = orderData (state mount)
  /\ error_banner (state s') = Some (JStr "Customer name is required").
Proof. apply (handleSubmit_empty_name mount). reflexivity. Defined.

(** *** Removing items *)

Lemma splice1_in_range {A} (i : Z) (l : list A) :
  (0 <= i < Z.of_nat (length l))%Z ->
  splice1 i l = delete (Z.to_nat i) l.
Proof.
  intros Hi. unfold splice1.
  destruct (Z.ltb_spec i 0) as [?|_]; [lia|].
  rewrite Z.min_l by lia. symmetry. apply delete_take_drop.
Qed.

Lemma splice1_length {A} (i : Z) (l : list A) :
  (length l - 1 <= length (splice1 i l))%nat.
Proof.
  unfold splice1. rewrite length_app, length_take, length_drop. lia.
Qed.

Lemma form_ok_mount : form_ok mount.
Proof.
  split; [simpl; lia|]. split; [constructor|].
  intros id Hid. by apply elem_of_nil in Hid.
Qed.

(** The arrival of the answer to a [send] call in flight resumes
    [handleSubmit]. *)
Lemma settle_send (s : OrderForm.Sys) (id : nat) (o : Outcome HttpError json) :
  form_ok s -> id ∈ in_flight s ->
  exists ws,
    settle id o s =
      exec (submit_k o)
        {| state := state s; waiters := ws;
           in_flight := filter (fun i => i ≠ id) (in_flight s);
           next_id := next_id s; log := log s ++ [Settled id o] |}
    /\ Forall (fun w => exists id, w = WaitOne id submit_k) ws
    /\ forall i, i ∈ in_flight s -> i <> id -> WaitOne i submit_k ∈ ws.
Proof.
  intros (Hlen & Hws & Hfl) Hin. rewrite settle_in_flight by exact Hin.
  destruct (resume_spec id o (waiters s))
    as [[_ Hnone] | (l1 & w & l2 & rest & p & Hsplit & _ & Hw & ->)].
  { rewrite Forall_forall in Hnone. specialize (Hnone _ (Hfl id Hin)).
    simpl in Hnone. by rewrite decide_True in Hnone. }
  rewrite Hsplit in Hws. apply Forall_app in Hws as [Hl1 Hl2].
  apply Forall_cons in Hl2 as [[id' ->] Hl2].
  simpl in Hw. destruct (decide (id = id')) as [<-|]; [|discriminate].
  injection Hw as <- <-. simpl. exists (l1 ++ l2).
  split; [reflexivity|]. split; [apply Forall_app; by split|].
  intros i Hi Hne. specialize (Hfl i Hi). rewrite Hsplit in Hfl.
  apply elem_of_app in Hfl as [?|Hfl]; [apply elem_of_app; by left|].
  apply elem_of_cons in Hfl as [Heq|?]; [congruence|].
  apply elem_of_app; by right.
Qed.

Lemma form_ok_step (s : OrderForm.Sys) (ev : Event) :
  form_ok s -> form_ok (step s ev).
Proof.
  intros Hs. pose proof Hs as (Hlen & Hws & Hfl).
  destruct ev as [n v|i e| |i| | |id o]; simpl.
  - done.
  - unfold handleItemChange.
    destruct (items (orderData (state s)) !! i) eqn:Hi; [|done].
    split; [simpl; rewrite length_insert; exact Hlen | by split].
  - split; [simpl; rewrite length_app; simpl; lia | by split].
  - split; [|by split]. simpl. unfold removeItem.
    destruct (decide _) as [Hone|Hmore]; [exact Hlen|]. simpl.
    pose proof (splice1_length i (items (orderData (state s)))). lia.
  - unfold handleSubmit.
    destruct (truthy_string (customerName (orderData (state s)))); simpl;
      [|done].
    destruct (existsb invalid_item (items (orderData (state s)))); simpl;
      [done|].
    split; [exact Hlen|]. split.
    + apply Forall_app. split; [exact Hws|].
      constructor; [|constructor]. eexists. reflexivity.
    + intros id [Hid|Hid]%elem_of_app; apply elem_of_app.
      * left. by apply Hfl.
      * right. apply list_elem_of_singleton in Hid as ->. by left.
  - done.
  - destruct (decide (id ∈ in_flight s)) as [Hin|Hout];
      [|by rewrite settle_not_in_flight].
    destruct (settle_send s id o Hs Hin) as (ws & -> & Hws' & Hfl').
    destruct o as [v|e]; simpl.
    + split; [simpl; lia|]. split; [exact Hws'|].
      intros i [Hne Hi]%list_elem_of_filter. by apply Hfl'.
    + split; [exact Hlen|]. split; [exact Hws'|].
      intros i [Hne Hi]%list_elem_of_filter. by apply Hfl'.
Qed.

Lemma form_ok_run (evs : list Event) : form_ok (run evs).
Proof.
  unfold run. induction evs as [|ev evs IH] using rev_ind; simpl.
  - apply form_ok_mount.
  - rewrite fold_left_app. simpl. apply form_ok_step, IH.
Qed.

(** C6: whatever happens to the form, its item list has at least one
    item; on a state with exactly one item [removeItem] changes nothing,
    for any index; on a state with more items [removeItem] at the
    position of an item deletes that item and only it, and touches nothing
    else in the state. *)
Theorem removeItem_keeps_last_item :
  (forall evs : list Event,
     (1 <= length (items (orderData (state (run evs)))))%nat)
  /\ (forall (st : OrderForm.State) (index : Z),
        length (items (orderData st)) = 1%nat -> removeItem index st = st)
  /\ (forall (st : OrderForm.State) (index : Z),
        (1 < length (items (orderData st)))%nat ->
        (0 <= index < Z.of_nat (length (items (orderData st))))%Z ->
        removeItem index st =
          setOrderData (with_items (delete (Z.to_nat index) (items (orderData st)))) st
        /\ length (items (orderData (removeItem index st))) =
             (length (items (orderData st)) - 1)%nat).
Proof.
  split; [|split].
  - intros evs. apply (form_ok_run evs).
  - intros st index Hone. unfold removeItem.
    destruct (decide _); [reflexivity | contradiction].
  - intros st index Hmore Hidx. unfold removeItem.
    destruct (decide _) as [Hone|_]; [lia|].
    rewrite splice1_in_range by exact Hidx. split; [reflexivity|].
    simpl. rewrite length_delete; [lia|].
    apply lookup_lt_is_Some. lia.
Qed.

Lemma removeItem_keeps_last_item_witness :
  removeItem 5 initial = initial
  /\ length (items (orderData (removeItem 1 (addItem (addItem initial))))) = 2%nat.
Proof.
  destruct removeItem_keeps_last_item as (_ & Hone & Hmore). split.
  - apply Hone. reflexivity.
  - destruct (Hmore (addItem (addItem initial)) 1%Z) as [_ H];
      [simpl; lia | simpl; lia | exact H].
Defined.

End OrderFormProperties.

(** ** The displayed total *)

Section TotalProperties.
Import Js IntegrationService Async OrderForm.
Local Open Scope Z_scope.

Lemma nearest_hundredths_spec (m : positive) (e : Z) :
  0 <= nearest_hundredths m e
  /\ nearest_to_hundredfold (nearest_hundredths m e) m e.
Proof.
  unfold nearest_hundredths, nearest_to_hundredfold.
  destruct (Z.leb_spec 0 e) as [He|He].
  - split; [|reflexivity].
    assert (0 < 2 ^ e) by (apply Z.pow_pos_nonneg; lia). nia.
  - assert (HD : 0 < 2 ^ (- e)) by (apply Z.pow_pos_nonneg; lia).
    set (D := 2 ^ (- e)) in *.
    pose proof (Z.div_mod (200 * Z.pos m + D) (2 * D) ltac:(lia)) as Hdm.
    pose proof (Z.mod_pos_bound (200 * Z.pos m + D) (2 * D) ltac:(lia)) as Hb.
    set (q := (200 * Z.pos m + D) / (2 * D)) in *.
    split; [apply Z.div_pos; lia | nia].
Qed.

Lemma digit_not_minus (c : ascii) (r : string) :
  is_digit c = true -> two_decimals (String c r) = int_then_frac (String c r).
Proof.
  destruct c as [[] [] [] [] [] [] [] []]; simpl; intros H;
    first [discriminate H | reflexivity].
Qed.

Lemma digits_only_uint (d : Decimal.uint) :
  digits_only (NilEmpty.string_of_uint d) = true.
Proof. induction d; simpl; auto. Qed.

Lemma digits_only_decimal (n : N) : digits_only (decimal n) = true.
Proof.
  unfold decimal, NilZero.string_of_uint.
  destruct (N.to_uint n) eqn:E; try reflexivity;
    rewrite <- E; apply digits_only_uint.
Qed.

Lemma pad3_digits (m : string) :
  digits_only m = true ->
  digits_only (pad3 m) = true /\ (3 <= String.length (pad3 m))%nat.
Proof.
  intros Hm. destruct m as [|c1 [|c2 [|c3 r]]]; simpl in *.
  - split; [reflexivity | lia].
  - split; [exact Hm | lia].
  - split; [exact Hm | lia].
  - split; [exact Hm | lia].
Qed.

Lemma append_cons (c : ascii) (a b : string) :
  String c a +:+ b = String c (a +:+ b).
Proof. reflexivity. Qed.

Lemma int_then_frac_cons (c : ascii) (t : string) :
  int_then_frac (String c t) =
  is_digit c &&
  match t with String "." f => frac_ok f | _ => int_then_frac t end.
Proof. reflexivity. Qed.

Lemma int_then_frac_digits (c c2 : ascii) (t : string) :
  is_digit c = true -> is_digit c2 = true ->
  int_then_frac (String c (String c2 t)) = int_then_frac (String c2 t).
Proof.
  intros Hc Hc2. rewrite int_then_frac_cons, Hc. simpl andb.
  destruct c2 as [[] [] [] [] [] [] [] []];
    first [discriminate Hc2 | reflexivity].
Qed.

(** Putting the point before the last two of at least three digits gives
    the two-decimals format. *)
Lemma point_before_last_two (m : string) :
  digits_only m = true ->
  (3 <= String.length m)%nat ->
  int_then_frac
    (String.substring 0 (String.length m - 2) m +:+ "." +:+
     String.substring (String.length m - 2) 2 m) = true.
Proof.
  induction m as [|c r IH]; simpl String.length; intros Hd Hlen; [lia|].
  simpl in Hd. apply andb_true_iff in Hd as [Hc Hr].
  destruct (decide (String.length r = 2%nat)) as [H2|H2].
  - destruct r as [|d1 [|d2 [|d3 r]]]; simpl in H2; try lia.
    simpl in Hr. simpl. rewrite Hc. simpl.
    apply andb_true_iff in Hr as [-> Hr]. apply andb_true_iff in Hr as [-> _].
    reflexivity.
  - replace (S (String.length r) - 2)%nat with (S (String.length r - 2)) by lia.
    simpl String.substring. specialize (IH Hr ltac:(lia)).
    destruct r as [|c2 r]; [simpl in Hlen; lia|].
    assert (Hc2 : is_digit c2 = true).
    { simpl in Hr. by apply andb_true_iff in Hr as [? _]. }
    replace (String.length (String c2 r) - 2)%nat
      with (S (String.length r - 2)) in * by (simpl in *; lia).
    cbn [String.substring] in *. rewrite !append_cons in *.
    rewrite (int_then_frac_digits c c2 _ Hc Hc2). exact IH.
Qed.

Lemma substring_all (s : string) :
  String.substring 0 (String.length s) s = s.
Proof. induction s as [|c r IH]; [reflexivity|]. simpl. by rewrite IH. Qed.

Lemma substring_split (s : string) (i : nat) :
  (i <= String.length s)%nat ->
  String.substring 0 i s +:+ String.substring i (String.length s - i) s = s.
Proof.
  revert i. induction s as [|c r IH]; intros i Hi.
  - destruct i; [reflexivity | simpl in Hi; lia].
  - destruct i as [|i].
    + rewrite Nat.sub_0_r, substring_all. reflexivity.
    + simpl in Hi. cbn [String.substring String.length Nat.sub].
      rewrite append_cons. f_equal. apply IH. lia.
Qed.

Lemma last_two_split (s : string) :
  (2 <= String.length s)%nat ->
  String.substring 0 (String.length s - 2) s +:+
  String.substring (String.length s - 2) 2 s = s.
Proof.
  intros H. pose proof (substring_split s (String.length s - 2) ltac:(lia)) as Hs.
  replace (String.length s - (String.length s - 2))%nat with 2%nat in Hs by lia.
  exact Hs.
Qed.

Lemma digits_only_substring (s : string) (i j : nat) :
  digits_only s = true -> digits_only (String.substring i j s) = true.
Proof.
  revert i j. induction s as [|c r IH]; intros i j Hs.
  - by destruct i, j.
  - simpl in Hs. apply andb_true_iff in Hs as [Hc Hr].
    destruct i as [|i]; [destruct j as [|j]|]; simpl; auto.
    rewrite Hc. simpl. by apply IH.
Qed.

Lemma unpoint_digits (a b : string) :
  digits_only a = true -> unpoint (a +:+ "." +:+ b) = a +:+ b.
Proof.
  induction a as [|c a IH]; intros Ha; [reflexivity|].
  simpl in Ha. apply andb_true_iff in Ha as [Hc Ha].
  rewrite !(append_cons c a). cbn [unpoint].
  destruct (Ascii.eqb_spec c ".") as [->|_]; [discriminate Hc|].
  by rewrite IH.
Qed.

Lemma decimal_parse (n : N) :
  NilEmpty.uint_of_string (decimal n) = Some (N.to_uint n).
Proof.
  unfold decimal, NilZero.string_of_uint.
  destruct (N.to_uint n) eqn:E; try (rewrite <- E; apply NilEmpty.usu).
  destruct n as [|p]; [discriminate E|].
  by destruct (Unsigned.to_uint_nonnil p).
Qed.

Lemma pad3_parse (m : string) (d : Decimal.uint) :
  NilEmpty.uint_of_string m = Some d ->
  N.of_uint <$> NilEmpty.uint_of_string (pad3 m) = Some (N.of_uint d).
Proof.
  intros Hm. unfold pad3.
  destruct (String.length m) as [|[|[|k]]];
    rewrite ?append_cons; change ("" +:+ m) with m;
    cbn [NilEmpty.uint_of_string]; rewrite Hm; reflexivity.
Qed.

(** The text [point2 n] reads back as [n] hundredths. *)
Lemma point2_value (n : N) : hundredths_of (point2 n) = Some n.
Proof.
  unfold hundredths_of, point2.
  destruct (pad3_digits (decimal n) (digits_only_decimal n)) as [Hd Hlen].
  set (m := pad3 (decimal n)) in *.
  rewrite unpoint_digits by (by apply digits_only_substring).
  rewrite last_two_split by lia. subst m.
  rewrite (pad3_parse _ _ (decimal_parse n)).
  by rewrite DecimalN.Unsigned.of_to.
Qed.

Lemma point2_format (n : N) : int_then_frac (point2 n) = true.
Proof.
  unfold point2.
  destruct (pad3_digits (decimal n) (digits_only_decimal n)) as [Hd Hlen].
  apply point_before_last_two; assumption.
Qed.

Lemma signed_point2_format (negative : bool) (n : N) :
  two_decimals (sign_text negative +:+ point2 n) = true.
Proof.
  pose proof (point2_format n) as H. destruct negative.
  - change (two_decimals (String "-" (point2 n)) = true). exact H.
  - change (two_decimals (point2 n) = true).
    destruct (point2 n) as [|c r]; [discriminate H|].
    rewrite digit_not_minus; [exact H|].
    rewrite int_then_frac_cons in H. by apply andb_true_iff in H as [? _].
Qed.

(** [toFixed(2)] on a value in the fixed range. *)
Lemma toFixed2_in_range (x : float) :
  in_fixed_range x = true ->
  exists n : Z,
    0 <= n
    /\ rounds_to_hundredths x n
    /\ toFixed2 x = Text (sign_text (is_negative x) +:+ point2 (Z.to_N n))
    /\ two_decimals (sign_text (is_negative x) +:+ point2 (Z.to_N n)) = true
    /\ hundredths_of (point2 (Z.to_N n)) = Some (Z.to_N n).
Proof.
  unfold in_fixed_range, rounds_to_hundredths, toFixed2, is_negative.
  destruct (Prim2SF x) as [sg| | |sg m e]; try discriminate.
  - intros _. exists 0. repeat split; reflexivity.
  - intros Hr. apply negb_true_iff in Hr. rewrite Hr.
    destruct (nearest_hundredths_spec m e) as [Hpos Hnear].
    exists (nearest_hundredths m e). repeat split; try assumption.
    + apply signed_point2_format.
    + apply point2_value.
Qed.

(** [reduce] adds the products from left to right. *)
Lemma order_sum_snoc (l : list Item) (it : Item) :
  order_sum (l ++ [it]) = (order_sum l + quantity it * price it)%float.
Proof. unfold order_sum. rewrite fold_left_app. reflexivity. Qed.

(** X28: the displayed total is [toFixed(2)] of the sum of
    the products quantity * price, added in double precision from left to
    right starting at 0.  Whenever that sum is zero, or finite with a
    magnitude below 10^21, the text is the sign of the sum followed by
    [point2 n], where [n] is the magnitude of the sum rounded to the
    nearest number of hundredths (half away from zero on the exact binary
    value): a text with exactly two decimal places that reads back as [n]
    hundredths.  The single item of quantity 2 and price 10.99 shows
    "21.98". *)
Theorem calculateTotal_two_decimals :
  (forall st : OrderForm.State,
     in_fixed_range (order_sum (items (orderData st))) = true ->
     exists n : Z,
       0 <= n
       /\ rounds_to_hundredths (order_sum (items (orderData st))) n
       /\ calculateTotal st =
            Text (sign_text (is_negative (order_sum (items (orderData st))))
                  +:+ point2 (Z.to_N n))
       /\ two_decimals
            (sign_text (is_negative (order_sum (items (orderData st))))
             +:+ point2 (Z.to_N n)) = true
       /\ hundredths_of (point2 (Z.to_N n)) = Some (Z.to_N n))
  /\ order_sum [] = 0%float
  /\ (forall l it,
        order_sum (l ++ [it]) = (order_sum l + quantity it * price it)%float)
  /\ (forall name : string,
        calculateTotal (with_order_items [mkItem name 2 10.99]) = Text "21.98").
Proof.
  split; [|split; [|split]].
  - intros st Hr. apply toFixed2_in_range, Hr.
  - reflexivity.
  - apply order_sum_snoc.
  - intros name. vm_compute. reflexivity.
Qed.

Lemma calculateTotal_two_decimals_witness :
  exists n : Z,
    0 <= n
    /\ rounds_to_hundredths (order_sum (items (orderData three_slices))) n
    /\ calculateTotal three_slices =
         Text (sign_text (is_negative (order_sum (items (orderData three_slices))))
               +:+ point2 (Z.to_N n))
    /\ two_decimals
         (sign_text (is_negative (order_sum (items (orderData three_slices))))
          +:+ point2 (Z.to_N n)) = true
    /\ hundredths_of (point2 (Z.to_N n)) = Some (Z.to_N n).
Proof.
  destruct calculateTotal_two_decimals as [Hrange _].
  apply (Hrange three_slices). vm_compute. reflexivity.
Defined.

(** C7: the total of one item of quantity 1 and price 1e21 is not
    written with two decimal places, as the specification and the comment of
    [calculateTotal] have it: [toFixed] hands a magnitude of 10^21 to
    [Number::toString], which writes it as 1e+21. *)
Theorem calculateTotal_large_total :
  calculateTotal (with_order_items [mkItem "Pizza" 1 1e21])
    = NumberToString "" 1e21
  /\ ~ (exists s, calculateTotal (with_order_items [mkItem "Pizza" 1 1e21]) = Text s
                  /\ two_decimals s = true).
Proof.
  assert (H : calculateTotal (with_order_items [mkItem "Pizza" 1 1e21])
              = NumberToString "" 1e21) by (vm_compute; reflexivity).
  split; [exact H|]. intros (s & Hs & _). rewrite H in Hs. discriminate Hs.
Qed.

End TotalProperties.

(** ** The connection manager: selecting an adapter *)

Section AdapterSelection.
Import Js IntegrationService Async IntegrationsPage.

Lemma find_unique_id (l : list Adapter.t) (a : Adapter.t) :
  a ∈ l -> NoDup (Adapter.id <$> l) ->
  find (fun x => bool_decide (Adapter.id x = Adapter.id a)) l = Some a.
Proof.
  induction l as [|x l IH]; intros Hin Hnd; [by apply elem_of_nil in Hin|].
  rewrite fmap_cons in Hnd. apply NoDup_cons in Hnd as [Hx Hnd].
  simpl. apply elem_of_cons in Hin as [->|Hin].
  - rewrite bool_decide_eq_true_2; reflexivity.
  - rewrite bool_decide_eq_false_2; [by apply IH|].
    intros Heq. apply Hx. rewrite Heq. by apply list_elem_of_fmap_2.
Qed.

Lemma find_no_match (l : list Adapter.t) (id : string) :
  (forall a, a ∈ l -> Adapter.id a <> id) ->
  find (fun x => bool_decide (Adapter.id x = id)) l = None.
Proof.
  induction l as [|x l IH]; intros Hno; [reflexivity|]. simpl.
  rewrite bool_decide_eq_false_2 by (apply Hno; left).
  apply IH. intros a Ha. apply Hno. by right.
Qed.

Lemma fold_blank_lookup (fields : list CredentialField.t)
    (acc : gmap string string) (k : string) :
  fold_left (fun acc field => assign (CredentialField.name field) "" acc) fields acc !! k
  = if decide (k ∈ filter (fun n => n <> "__proto__") (CredentialField.name <$> fields))
    then Some "" else acc !! k.
Proof.
  revert acc. induction fields as [|f fields IH]; intros acc.
  - rewrite decide_False; [reflexivity | apply not_elem_of_nil].
  - rewrite fmap_cons. cbn [fold_left]. rewrite IH, filter_cons. unfold assign.
    destruct (decide (CredentialField.name f = "__proto__")) as [Hp|Hp];
      destruct (decide (CredentialField.name f <> "__proto__")) as [Hq|Hq];
      try contradiction.
    + reflexivity.
    + destruct (decide (k ∈ filter (fun n => n <> "__proto__")
                              (CredentialField.name <$> fields))) as [Hin|Hout].
      * rewrite decide_True; [reflexivity | by right].
      * destruct (decide (k = CredentialField.name f)) as [->|Hne].
        -- rewrite decide_True by left. apply lookup_insert_eq.
        -- rewrite decide_False; [by apply lookup_insert_ne|].
           intros [?|?]%elem_of_cons; contradiction.
Qed.

Lemma initialCredentials_lookup (fields : list CredentialField.t) (k : string) :
  initialCredentials fields !! k
  = if decide (k ∈ filter (fun n => n <> "__proto__") (CredentialField.name <$> fields))
    then Some "" else None.
Proof. unfold initialCredentials. rewrite fold_blank_lookup. reflexivity. Qed.

Lemma initialCredentials_dom (fields : list CredentialField.t) :
  dom (initialCredentials fields)
  = (list_to_set (filter (fun n => n <> "__proto__") (CredentialField.name <$> fields))
      : gset string).
Proof.
  apply set_eq. intros k.
  rewrite elem_of_dom, initialCredentials_lookup, elem_of_list_to_set.
  destruct (decide _) as [H|H]; split; intros H'; done.
Qed.

(** X29: selecting an adapter of the fetched list (whose ids are unique)
    selects it and resets the credentials to the map whose keys are the
    names of its required credential fields other than "__proto__", each
    mapped to the empty string, and nothing else; with N fields of
    distinct names, none of them "__proto__", that is N entries.
    Selecting a value that is the id of no adapter in the list, as the
    placeholder's empty value is, leaves the credentials empty. *)
Theorem handleAdapterChange_own_fields (st : State) :
  (forall a : Adapter.t,
     a ∈ adapters st ->
     NoDup (Adapter.id <$> adapters st) ->
     let st' := handleAdapterChange (Adapter.id a) st in
     selectedAdapter st' = Adapter.id a
     /\ dom (credentials st') = (list_to_set (own_names a) : gset string)
     /\ (forall k, k ∈ own_names a -> credentials st' !! k = Some "")
     /\ (forall k, k ∉ own_names a -> credentials st' !! k = None)
     /\ credentials st' !! "__proto__" = None
     /\ (NoDup (field_names a) -> "__proto__" ∉ field_names a ->
         own_names a = field_names a
         /\ size (credentials st') = length (Adapter.requiredCredentials a)))
  /\ (forall id : string,
        (forall a, a ∈ adapters st -> Adapter.id a <> id) ->
        selectedAdapter (handleAdapterChange id st) = id
        /\ credentials (handleAdapterChange id st) = ∅).
Proof.
  split.
  - intros a Hin Hnd. simpl. unfold handleAdapterChange.
    rewrite (find_unique_id _ _ Hin Hnd). simpl.
    split; [reflexivity|]. split; [apply initialCredentials_dom|].
    split; [|split; [|split]].
    + intros k Hk. rewrite initialCredentials_lookup. by rewrite decide_True.
    + intros k Hk. rewrite initialCredentials_lookup. by rewrite decide_False.
    + rewrite initialCredentials_lookup, decide_False; [done|].
      intros [Hne _]%list_elem_of_filter. by apply Hne.
    + intros Hnames Hproto.
      assert (Hown : own_names a = field_names a).
      { unfold own_names. clear Hnames. induction (field_names a) as [|n l IH];
          [reflexivity|].
        apply not_elem_of_cons in Hproto as [Hne Hl].
        rewrite filter_cons, decide_True by congruence. by rewrite IH. }
      split; [exact Hown|].
      rewrite <- size_dom, initialCredentials_dom.
      change (filter _ (CredentialField.name <$> Adapter.requiredCredentials a))
        with (own_names a).
      rewrite Hown. unfold field_names in *.
      rewrite size_list_to_set by exact Hnames. by rewrite length_fmap.
  - intros id Hno. unfold handleAdapterChange.
    rewrite (find_no_match _ _ Hno). simpl. split; reflexivity.
Qed.

Lemma handleAdapterChange_own_fields_witness :
  size (credentials (handleAdapterChange "square" loaded)) = 2%nat
  /\ credentials (handleAdapterChange "" loaded) = ∅.
Proof.
  destruct (handleAdapterChange_own_fields loaded) as [Hsel Hnone]. split.
  - assert (Hin : square ∈ adapters loaded) by (simpl; left).
    assert (Hnd : NoDup (Adapter.id <$> adapters loaded)).
    { simpl. apply NoDup_cons. split; [|apply NoDup_singleton].
      intros H%list_elem_of_singleton. discriminate H. }
    destruct (Hsel square Hin Hnd) as (_ & _ & _ & _ & _ & Hsize).
    apply Hsize.
    + simpl. apply NoDup_cons. split; [|apply NoDup_singleton].
      intros H%list_elem_of_singleton. discriminate H.
    + simpl. intros H. apply elem_of_cons in H as [H|H]; [discriminate H|].
      apply list_elem_of_singleton in H. discriminate H.
  - apply Hnone. simpl. intros a Ha.
    apply elem_of_cons in Ha as [->|Ha]; [discriminate|].
    apply list_elem_of_singleton in Ha as ->. discriminate.
Defined.

(** C5: the adapter [gateway] of the fetched list has two required
    credential fields, of distinct names; selecting it gives credentials
    with one key, not two: the assignment to the field name "__proto__"
    creates no entry. *)
Theorem handleAdapterChange_proto_field :
  let st' := handleAdapterChange "gateway" loaded_gateway in
  gateway ∈ adapters loaded_gateway
  /\ NoDup (Adapter.id <$> adapters loaded_gateway)
  /\ length (Adapter.requiredCredentials gateway) = 2
  /\ NoDup (field_names gateway)
  /\ selectedAdapter st' = "gateway"
  /\ size (credentials st') = 1
  /\ credentials st' !! "apiKey" = Some ""
  /\ credentials st' !! "__proto__" = None.
Proof.
  assert (Hne : forall a b : string, a <> b -> NoDup [a; b]).
  { intros a b Hab. apply NoDup_cons. split; [|apply NoDup_singleton].
    by intros ->%list_elem_of_singleton. }
  split; [right; left|]. split; [by apply Hne|]. split; [reflexivity|].
  split; [by apply Hne|]. split; [reflexivity|].
  split; [|split].
  - rewrite <- size_dom. unfold handleAdapterChange. simpl.
    rewrite initialCredentials_dom. vm_compute. reflexivity.
  - unfold handleAdapterChange. simpl.
    rewrite initialCredentials_lookup. reflexivity.
  - unfold handleAdapterChange. simpl.
    rewrite initialCredentials_lookup. reflexivity.
Qed.

End AdapterSelection.

(** ** The connection manager: calls and their continuations *)

Section PageContinuations.
Import Js IntegrationService Async IntegrationsPage.

(** Running a handler up to its first suspension. *)
Lemma exec_fetchData (s : IntegrationsPage.Sys) :
  exec fetchData s =
    suspend (WaitAll2 (next_id s) (S (next_id s)) None None load_k)
      (invoke getConnections (invoke getAdapters (with_state (setLoading true) s))).
Proof. reflexivity. Qed.

Lemma exec_handleConnect (sel : string) (creds : gmap string string)
    (s : IntegrationsPage.Sys) :
  exec (handleConnect sel creds) s =
    if truthy_string sel then
      suspend (WaitOne (next_id s) (connect_k sel))
        (invoke (connect sel creds)
           (with_state (setFormError None) (with_state (setIsSubmitting true) s)))
    else with_state (setFormError (Some (JStr "Please select an adapter"))) s.
Proof. unfold handleConnect. destruct (truthy_string sel); reflexivity. Qed.

Lemma exec_handleDisconnect (cid : string) (confirmed : bool)
    (s : IntegrationsPage.Sys) :
  exec (handleDisconnect cid confirmed) s =
    if confirmed then
      suspend (WaitOne (next_id s) disconnect_k)
        (invoke (disconnect cid) (with_state (setLoading true) s))
    else s.
Proof. destruct confirmed; reflexivity. Qed.

Lemma exec_handleRegisterWebhook (path : string) (opts : WebhookOptions)
    (s : IntegrationsPage.Sys) :
  exec (handleRegisterWebhook path opts) s =
    if truthy_string path then
      suspend (WaitOne (next_id s) (register_k path))
        (invoke (registerWebhook path (options_object opts))
           (with_state (setWebhookError None)
              (with_state (setIsRegisteringWebhook true) s)))
    else with_state (setWebhookError (Some (JStr "Please enter a webhook path"))) s.
Proof. unfold handleRegisterWebhook. destruct (truthy_string path); reflexivity. Qed.

Lemma connect_k_fulfilled (sel : string) (v : Payload) :
  connect_k sel (Fulfilled v) = Await getConnections (connect_refresh_k sel).
Proof. reflexivity. Qed.

Lemma disconnect_k_fulfilled (v : Payload) :
  disconnect_k (Fulfilled v) = Await getConnections disconnect_refresh_k.
Proof. reflexivity. Qed.

End PageContinuations.

(** ** The connection manager: what holds in every session *)

Section PageInvariant.
Import Js IntegrationService Async IntegrationsPage.

Lemma known_waiter_mono (lg l : list Entry) (w : PWaiter) :
  known_waiter lg w -> known_waiter (lg ++ l) w.
Proof.
  destruct w as [id k|id1 id2 g1 g2 k]; simpl; [|done].
  intros (Hid & op & Hin & Hk). split; [done|].
  exists op. split; [|done]. apply elem_of_app. by left.
Qed.

Lemma invoked_app_silent (lg l : list Entry) id op :
  Forall silent l -> Invoked id op ∈ lg ++ l -> Invoked id op ∈ lg.
Proof.
  intros Hl [H|H]%elem_of_app; [done|]. by destruct (silent_invoked l id op Hl).
Qed.

Lemma invoked_app_settled (lg : list Entry) c o id op :
  Invoked id op ∈ lg ++ [Settled c o] -> Invoked id op ∈ lg.
Proof.
  intros [H|H]%elem_of_app; [done|].
  apply list_elem_of_singleton in H. discriminate H.
Qed.

(** Entries that are not calls leave the invariant alone. *)
Lemma page_inv_silent ws fl n lg l :
  (forall id op, Invoked id op ∈ lg ++ l -> Invoked id op ∈ lg) ->
  (forall id o, Settled id o ∈ l -> id < n) ->
  page_inv_of ws fl n lg -> page_inv_of ws fl n (lg ++ l).
Proof.
  intros Hl Hs [Hf Hu [H0 H1] Hw Hp Hff Hsf]. split.
  - intros id op Hin. eapply Hf, Hl, Hin.
  - intros id op op' Hin Hin'. eapply Hu; eapply Hl; eassumption.
  - split; apply elem_of_app; by left.
  - eapply Forall_impl; [exact Hw|]. intros w. apply known_waiter_mono.
  - exact Hp.
  - exact Hff.
  - intros id o [Hin|Hin]%elem_of_app; [by eapply Hsf | by eapply Hs].
Qed.

Lemma page_inv_quiet (p : IntegrationsPage.Prog) (s : IntegrationsPage.Sys) :
  quiet p -> page_inv s -> page_inv (exec p s).
Proof.
  intros Hq Hinv. unfold page_inv.
  destruct (exec_quiet p s Hq) as (-> & -> & -> & l & -> & Hl).
  apply page_inv_silent; [| |exact Hinv].
  - intros id op. by apply invoked_app_silent.
  - intros id o Hin. by destruct (silent_settled l id o Hl).
Qed.

(** Issuing a call and suspending on it with the matching continuation. *)
Lemma page_inv_call ws fl n lg op k :
  cont_matches op k ->
  page_inv_of ws fl n lg ->
  page_inv_of (ws ++ [WaitOne n k]) (fl ++ [n]) (S n) (lg ++ [Invoked n op]).
Proof.
  intros Hk [Hf Hu [H0 H1] Hw Hp Hff Hsf].
  assert (Hn : 2 <= n) by (specialize (Hf _ _ H1); lia).
  assert (Hnew : forall id op',
    Invoked id op' ∈ lg ++ [Invoked n op] ->
    Invoked id op' ∈ lg \/ (id = n /\ op' = op)).
  { intros id op' [H|H]%elem_of_app; [by left|].
    apply list_elem_of_singleton in H. injection H as -> ->. by right. }
  split.
  - intros id op' [H|[-> _]]%Hnew; [specialize (Hf _ _ H)|]; lia.
  - intros id op1 op2 [H1'|[-> ->]]%Hnew [H2'|[E ->]]%Hnew.
    + by eapply Hu.
    + subst id. specialize (Hf _ _ H1'). lia.
    + specialize (Hf _ _ H2'). lia.
    + reflexivity.
  - split; apply elem_of_app; by left.
  - apply Forall_app. split.
    + eapply Forall_impl; [exact Hw|]. intros w. apply known_waiter_mono.
    + apply Forall_singleton. simpl. split; [exact Hn|].
      exists op. split; [|exact Hk]. apply elem_of_app. right. by left.
  - intros id [H|H]%elem_of_app Hid.
    + destruct (Hp id H Hid) as [k' Hk']. exists k'. apply elem_of_app. by left.
    + apply list_elem_of_singleton in H as ->. exists k.
      apply elem_of_app. right. by left.
  - intros id [H|H]%elem_of_app; [specialize (Hff _ H); lia|].
    apply list_elem_of_singleton in H as ->. lia.
  - intros id o [H|H]%elem_of_app; [specialize (Hsf _ _ H); lia|].
    apply list_elem_of_singleton in H. discriminate H.
Qed.

Lemma page_inv_mount : page_inv mount.
Proof.
  split; simpl.
  - intros id op H. repeat (apply elem_of_cons in H as [H|H]; [injection H as -> _; lia|]).
    by apply elem_of_nil in H.
  - intros id op op' H H'.
    repeat (apply elem_of_cons in H as [H|H]);
    repeat (apply elem_of_cons in H' as [H'|H']);
    try (by apply elem_of_nil in H); try (by apply elem_of_nil in H');
    congruence.
  - split; [by left | right; by left].
  - apply Forall_singleton. simpl. done.
  - intros id H Hid.
    repeat (apply elem_of_cons in H as [->|H]; [lia|]). by apply elem_of_nil in H.
  - intros id H.
    repeat (apply elem_of_cons in H as [->|H]; [lia|]). by apply elem_of_nil in H.
  - intros id o H.
    repeat (apply elem_of_cons in H as [H|H]; [discriminate H|]).
    by apply elem_of_nil in H.
Qed.

Lemma settle_resumes (s : IntegrationsPage.Sys) id o :
  page_inv s -> id ∈ in_flight s ->
  exists ws p,
    settle id o s = exec p (settled_pre s id o ws)
    /\ page_inv (settled_pre s id o ws)
    /\ (2 <= id ->
        exists op k, Invoked id op ∈ log s /\ cont_matches op k /\ p = k o)
    /\ (id < 2 -> p = Ret \/ exists r, p = load_k r).
Proof.
  intros Hinv Hin. rewrite settle_in_flight by exact Hin.
  pose proof Hinv as [Hf Hu [H0 H1] Hw Hp Hff Hsf].
  assert (Hbase : forall ws,
    Forall (known_waiter (log s)) ws ->
    (forall id', id' ∈ in_flight s -> id' <> id -> 2 <= id' ->
       exists k, WaitOne id' k ∈ ws) ->
    page_inv (settled_pre s id o ws)).
  { intros ws Hws Hpend. unfold page_inv, settled_pre; simpl.
    apply page_inv_silent; [intros i op; apply invoked_app_settled| |].
    - intros i o' Hi. apply list_elem_of_singleton in Hi. injection Hi as -> _.
      by apply Hff.
    - split; try done.
      + intros id' [Hne Hid']%list_elem_of_filter Hge. by apply Hpend.
      + intros id' [Hne Hid']%list_elem_of_filter. by apply Hff. }
  destruct (resume_spec id o (waiters s))
    as [[-> Hnone] | (l1 & w & l2 & rest & p & Hsplit & Hl1 & Hreact & ->)]; simpl.
  - exists (waiters s), Ret. split; [reflexivity|]. split; [|split].
    + apply Hbase; [exact Hw|]. intros id' Hid' _ Hge. by apply Hp.
    + intros Hge. destruct (Hp id Hin Hge) as [k Hk].
      rewrite Forall_forall in Hnone. specialize (Hnone _ Hk). simpl in Hnone.
      by rewrite decide_True in Hnone.
    + intros _. by left.
  - exists (l1 ++ option_list rest ++ l2), p. split; [reflexivity|].
    rewrite Hsplit in Hw. apply Forall_app in Hw as [Hw1 Hw2].
    apply Forall_cons in Hw2 as [Hww Hw2].
    destruct (react_Some _ _ _ _ _ Hreact)
      as [(k & -> & -> & ->)
         | (id1 & id2 & g1 & g2 & k & -> & Hid & Hrest)].
    + destruct Hww as (Hge & op & Hop & Hk). split; [|split].
      * apply Hbase; [apply Forall_app; by split|].
        intros id' Hid' Hne Hge'. destruct (Hp id' Hid' Hge') as [k' Hk'].
        exists k'. rewrite Hsplit in Hk'. simpl.
        apply elem_of_app in Hk' as [?|Hk']; [apply elem_of_app; by left|].
        apply elem_of_cons in Hk' as [Heq|?]; [congruence|].
        apply elem_of_app; by right.
      * intros _. by exists op, k.
      * intros Hlt. lia.
    + destruct Hww as (-> & -> & ->).
      assert (Hrest' : Forall (known_waiter (log s)) (option_list rest)).
      { destruct Hrest as [[-> _] | (g1' & g2' & -> & _)]; simpl;
          [constructor | by apply Forall_singleton]. }
      split; [|split].
      * apply Hbase; [apply Forall_app; split; [done|]; apply Forall_app; by split|].
        intros id' Hid' Hne Hge'. destruct (Hp id' Hid' Hge') as [k' Hk'].
        exists k'. rewrite Hsplit in Hk'.
        apply elem_of_app in Hk' as [?|Hk']; [apply elem_of_app; by left|].
        apply elem_of_cons in Hk' as [Heq|?]; [discriminate Heq|].
        apply elem_of_app; right. apply elem_of_app; by right.
      * intros Hge. lia.
      * intros _. destruct Hrest as [[_ [r ->]] | (g1' & g2' & _ & ->)];
          [right; by exists r | by left].
Qed.

(** Every continuation either makes no call, or is the continuation of a
    fulfilled [connect] or [disconnect], which issues the one refresh. *)
Lemma load_k_quiet r : quiet (load_k r).
Proof. destruct r as [[v1 v2]|e]; repeat constructor. Qed.

Lemma cont_quiet op k o :
  cont_matches op k ->
  (forall v, o = Fulfilled v -> is_mutation op = false) ->
  quiet (k o).
Proof.
  intros Hk Ho.
  destruct op; simpl in Hk; try done.
  - destruct Hk as [[sel ->] | ->]; destruct o; repeat constructor.
  - subst k. destruct o as [v|e]; [by specialize (Ho v eq_refl)|]. repeat constructor.
  - subst k. destruct o as [v|e]; [by specialize (Ho v eq_refl)|]. repeat constructor.
  - subst k. destruct o; repeat constructor.
Qed.

Lemma cont_refresh op k v :
  cont_matches op k ->
  is_mutation op = true ->
  exists kr, k (Fulfilled v) = Await getConnections kr
             /\ cont_matches getConnections kr.
Proof.
  intros Hk Hop. destruct op as [| |sel creds|cid| | |]; simpl in Hk; try done; subst k.
  - exists (connect_refresh_k sel). split; [reflexivity|]. left. by eexists.
  - exists disconnect_refresh_k. split; [reflexivity|]. by right.
Qed.

Lemma page_inv_settle (s : IntegrationsPage.Sys) id o :
  page_inv s -> page_inv (settle id o s).
Proof.
  intros Hinv.
  destruct (decide (id ∈ in_flight s)) as [Hin|Hout];
    [|by rewrite settle_not_in_flight].
  destruct (settle_resumes s id o Hinv Hin) as (ws & p & -> & Hpre & Hge & Hlt).
  destruct (decide (2 <= id)) as [H2|H2].
  - destruct (Hge H2) as (op & k & Hop & Hk & ->).
    destruct o as [v|e].
    + destruct (is_mutation op) eqn:Hmut.
      * destruct (cont_refresh op k v Hk Hmut) as (kr & -> & Hkr).
        simpl. apply page_inv_call; [exact Hkr | exact Hpre].
      * apply page_inv_quiet; [|exact Hpre].
        apply (cont_quiet op k _ Hk). by intros v' _.
    + apply page_inv_quiet; [|exact Hpre].
      apply (cont_quiet op k _ Hk). intros v' Hv. discriminate Hv.
  - destruct (Hlt ltac:(lia)) as [-> | [r ->]]; [exact Hpre|].
    apply page_inv_quiet; [apply load_k_quiet | exact Hpre].
Qed.

Lemma page_inv_with_state f (s : IntegrationsPage.Sys) :
  page_inv s -> page_inv (with_state f s).
Proof. done. Qed.

Lemma page_inv_step (s : IntegrationsPage.Sys) (ev : Event) :
  page_inv s -> page_inv (step s ev).
Proof.
  intros Hinv. destruct ev; simpl; try exact Hinv.
  - rewrite exec_handleConnect. destruct (truthy_string _); [|exact Hinv].
    by apply page_inv_call.
  - rewrite exec_handleDisconnect. destruct confirmed; [|exact Hinv].
    by apply page_inv_call.
  - rewrite exec_handleRegisterWebhook. destruct (truthy_string _); [|exact Hinv].
    by apply page_inv_call.
  - by destruct (formSuccess (state s)).
  - by destruct (webhookSuccess (state s)).
  - by apply page_inv_settle.
Qed.

Lemma page_inv_run (evs : list Event) : page_inv (run evs).
Proof.
  unfold run. induction evs as [|ev evs IH] using rev_ind; simpl.
  - apply page_inv_mount.
  - rewrite fold_left_app. simpl. apply page_inv_step, IH.
Qed.

End PageInvariant.

(** ** The connection manager: a failed connect *)

Section ConnectFailure.
Import Js IntegrationService Async IntegrationsPage.

Lemma call_id_ge_2 (s : IntegrationsPage.Sys) (c : nat) (op : Call) :
  page_inv s -> Invoked c op ∈ log s -> is_mutation op = true -> 2 <= c.
Proof.
  intros [_ Hu [H0 H1] _ _ _ _] Hc Hop.
  destruct c as [|[|c]]; [| |lia].
  - rewrite (Hu _ _ _ Hc H0) in Hop. discriminate Hop.
  - rewrite (Hu _ _ _ Hc H1) in Hop. discriminate Hop.
Qed.

(** Settling an in-flight [connect] resumes [handleConnect]. *)
Lemma settle_connect (s : IntegrationsPage.Sys) c sel creds o :
  page_inv s -> c ∈ in_flight s -> Invoked c (connect sel creds) ∈ log s ->
  exists ws,
    settle c o s = exec (connect_k sel o) (settled_pre s c o ws)
    /\ page_inv (settled_pre s c o ws).
Proof.
  intros Hinv Hin Hc.
  destruct (settle_resumes s c o Hinv Hin) as (ws & p & Hs & Hpre & Hge & _).
  destruct (Hge (call_id_ge_2 s c _ Hinv Hc eq_refl)) as (op & k & Hop & Hk & ->).
  destruct Hinv as [_ Hu _ _ _ _ _]. rewrite (Hu _ _ _ Hop Hc) in Hk. simpl in Hk.
  subst k. by exists ws.
Qed.

(** C9 (as amended): when a [connect] call of any session is rejected,
    the form error becomes [err.response?.data?.message] if that value is
    truthy and the generic text otherwise.  So a message that is a
    non-empty string is shown exactly; the generic text is shown when there
    is no message or the message is falsy (such as the empty string).  The
    selected adapter and the entered credentials stay as they are. *)
Theorem connect_failure_message (evs : list Event) (c : nat) (sel : string)
    (creds : gmap string string) (err : HttpError) :
  c ∈ in_flight (run evs) ->
  Invoked c (connect sel creds) ∈ log (run evs) ->
  let s' := step (run evs) (Settle c (Rejected err)) in
  formError (state s') = Some (or_else (error_message err) (JStr connect_failed))
  /\ (forall msg : string,
        error_message err = Some (JStr msg) -> msg <> "" ->
        form_error_banner (state s') = Some (JStr msg))
  /\ (error_message err = None ->
        form_error_banner (state s') = Some (JStr connect_failed))
  /\ (forall v : json,
        error_message err = Some v -> truthy v = false ->
        form_error_banner (state s') = Some (JStr connect_failed))
  /\ selectedAdapter (state s') = selectedAdapter (state (run evs))
  /\ credentials (state s') = credentials (state (run evs)).
Proof.
  intros Hin Hc. simpl.
  destruct (settle_connect _ c sel creds (Rejected err) (page_inv_run evs) Hin Hc)
    as (ws & -> & _).
  simpl. unfold form_error_banner. simpl.
  split; [reflexivity|]. split; [|split; [|split; [|split; reflexivity]]].
  - intros msg -> Hmsg. simpl. destruct msg; [contradiction | reflexivity].
  - intros ->. reflexivity.
  - intros v -> Hv. simpl. rewrite Hv. reflexivity.
Qed.

Lemma connect_failure_message_witness :
  form_error_banner
    (state (step (run connecting) (Settle 2 (Rejected invalid_key))))
  = Some (JStr "Invalid API key").
Proof.
  assert (Hin : 2 ∈ in_flight (run connecting)) by (vm_compute; left).
  assert (Hc : Invoked 2 (connect "square" typed_credentials)
               ∈ log (run connecting)).
  { vm_compute. do 4 right. left. }
  destruct (connect_failure_message connecting 2 _ _ invalid_key Hin Hc)
    as (_ & Hmsg & _).
  apply Hmsg; [vm_compute; reflexivity | discriminate].
Defined.

(** A rejection whose body is [{message: ""}] carries a message field,
    yet the user sees the generic text. *)
Lemma connect_failure_empty_message :
  error_message empty_message = Some (JStr "")
  /\ form_error_banner
       (state (step (run connecting) (Settle 2 (Rejected empty_message))))
     = Some (JStr connect_failed).
Proof. split; vm_compute; reflexivity. Qed.

End ConnectFailure.

(** ** The connection manager: the initial load *)

Section InitialLoad.
Import Js IntegrationService Async IntegrationsPage.

Lemma load_phase_mount : load_phase mount.
Proof. by apply both_pending. Qed.

Lemma not_in_flight_0 (s : IntegrationsPage.Sys) o :
  0 ∉ in_flight s -> settle 0 o s = s.
Proof. apply settle_not_in_flight. Qed.

Lemma load_phase_settle (s : IntegrationsPage.Sys) id o :
  load_phase s -> load_phase (settle id o s).
Proof.
  intros [Hw Hf Hl Hs | v Hw Hf Hl Hs | v Hw Hf Hl Hs | Hw Hld Her Hrej
         | Hw Hf Hld Her Hboth Hno].
  - (* both pending *)
    destruct id as [|[|id]].
    + rewrite settle_in_flight by (rewrite Hf; left).
      rewrite Hw. simpl. destruct o as [v|e]; simpl.
      * eapply adapters_arrived; simpl; rewrite ?Hl, ?Hf, ?Hs; reflexivity.
      * apply load_aborted; simpl; try reflexivity.
        exists 0, e. split; [lia|]. rewrite Hl. solve_in.
    + rewrite settle_in_flight by (rewrite Hf; right; left).
      rewrite Hw. simpl. destruct o as [v|e]; simpl.
      * eapply connections_arrived; simpl; rewrite ?Hl, ?Hf, ?Hs; reflexivity.
      * apply load_aborted; simpl; try reflexivity.
        exists 1, e. split; [lia|]. rewrite Hl. solve_in.
    + rewrite settle_not_in_flight; [by apply both_pending|].
      rewrite Hf. intros Hin. in_list Hin; discriminate Hin.
  - (* the adapters have arrived *)
    destruct (decide (id = 1)) as [->|Hne].
    + rewrite settle_in_flight by (rewrite Hf; left).
      rewrite Hw. simpl. destruct o as [v1|e]; simpl.
      * apply load_complete; simpl; rewrite ?Hf; try reflexivity.
        -- exists v, v1. rewrite Hl. split; solve_in.
        -- intros (i & e & _ & Hin). rewrite Hl in Hin. unfold loading_log in Hin.
           in_list Hin; discriminate Hin.
      * apply load_aborted; simpl; try reflexivity.
        exists 1, e. split; [lia|]. rewrite Hl. solve_in.
    + rewrite settle_not_in_flight; [by eapply adapters_arrived|].
      rewrite Hf. intros Hin. in_list Hin; contradiction.
  - (* the connections have arrived *)
    destruct (decide (id = 0)) as [->|Hne].
    + rewrite settle_in_flight by (rewrite Hf; left).
      rewrite Hw. simpl. destruct o as [v0|e]; simpl.
      * apply load_complete; simpl; rewrite ?Hf; try reflexivity.
        -- exists v0, v. rewrite Hl. split; solve_in.
        -- intros (i & e & _ & Hin). rewrite Hl in Hin. unfold loading_log in Hin.
           in_list Hin; discriminate Hin.
      * apply load_aborted; simpl; try reflexivity.
        exists 0, e. split; [lia|]. rewrite Hl. solve_in.
    + rewrite settle_not_in_flight; [by eapply connections_arrived|].
      rewrite Hf. intros Hin. in_list Hin; contradiction.
  - (* aborted: a late answer resumes nobody *)
    destruct (decide (id ∈ in_flight s)) as [Hin|Hout];
      [|rewrite settle_not_in_flight by done; by apply load_aborted].
    rewrite settle_in_flight by done. rewrite Hw. simpl.
    apply load_aborted; simpl; try done.
    destruct Hrej as (i & e & Hi & Hin'). exists i, e. split; [done|].
    apply elem_of_app. by left.
  - rewrite settle_not_in_flight; [by apply load_complete|].
    rewrite Hf. apply not_elem_of_nil.
Qed.

Lemma load_phase_run (outs : list (nat * Outcome HttpError Payload)) :
  load_phase (run (settlings outs)).
Proof.
  unfold run, settlings. induction outs as [|[id o] outs IH] using rev_ind; simpl.
  - apply load_phase_mount.
  - rewrite fmap_app, fold_left_app. simpl. apply load_phase_settle, IH.
Qed.

Lemma still_loading (s : IntegrationsPage.Sys) :
  state s = setLoading true initial ->
  (log s = loading_log
   \/ exists i v, log s = loading_log ++ [Settled i (Fulfilled v)]) ->
  loading (state s) = true
  /\ shows_spinner (state s) = true
  /\ error (state s) = None
  /\ ~ some_rejected (log s)
  /\ ~ both_fulfilled (log s).
Proof.
  intros -> Hl. repeat split.
  - intros (i & e & _ & Hin).
    destruct Hl as [Hl | (j & v & Hl)]; rewrite Hl in Hin; in_list Hin;
      discriminate Hin.
  - intros (v0 & v1 & H0 & H1).
    destruct Hl as [Hl | (j & v & Hl)]; rewrite Hl in H0, H1;
      in_list H0; try discriminate H0; in_list H1; try discriminate H1.
    congruence.
Qed.

(** C2 (as amended): during activation the page stops loading exactly
    when one of the two fetches has failed or both have succeeded; it does
    not wait for the other fetch once one has failed.  While it loads it
    shows the spinner.  A failure of either fetch leaves the one generic
    message as the error, whichever fetch it was and whatever it said;
    without a failure there is no error. *)
Theorem load_leaves_loading (outs : list (nat * Outcome HttpError Payload)) :
  let s := run (settlings outs) in
  (loading (state s) = false <->
     some_rejected (log s) \/ both_fulfilled (log s))
  /\ (loading (state s) = true -> shows_spinner (state s) = true)
  /\ (some_rejected (log s) ->
        loading (state s) = false /\ error (state s) = Some load_failed)
  /\ (~ some_rejected (log s) -> error (state s) = None).
Proof.
  simpl.
  assert (Hpending : forall s : IntegrationsPage.Sys,
    loading (state s) = true /\ shows_spinner (state s) = true
    /\ error (state s) = None /\ ~ some_rejected (log s)
    /\ ~ both_fulfilled (log s) ->
    (loading (state s) = false <->
       some_rejected (log s) \/ both_fulfilled (log s))
    /\ (loading (state s) = true -> shows_spinner (state s) = true)
    /\ (some_rejected (log s) ->
          loading (state s) = false /\ error (state s) = Some load_failed)
    /\ (~ some_rejected (log s) -> error (state s) = None)).
  { intros s (Hld & Hsp & Her & Hnr & Hnb). rewrite Hld.
    split; [split; [discriminate | by intros [?|?]]|].
    split; [done|]. split; [by intros ?|done]. }
  destruct (load_phase_run outs)
    as [Hw Hf Hl Hs | v Hw Hf Hl Hs | v Hw Hf Hl Hs | Hw Hld Her Hrej
       | Hw Hf Hld Her Hboth Hno].
  - apply Hpending, still_loading; [done | by left].
  - apply Hpending, still_loading; [done | right; by exists 0, v].
  - apply Hpending, still_loading; [done | right; by exists 1, v].
  - rewrite Hld, Her. split; [split; [by left | done]|].
    split; [discriminate|]. split; [done|]. intros Hno. by destruct Hno.
  - rewrite Hld, Her. split; [split; [by right | done]|].
    split; [discriminate|]. split; [|done]. intros Hrej. by destruct Hno.
Qed.

(** The adapters fetch fails while the connections fetch is still in
    flight: the page has left the loading state although one of the two
    fetches has neither completed nor failed. *)
Lemma load_leaves_loading_early :
  let s := run [Settle 0 (Rejected network_down)] in
  loading (state s) = false
  /\ shows_spinner (state s) = false
  /\ in_flight s = [1]
  /\ log s = [Invoked 0 getAdapters; Invoked 1 getConnections;
              Settled 0 (Rejected network_down);
              Console "Error fetching integration data:" network_down].
Proof. repeat split. Qed.

End InitialLoad.

(** ** The connection manager: the refresh after a connect *)

Section ConnectRefresh.
Import Js IntegrationService Async IntegrationsPage.

Lemma refreshes_app (l1 l2 : list Entry) :
  refreshes (l1 ++ l2) = refreshes l1 + refreshes l2.
Proof. unfold refreshes. by rewrite List.filter_app, length_app. Qed.

Lemma refreshes_silent (l : list Entry) : Forall silent l -> refreshes l = 0.
Proof.
  induction 1 as [|entry l Hentry _ IH]; [reflexivity|].
  destruct entry; try done; exact IH.
Qed.

Lemma before_submit_mount : before_submit mount.
Proof.
  split; [apply page_inv_mount|]. split; [|split]; try reflexivity.
  - intros id cid H. simpl in H. in_list H; discriminate H.
  - intros id sel creds H. simpl in H. in_list H; discriminate H.
Qed.

(** The log after a settling that resumes a handler which makes no call. *)
Lemma settle_quiet_log (s : IntegrationsPage.Sys) id o ws p :
  quiet p ->
  exists l, log (exec p (settled_pre s id o ws)) = log s ++ Settled id o :: l
            /\ Forall silent l
            /\ in_flight (exec p (settled_pre s id o ws))
               = filter (fun i => i ≠ id) (in_flight s).
Proof.
  intros Hq.
  destruct (exec_quiet p (settled_pre s id o ws) Hq) as (_ & -> & _ & l & -> & Hl).
  exists l. simpl. by rewrite <- app_assoc.
Qed.

Lemma invoked_after_settle (lg l : list Entry) id o i op :
  Forall silent l -> Invoked i op ∈ lg ++ Settled id o :: l -> Invoked i op ∈ lg.
Proof.
  intros Hl [H|H]%elem_of_app; [done|].
  apply elem_of_cons in H as [H|H]; [discriminate H|].
  by destruct (silent_invoked l i op Hl).
Qed.

Lemma settled_after_settle (lg l : list Entry) id o i o' :
  Forall silent l -> Settled i o' ∈ lg ++ Settled id o :: l ->
  Settled i o' ∈ lg \/ (i = id /\ o' = o).
Proof.
  intros Hl [H|H]%elem_of_app; [by left|].
  apply elem_of_cons in H as [H|H]; [injection H as -> ->; by right|].
  by destruct (silent_settled l i o' Hl).
Qed.

(** How a settling resumes in a session without disconnects: either the
    resumed handler makes no call, or a [connect] was fulfilled and the
    refresh is issued at once. *)
Lemma settle_in_session (s : IntegrationsPage.Sys) id o :
  page_inv s -> no_disconnects (log s) -> id ∈ in_flight s ->
  page_inv (settle id o s)
  /\ ((exists l,
         log (settle id o s) = log s ++ Settled id o :: l
         /\ Forall silent l
         /\ in_flight (settle id o s) = filter (fun i => i ≠ id) (in_flight s)
         /\ (forall sel creds v,
               Invoked id (connect sel creds) ∈ log s -> o <> Fulfilled v))
      \/ (exists sel creds v,
            o = Fulfilled v
            /\ Invoked id (connect sel creds) ∈ log s
            /\ log (settle id o s) =
                 log s ++ [Settled id o; Invoked (next_id s) getConnections]
            /\ in_flight (settle id o s) =
                 filter (fun i => i ≠ id) (in_flight s) ++ [next_id s])).
Proof.
  intros Hinv Hnd Hin. split; [by apply page_inv_settle|].
  destruct (settle_resumes s id o Hinv Hin) as (ws & p & -> & Hpre & Hge & Hlt).
  pose proof Hinv as [_ Hu _ _ _ _ _].
  destruct (decide (2 <= id)) as [H2|H2].
  - destruct (Hge H2) as (op & k & Hop & Hk & ->).
    destruct (is_mutation op) eqn:Hmut; [destruct o as [v|e]|].
    + (* a fulfilled connect *)
      destruct op as [| |sel creds|cid| | |]; try discriminate Hmut;
        [|by destruct (Hnd _ _ Hop)].
      right. exists sel, creds, v. simpl in Hk. subst k.
      repeat split; try done. simpl. by rewrite <- app_assoc.
    + left.
      destruct (settle_quiet_log s id (Rejected e) ws (k (Rejected e)))
        as (l & Hl & Hsil & Hfl).
      { apply (cont_quiet op k _ Hk). intros v Hv. discriminate Hv. }
      exists l. repeat split; try done.
    + left.
      destruct (settle_quiet_log s id o ws (k o)) as (l & Hl & Hsil & Hfl).
      { apply (cont_quiet op k _ Hk). by intros v _. }
      exists l. repeat split; try done.
      intros sel creds v Hc _. rewrite (Hu _ _ _ Hop Hc) in Hmut. discriminate Hmut.
  - left.
    assert (Hq : quiet p).
    { destruct (Hlt ltac:(lia)) as [-> | [r ->]];
        [constructor | apply load_k_quiet]. }
    destruct (settle_quiet_log s id o ws p Hq) as (l & Hl & Hsil & Hfl).
    exists l. repeat split; try done.
    intros sel creds v Hc _.
    pose proof (call_id_ge_2 s id _ Hinv Hc eq_refl). lia.
Qed.

Lemma refreshes_settled_silent (l : list Entry) id o :
  Forall silent l -> refreshes (Settled id o :: l) = 0.
Proof. intros Hl. exact (refreshes_silent l Hl). Qed.

(** An event that is neither a settling, nor a submission of the connect
    form, nor a confirmed disconnect issues at most a [registerWebhook]
    call. *)
Lemma other_event (s : IntegrationsPage.Sys) (ev : Event) :
  is_submit ev = false -> is_confirmed_disconnect ev = false ->
  (forall id o, ev <> Settle id o) ->
  (log (step s ev) = log s /\ in_flight (step s ev) = in_flight s)
  \/ (exists path opts,
        log (step s ev) = log s ++ [Invoked (next_id s) (registerWebhook path opts)]
        /\ in_flight (step s ev) = in_flight s ++ [next_id s]).
Proof.
  intros Hs Hd Hset. destruct ev; try discriminate Hs; simpl; try by left.
  - destruct confirmed; [discriminate Hd | by left].
  - rewrite exec_handleRegisterWebhook.
    destruct (truthy_string _); [|by left]. right. by eexists _, _.
  - destruct (formSuccess (state s)); by left.
  - destruct (webhookSuccess (state s)); by left.
  - by destruct (Hset id o).
Qed.

Lemma settle_or_other (ev : Event) :
  (exists id o, ev = Settle id o) \/ (forall id o, ev <> Settle id o).
Proof. destruct ev; try (by right); left; by eexists _, _. Qed.

Lemma invoked_app_register (lg : list Entry) n path opts id op :
  Invoked id op ∈ lg ++ [Invoked n (registerWebhook path opts)] ->
  Invoked id op ∈ lg \/ (id = n /\ op = registerWebhook path opts).
Proof.
  intros [H|H]%elem_of_app; [by left|].
  apply list_elem_of_singleton in H. injection H as -> ->. by right.
Qed.

Lemma before_submit_step (s : IntegrationsPage.Sys) (ev : Event) :
  before_submit s ->
  is_submit ev = false -> is_confirmed_disconnect ev = false ->
  before_submit (step s ev).
Proof.
  intros (Hinv & Hnd & Hnc & Hr) Hs Hd.
  split; [by apply page_inv_step|].
  destruct (settle_or_other ev) as [(id & o & ->)|Hother].
  - simpl. destruct (decide (id ∈ in_flight s)) as [Hin|Hout];
      [|by rewrite settle_not_in_flight].
    destruct (settle_in_session s id o Hinv Hnd Hin)
      as [_ [(l & -> & Hl & _ & _) | (sel & creds & v & _ & Hc & _)]];
      [|by destruct (Hnc _ _ _ Hc)].
    split; [|split].
    + intros i cid Hi%invoked_after_settle; [|done]. by destruct (Hnd _ _ Hi).
    + intros i sel creds Hi%invoked_after_settle; [|done]. by destruct (Hnc _ _ _ Hi).
    + by rewrite refreshes_app, refreshes_settled_silent, Hr.
  - destruct (other_event s ev Hs Hd Hother) as [[-> _] | (path & opts & -> & _)];
      [done|].
    split; [|split].
    + intros i cid [Hi|[_ Hi]]%invoked_app_register; [|discriminate Hi].
      by destruct (Hnd _ _ Hi).
    + intros i sel creds [Hi|[_ Hi]]%invoked_app_register; [|discriminate Hi].
      by destruct (Hnc _ _ _ Hi).
    + by rewrite refreshes_app, Hr.
Qed.

Lemma after_submit_submit (s : IntegrationsPage.Sys) :
  before_submit s -> after_submit (step s SubmitConnect).
Proof.
  intros (Hinv & Hnd & Hnc & Hr).
  split; [by apply page_inv_step|]. simpl. rewrite exec_handleConnect.
  destruct (truthy_string _); simpl.
  - assert (Hnew : forall id op,
      Invoked id op ∈ log s ++ [Invoked (next_id s)
        (connect (selectedAdapter (state s)) (credentials (state s)))] ->
      Invoked id op ∈ log s
      \/ (id = next_id s
          /\ op = connect (selectedAdapter (state s)) (credentials (state s)))).
    { intros id op [H|H]%elem_of_app; [by left|].
      apply list_elem_of_singleton in H. injection H as -> ->. by right. }
    split; [|split].
    + intros i cid [Hi|[_ Hi]]%Hnew; [|discriminate Hi]. by destruct (Hnd _ _ Hi).
    + intros c c' sel creds sel' creds' H H'.
      destruct (Hnew _ _ H) as [Hc|[-> _]]; [by destruct (Hnc _ _ _ Hc)|].
      destruct (Hnew _ _ H') as [Hc'|[-> _]]; [by destruct (Hnc _ _ _ Hc')|].
      reflexivity.
    + left. split; [by rewrite refreshes_app, Hr|].
      intros c sel creds v [Hc|[-> _]]%Hnew; [by destruct (Hnc _ _ _ Hc)|].
      intros [Hv|Hv]%elem_of_app.
      * destruct Hinv as [_ _ _ _ _ _ Hsf]. specialize (Hsf _ _ Hv). lia.
      * apply list_elem_of_singleton in Hv. discriminate Hv.
  - split; [done|]. split.
    + intros c c' sel creds sel' creds' Hc. by destruct (Hnc _ _ _ Hc).
    + left. split; [done|]. intros c sel creds v Hc. by destruct (Hnc _ _ _ Hc).
Qed.

Lemma after_submit_step (s : IntegrationsPage.Sys) (ev : Event) :
  after_submit s ->
  is_submit ev = false -> is_confirmed_disconnect ev = false ->
  after_submit (step s ev).
Proof.
  intros (Hinv & Hnd & H1c & Hcases) Hs Hd.
  split; [by apply page_inv_step|].
  destruct (settle_or_other ev) as [(id & o & ->)|Hother].
  - simpl. destruct (decide (id ∈ in_flight s)) as [Hin|Hout];
      [|by rewrite settle_not_in_flight].
    destruct (settle_in_session s id o Hinv Hnd Hin)
      as [_ [(l & -> & Hl & -> & Hnot)
            | (sel & creds & v & -> & Hc & -> & ->)]].
    + (* the resumed handler makes no call *)
      split; [|split].
      * intros i cid Hi%invoked_after_settle; [|done]. by destruct (Hnd _ _ Hi).
      * intros c c' sel creds sel' creds' Hc%invoked_after_settle
          Hc'%invoked_after_settle; try done. by eapply H1c.
      * destruct Hcases as [[Hr Hns] | [Href Hfl]]; [left|right].
        -- split; [by rewrite refreshes_app, refreshes_settled_silent, Hr|].
           intros c sel creds v Hc%invoked_after_settle; [|done].
           intros [Hv|[-> <-]]%settled_after_settle; [| |done].
           ++ by destruct (Hns _ _ _ v Hc).
           ++ by eapply Hnot.
        -- split.
           ++ destruct Href as (l1 & l2 & c & sel & creds & v & r & -> & Hc & H1 & H2).
              exists l1, (l2 ++ Settled id o :: l), c, sel, creds, v, r.
              split; [by rewrite <- !app_assoc|]. split; [done|]. split; [done|].
              by rewrite refreshes_app, refreshes_settled_silent, H2.
           ++ intros c sel creds Hc%invoked_after_settle; [|done].
              intros [_ Hc']%list_elem_of_filter. by destruct (Hfl _ _ _ Hc).
    + (* a fulfilled connect issues the refresh *)
      assert (Hnew : forall i op,
        Invoked i op ∈ log s ++ [Settled id (Fulfilled v);
                                 Invoked (next_id s) getConnections] ->
        Invoked i op ∈ log s \/ op = getConnections).
      { intros i op Hi. in_list Hi; [by left | discriminate Hi|].
        injection Hi as _ ->. by right. }
      split; [|split].
      * intros i cid [Hi|Hi]%Hnew; [|discriminate Hi]. by destruct (Hnd _ _ Hi).
      * intros c c' sel1 creds1 sel2 creds2 [H1|H1]%Hnew [H2|H2]%Hnew;
          try discriminate. by eapply H1c.
      * destruct Hcases as [[Hr Hns] | [_ Hfl]]; [|by destruct (Hfl _ _ _ Hc)].
        right. split.
        -- exists (log s), [], id, sel, creds, v, (next_id s). by repeat split.
        -- intros c sel' creds' [Hc'|Hc']%Hnew; [|discriminate Hc'].
           rewrite (H1c _ _ _ _ _ _ Hc' Hc).
           intros [[Hne _]%list_elem_of_filter | Heq%list_elem_of_singleton]%elem_of_app;
             [done|].
           destruct Hinv as [Hf _ _ _ _ _ _]. specialize (Hf _ _ Hc). lia.
  - destruct (other_event s ev Hs Hd Hother) as [[-> ->] | (path & opts & -> & ->)];
      [done|].
    split; [|split].
    + intros i cid [Hi|[_ Hi]]%invoked_app_register; [|discriminate Hi].
      by destruct (Hnd _ _ Hi).
    + intros c c' sel creds sel' creds' [Hc|[_ Hc]]%invoked_app_register
        [Hc'|[_ Hc']]%invoked_app_register; try discriminate. by eapply H1c.
    + destruct Hcases as [[Hr Hns] | [Href Hfl]]; [left|right].
      * split; [by rewrite refreshes_app, Hr|].
        intros c sel creds v [Hc|[_ Hc]]%invoked_app_register; [|discriminate Hc].
        intros [Hv|Hv]%elem_of_app; [by destruct (Hns _ _ _ v Hc)|].
        apply list_elem_of_singleton in Hv. discriminate Hv.
      * split.
        -- destruct Href as (l1 & l2 & c & sel & creds & v & r & -> & Hc & H1 & H2).
           exists l1, (l2 ++ [Invoked (next_id s) (registerWebhook path opts)]),
             c, sel, creds, v, r.
           split; [by rewrite <- !app_assoc|]. split; [done|]. split; [done|].
           by rewrite refreshes_app, H2.
        -- intros c sel creds [Hc|[_ Hc]]%invoked_app_register; [|discriminate Hc].
           intros [Hc'|Hc']%elem_of_app; [by destruct (Hfl _ _ _ Hc)|].
           apply list_elem_of_singleton in Hc'.
           destruct Hinv as [Hf _ _ _ _ _ _]. specialize (Hf _ _ Hc). lia.
Qed.

Lemma submits_snoc (evs : list Event) (ev : Event) :
  submits (evs ++ [ev]) = submits evs + (if is_submit ev then 1 else 0).
Proof.
  unfold submits. rewrite List.filter_app, length_app. simpl.
  by destruct (is_submit ev).
Qed.

Lemma session_phases (evs : list Event) :
  Forall (fun ev => is_confirmed_disconnect ev = false) evs ->
  (submits evs = 0 -> before_submit (run evs))
  /\ (submits evs = 1 -> after_submit (run evs)).
Proof.
  unfold run. induction evs as [|ev evs IH] using rev_ind; intros Hnd.
  - split; [intros _; apply before_submit_mount | discriminate].
  - apply Forall_app in Hnd as [Hnd Hev]. rewrite Forall_singleton in Hev.
    destruct (IH Hnd) as [IH0 IH1].
    rewrite submits_snoc, fold_left_app. cbn [fold_left].
    destruct (is_submit ev) eqn:Hs.
    + split; [lia|]. intros H1. destruct ev; try discriminate Hs.
      apply after_submit_submit, IH0. lia.
    + rewrite Nat.add_0_r. split; intros H.
      * apply before_submit_step; [by apply IH0 | exact Hs | exact Hev].
      * apply after_submit_step; [by apply IH1 | exact Hs | exact Hev].
Qed.

(** C1 (as amended): in every session in which the connect form is
    submitted once and no disconnect is confirmed, once the [connect] call has been
    fulfilled the log holds exactly two [getConnections] calls: the one of
    the initial load, before the [connect] call settles, and one refresh,
    issued right after the [connect] call is fulfilled and not before.
    Until then the initial load's call is the only one. *)
Theorem connect_then_one_refresh (evs : list Event) :
  submits evs = 1 ->
  Forall (fun ev => is_confirmed_disconnect ev = false) evs ->
  (connect_succeeded (log (run evs)) ->
     refreshed_after_connect (log (run evs))
     /\ refreshes (log (run evs)) = 2)
  /\ (~ connect_succeeded (log (run evs)) -> refreshes (log (run evs)) = 1).
Proof.
  intros H1 Hnd.
  destruct (session_phases evs Hnd) as [_ Hafter].
  destruct (Hafter H1) as (_ & _ & _ & [[Hr Hns] | [Href _]]).
  - split; [|done]. intros (c & sel & creds & v & Hc & Hv).
    by destruct (Hns _ _ _ v Hc).
  - assert (Hcount : refreshes (log (run evs)) = 2).
    { destruct Href as (l1 & l2 & c & sel & creds & v & r & -> & _ & Hl1 & Hl2).
      rewrite !refreshes_app, Hl1, Hl2. reflexivity. }
    split; [done|]. intros Hno. destruct Hno.
    destruct Href as (l1 & l2 & c & sel & creds & v & r & -> & Hc & _).
    exists c, sel, creds, v. split; solve_in.
Qed.

Lemma connect_then_one_refresh_witness :
  refreshes (log (run connected)) = 2.
Proof.
  assert (H1 : submits connected = 1) by reflexivity.
  assert (Hnd : Forall (fun ev => is_confirmed_disconnect ev = false) connected)
    by (repeat constructor).
  destruct (connect_then_one_refresh connected H1 Hnd) as [Hok _].
  apply Hok.
  exists 2, "square",
    typed_credentials,
    (Ack JNull).
  split; vm_compute; [do 4 right | do 5 right]; left.
Defined.

(** The session [connected_then_disconnected] is one the rendered page
    allows (the disconnect button clicked is that of a listed connection,
    with nothing loading); the connect form is submitted once in it and
    the [connect] call succeeds; yet it holds three [getConnections]
    calls, the last one issued by the disconnect. *)
Lemma disconnect_refreshes_too :
  interact mount connected_then_disconnected
    = Some (run connected_then_disconnected)
  /\ submits connected_then_disconnected = 1
  /\ connect_succeeded (log (run connected_then_disconnected))
  /\ refreshes (log (run connected_then_disconnected)) = 3
  /\ last (log (run connected_then_disconnected)) = Some (Invoked 5 getConnections).
Proof.
  split; [vm_compute; reflexivity|].
  split; [reflexivity|]. split; [|split; vm_compute; reflexivity].
  exists 2, "square",
    typed_credentials,
    (Ack JNull).
  split; vm_compute; [do 4 right | do 5 right]; left.
Qed.

End ConnectRefresh.

(** ** The webhook monitor *)

Section MonitorProperties.
Import Js IntegrationService Async WebhookEventsComponent.
Local Open Scope Z_scope.

Lemma exec_fetchWebhookEvents (s : WebhookEventsComponent.Sys) :
  exec fetchWebhookEvents s =
    suspend (WaitOne (next_id s) fetch_k) (invoke getWebhooks s).
Proof. reflexivity. Qed.

Lemma fetch_k_quiet (o : Response) : quiet (fetch_k o).
Proof. destruct o; repeat constructor. Qed.

Lemma exec_fetch_k (o : Response) (s : WebhookEventsComponent.Sys) :
  state (exec (fetch_k o) s) = apply_response o (state s).
Proof. destruct o; reflexivity. Qed.

Lemma count_fetches_app l1 l2 :
  count_fetches (l1 ++ l2) = (count_fetches l1 + count_fetches l2)%nat.
Proof. unfold count_fetches. by rewrite List.filter_app, length_app. Qed.

Lemma count_fetches_silent l : Forall silent l -> count_fetches l = 0%nat.
Proof.
  induction 1 as [|entry l Hentry _ IH]; [reflexivity|].
  destruct entry; try done; exact IH.
Qed.

Lemma fetching_start : fetching (exec fetchWebhookEvents (start initial)).
Proof.
  split; simpl.
  - apply Forall_singleton. by exists 0%nat.
  - intros id Hid. apply list_elem_of_singleton in Hid as ->. by left.
Qed.

Lemma fetching_fetch (s : WebhookEventsComponent.Sys) :
  fetching s -> fetching (exec fetchWebhookEvents s).
Proof.
  intros [Hw Hf]. rewrite exec_fetchWebhookEvents. split; simpl.
  - apply Forall_app. split; [exact Hw|]. apply Forall_singleton. by eexists.
  - intros id [Hid|Hid]%elem_of_app; apply elem_of_app.
    + left. by apply Hf.
    + right. apply list_elem_of_singleton in Hid as ->. by left.
Qed.

(** The arrival of the response of a fetch in flight resumes
    [fetchWebhookEvents], and nothing else happens. *)
Lemma settle_fetch (s : WebhookEventsComponent.Sys) (id : nat) (o : Response) :
  fetching s -> (id ∈ in_flight s)%stdpp ->
  state (settle id o s) = apply_response o (state s)
  /\ count_fetches (log (settle id o s)) = count_fetches (log s)
  /\ fetching (settle id o s).
Proof.
  intros [Hw Hf] Hin. rewrite settle_in_flight by exact Hin.
  destruct (resume_spec id o (waiters s))
    as [[_ Hnone] | (l1 & w & l2 & rest & p & Hsplit & _ & Hreact & ->)].
  { rewrite Forall_forall in Hnone. specialize (Hnone _ (Hf id Hin)).
    simpl in Hnone. by rewrite decide_True in Hnone. }
  simpl. rewrite Hsplit in Hw. apply Forall_app in Hw as [Hw1 Hw2].
  apply Forall_cons in Hw2 as [[id' ->] Hw2]. simpl in Hreact.
  destruct (decide (id = id')) as [<-|]; [|discriminate].
  injection Hreact as <- <-. simpl.
  match goal with |- context [exec (fetch_k o) ?pre] => set (s0 := pre) end.
  destruct (exec_quiet (fetch_k o) s0 (fetch_k_quiet o))
    as (Hws & Hfl & _ & l & Hlog & Hl).
  split; [by rewrite exec_fetch_k|]. split.
  - rewrite Hlog. subst s0. simpl.
    rewrite !count_fetches_app, (count_fetches_silent l Hl).
    change (count_fetches [Settled id o]) with 0%nat. lia.
  - split; rewrite Hws, ?Hfl; subst s0; simpl.
    + apply Forall_app. by split.
    + intros i [Hne Hi]%list_elem_of_filter. specialize (Hf i Hi).
      rewrite Hsplit in Hf.
      apply elem_of_app in Hf as [?|Hf]; [apply elem_of_app; by left|].
      apply elem_of_cons in Hf as [Heq|?]; [congruence|].
      apply elem_of_app; by right.
Qed.

Lemma settle_any (s : WebhookEventsComponent.Sys) (id : nat) (o : Response) :
  fetching s ->
  count_fetches (log (settle id o s)) = count_fetches (log s)
  /\ fetching (settle id o s).
Proof.
  intros Hs. destruct (decide (id ∈ in_flight s)%stdpp) as [Hin|Hout].
  - by destruct (settle_fetch s id o Hs Hin) as (_ & ? & ?).
  - by rewrite settle_not_in_flight.
Qed.

Lemma fetches_count (m : Monitor) : fetches m = count_fetches (log (sys m)).
Proof. reflexivity. Qed.

(** The arrival of a response issues no fetch, on a mounted monitor or
    on an unmounted one. *)
Lemma deliver_any (m : Monitor) (id : nat) (o : Response) :
  fetching (sys m) ->
  fetches (deliver id o m) = fetches m
  /\ fetching (sys (deliver id o m)).
Proof.
  intros Hm. destruct (settle_any (sys m) id o Hm) as [Hc Hf].
  rewrite !fetches_count. unfold deliver. cbn [sys].
  by destruct (mounted m).
Qed.

Lemma fetching_tick (m : Monitor) : fetching (sys m) -> fetching (sys (tick m)).
Proof.
  intros Hm. unfold tick. destruct (pollingInterval m) as [r|]; [|exact Hm].
  destruct (decide (r <= 1)); simpl; [by apply fetching_fetch | exact Hm].
Qed.

Lemma fetching_step (m : Monitor) (ev : Event) :
  fetching (sys m) -> fetching (sys (step m ev)).
Proof.
  intros Hm. destruct ev as [ms|id o|src|]; simpl.
  - unfold advance. induction (Z.to_nat ms) as [|n IH]; [exact Hm|].
    simpl. by apply fetching_tick.
  - by apply deliver_any.
  - unfold select_filter. by destruct (mounted m).
  - exact Hm.
Qed.

Lemma fetching_run (evs : list Event) : fetching (sys (run evs)).
Proof.
  unfold run. induction evs as [|ev evs IH] using rev_ind.
  - apply fetching_start.
  - rewrite fold_left_app. simpl. apply fetching_step, IH.
Qed.

(** *** While the monitor is mounted *)

Lemma polling_mount : polling mount 0.
Proof.
  split; [done|]. split; [done|]. split; [apply fetching_start|]. by split.
Qed.

Lemma polling_tick (m : Monitor) (t : Z) :
  polling m t -> polling (tick m) (t + 1).
Proof.
  intros (Ht & Hm & Hf & Hp & Hn). unfold polling, tick. rewrite Hp.
  unfold POLL_MS in *.
  destruct (decide (15000 - t mod 15000 <= 1)) as [Hdue|Hnot].
  - split; [lia|]. split; [exact Hm|]. split; [by apply fetching_fetch|].
    split; simpl.
    + f_equal. Z.div_mod_to_equations. lia.
    + rewrite fetches_count in *. simpl. rewrite count_fetches_app.
      change (count_fetches [Invoked (next_id (sys m)) getWebhooks]) with 1%nat.
      Z.div_mod_to_equations. lia.
  - split; [lia|]. split; [exact Hm|]. split; [exact Hf|]. split.
    + simpl. f_equal. Z.div_mod_to_equations. lia.
    + unfold fetches in *. simpl. rewrite Hn. Z.div_mod_to_equations. lia.
Qed.

Lemma polling_ticks (n : nat) (m : Monitor) (t : Z) :
  polling m t -> polling (Nat.iter n tick m) (t + Z.of_nat n).
Proof.
  intros Hm. induction n as [|n IH].
  - by rewrite Z.add_0_r.
  - replace (t + Z.of_nat (S n)) with (t + Z.of_nat n + 1) by lia.
    simpl. by apply polling_tick.
Qed.

Lemma polling_step (m : Monitor) (t : Z) (ev : Event) :
  ev <> Unmount -> polling m t ->
  polling (step m ev)
    (match ev with Advance ms => t + Z.max 0 ms | _ => t end).
Proof.
  intros Hev Hm. destruct ev as [ms|id o|src|]; simpl; [| | |done].
  - unfold advance. replace (Z.max 0 ms) with (Z.of_nat (Z.to_nat ms)) by lia.
    by apply polling_ticks.
  - destruct Hm as (Ht & Hmt & Hf & Hp & Hn).
    destruct (deliver_any m id o Hf) as [Hc Hf'].
    split; [done|]. split; [done|]. split; [done|]. split; [done|].
    by rewrite Hc.
  - destruct Hm as (Ht & Hmt & Hf & Hp & Hn). unfold select_filter.
    rewrite Hmt. split; [exact Ht|]. split; [reflexivity|].
    split; [exact Hf|]. split; [exact Hp | exact Hn].
Qed.

Lemma polling_run (evs : list Event) :
  Forall (fun ev => ev <> Unmount) evs -> polling (run evs) (elapsed evs).
Proof.
  unfold run, elapsed. induction evs as [|ev evs IH] using rev_ind; intros Hevs.
  - apply polling_mount.
  - apply Forall_app in Hevs as [Hevs Hev]. rewrite Forall_singleton in Hev.
    rewrite !fold_left_app. cbn [fold_left].
    apply (polling_step _ _ ev Hev (IH Hevs)).
Qed.

(** *** Once the monitor is unmounted *)

Lemma tick_cleared (m : Monitor) : pollingInterval m = None -> tick m = m.
Proof. intros H. unfold tick. by rewrite H. Qed.

Lemma advance_cleared (ms : Z) (m : Monitor) :
  pollingInterval m = None -> advance ms m = m.
Proof.
  intros H. unfold advance. induction (Z.to_nat ms) as [|n IH]; [done|].
  simpl. rewrite IH. by apply tick_cleared.
Qed.

Lemma cleared_step (m : Monitor) (ev : Event) :
  pollingInterval m = None -> fetching (sys m) ->
  pollingInterval (step m ev) = None
  /\ fetching (sys (step m ev))
  /\ fetches (step m ev) = fetches m.
Proof.
  intros Hp Hf. split; [|split; [by apply fetching_step|]].
  - destruct ev as [ms|id o|src|]; simpl; try done.
    + by rewrite advance_cleared.
    + unfold select_filter. by destruct (mounted m).
  - destruct ev as [ms|id o|src|]; simpl; try done.
    + by rewrite advance_cleared.
    + by destruct (deliver_any m id o Hf).
    + unfold select_filter. by destruct (mounted m).
Qed.

Lemma cleared_run (evs : list Event) (m : Monitor) :
  pollingInterval m = None -> fetching (sys m) ->
  pollingInterval (fold_left step evs m) = None
  /\ fetches (fold_left step evs m) = fetches m.
Proof.
  revert m. induction evs as [|ev evs IH]; intros m Hp Hf; [done|].
  simpl. destruct (cleared_step m ev Hp Hf) as (Hp' & Hf' & Hn).
  destruct (IH _ Hp' Hf') as [? ->]. by split.
Qed.

(** C4: mounting the monitor issues one [getWebhooks] call at once; a
    monitor that stays mounted has issued one call plus one per full
    period of 15 time units elapsed, whatever responses arrive meanwhile,
    so 2 calls after 15 time units and 3 after 30; and once it is
    unmounted no later event issues a call. *)
Theorem polling_schedule :
  fetches mount = 1%nat
  /\ (forall evs : list Event,
        Forall (fun ev => ev <> Unmount) evs ->
        Z.of_nat (fetches (run evs)) = 1 + elapsed evs / time_units 15)
  /\ fetches (run [Advance (time_units 15)]) = 2%nat
  /\ fetches (run [Advance (time_units 15); Advance (time_units 15)]) = 3%nat
  /\ (forall evs1 evs2 : list Event,
        fetches (run (evs1 ++ Unmount :: evs2)) = fetches (run evs1)).
Proof.
  assert (Hgen : forall evs : list Event,
    Forall (fun ev => ev <> Unmount) evs ->
    Z.of_nat (fetches (run evs)) = 1 + elapsed evs / time_units 15).
  { intros evs Hevs. by destruct (polling_run evs Hevs) as (_ & _ & _ & _ & ?). }
  split; [reflexivity|]. split; [exact Hgen|]. split; [|split].
  - assert (H : Z.of_nat (fetches (run [Advance (time_units 15)])) = 2).
    { rewrite Hgen; [reflexivity|]. by repeat constructor. }
    lia.
  - assert (H : Z.of_nat
        (fetches (run [Advance (time_units 15); Advance (time_units 15)])) = 3).
    { rewrite Hgen; [reflexivity|]. by repeat constructor. }
    lia.
  - intros evs1 evs2. unfold run. rewrite fold_left_app. simpl.
    destruct (cleared_run evs2 (unmount (fold_left step evs1 mount)) eq_refl
                (fetching_run evs1)) as [_ ->].
    reflexivity.
Qed.

Lemma polling_schedule_witness :
  Z.of_nat (fetches (run [Advance 20000; Deliver 0 (Rejected {| response := None |});
                          Advance 40000])) = 5.
Proof.
  destruct polling_schedule as (_ & Hgen & _).
  rewrite Hgen; [reflexivity|]. by repeat constructor.
Defined.

(** *** A response that arrives after the unmount *)

Lemma state_tick (m : Monitor) : state (sys (tick m)) = state (sys m).
Proof.
  unfold tick. destruct (pollingInterval m) as [r|]; [|reflexivity].
  by destruct (decide (r <= 1)).
Qed.

Lemma mounted_tick (m : Monitor) : mounted (tick m) = mounted m.
Proof.
  unfold tick. destruct (pollingInterval m) as [r|]; [|reflexivity].
  by destruct (decide (r <= 1)).
Qed.

(** Nothing changes the state of an unmounted monitor, and nothing
    mounts it again. *)
Lemma unmounted_step (m : Monitor) (ev : Event) :
  mounted m = false ->
  mounted (step m ev) = false /\ state (sys (step m ev)) = state (sys m).
Proof.
  intros Hm. destruct ev as [ms|id o|src|]; cbn [step].
  - unfold advance. induction (Z.to_nat ms) as [|n [IHm IHs]]; [done|].
    rewrite Nat.iter_succ, mounted_tick, state_tick. by split.
  - unfold deliver. rewrite Hm. by split.
  - unfold select_filter. rewrite Hm. by split.
  - by split.
Qed.

Lemma unmounted_run (evs : list Event) (m : Monitor) :
  mounted m = false ->
  mounted (fold_left step evs m) = false
  /\ state (sys (fold_left step evs m)) = state (sys m).
Proof.
  revert m. induction evs as [|ev evs IH]; intros m Hm; [done|].
  cbn [fold_left]. destruct (unmounted_step m ev Hm) as [Hm' Hst].
  destruct (IH _ Hm') as [? ->]. by split.
Qed.

Lemma exec_fetch_k_log (o : Response) (s : WebhookEventsComponent.Sys) :
  in_flight (exec (fetch_k o) s) = in_flight s
  /\ log (exec (fetch_k o) s) =
       log s ++ match o with
                | Fulfilled _ => []
                | Rejected e => [Console "Error fetching webhook events:" e]
                end.
Proof. destruct o; simpl; [by rewrite app_nil_r | done]. Qed.

(** The continuation of a fetch in flight does run when the response
    arrives: the call is settled and in flight no more, and a failure is
    written to the console. *)
Lemma settle_fetch_done (s : WebhookEventsComponent.Sys) (id : nat) (o : Response) :
  fetching s -> (id ∈ in_flight s)%stdpp ->
  in_flight (settle id o s) = filter (fun i => i <> id) (in_flight s)
  /\ log (settle id o s) =
       log s ++ Settled id o ::
         match o with
         | Fulfilled _ => []
         | Rejected e => [Console "Error fetching webhook events:" e]
         end.
Proof.
  intros [Hw Hf] Hin. rewrite settle_in_flight by exact Hin.
  destruct (resume_spec id o (waiters s))
    as [[_ Hnone] | (l1 & w & l2 & rest & p & Hsplit & _ & Hreact & ->)].
  { rewrite Forall_forall in Hnone. specialize (Hnone _ (Hf id Hin)).
    simpl in Hnone. by rewrite decide_True in Hnone. }
  simpl. rewrite Hsplit in Hw. apply Forall_app in Hw as [Hw1 Hw2].
  apply Forall_cons in Hw2 as [[id' ->] Hw2]. simpl in Hreact.
  destruct (decide (id = id')) as [<-|]; [|discriminate].
  injection Hreact as <- <-.
  match goal with |- context [exec (fetch_k o) ?pre] => set (s0 := pre) end.
  destruct (exec_fetch_k_log o s0) as [-> ->]. subst s0. cbn [in_flight log].
  by rewrite <- app_assoc.
Qed.

Lemma filter_other (l : list nat) (id : nat) :
  (id ∉ l)%stdpp -> filter (fun i => i <> id) l = l.
Proof.
  induction l as [|i l IH]; intros Hout; [reflexivity|].
  apply not_elem_of_cons in Hout as [Hne Hout].
  rewrite filter_cons, decide_True by congruence. by rewrite IH.
Qed.

Lemma in_flight_deliver (m : Monitor) (id : nat) (o : Response) :
  fetching (sys m) ->
  in_flight (sys (deliver id o m)) = filter (fun i => i <> id) (in_flight (sys m)).
Proof.
  intros Hm.
  assert (H : in_flight (settle id o (sys m))
              = filter (fun i => i <> id) (in_flight (sys m))).
  { destruct (decide (id ∈ in_flight (sys m))%stdpp) as [Hin|Hout].
    - by destruct (settle_fetch_done (sys m) id o Hm Hin) as [-> _].
    - by rewrite settle_not_in_flight, filter_other. }
  unfold deliver. cbn [sys]. by destruct (mounted m).
Qed.

(** A fetch stays in flight until its response arrives. *)
Lemma in_flight_step (m : Monitor) (ev : Event) (id : nat) :
  fetching (sys m) -> (id ∈ in_flight (sys m))%stdpp ->
  (forall o, ev <> Deliver id o) ->
  (id ∈ in_flight (sys (step m ev)))%stdpp.
Proof.
  intros Hm Hin Hev. destruct ev as [ms|id' o|src|]; cbn [step].
  - unfold advance. induction (Z.to_nat ms) as [|n IH]; [exact Hin|].
    rewrite Nat.iter_succ. unfold tick at 1.
    destruct (pollingInterval _) as [r|]; [|exact IH].
    destruct (decide (r <= 1)); [|exact IH].
    cbn [sys]. rewrite exec_fetchWebhookEvents. cbn [in_flight suspend invoke].
    apply elem_of_app. by left.
  - rewrite in_flight_deliver by exact Hm. apply list_elem_of_filter.
    split; [|exact Hin]. intros ->. by apply (Hev o).
  - unfold select_filter. by destruct (mounted m).
  - exact Hin.
Qed.

Lemma in_flight_run (evs : list Event) (m : Monitor) (id : nat) :
  fetching (sys m) -> (id ∈ in_flight (sys m))%stdpp ->
  Forall (fun ev => forall o, ev <> Deliver id o) evs ->
  fetching (sys (fold_left step evs m))
  /\ (id ∈ in_flight (sys (fold_left step evs m)))%stdpp.
Proof.
  revert m. induction evs as [|ev evs IH]; intros m Hm Hin Hevs; [done|].
  apply Forall_cons in Hevs as [Hev Hevs]. cbn [fold_left].
  apply IH; [by apply fetching_step | by apply in_flight_step | exact Hevs].
Qed.

(** C3: when the monitor is unmounted while a fetch is in flight, the
    response of that fetch is discarded.  The fetch stays in flight, its
    response does arrive and the continuation of [fetchWebhookEvents]
    runs (the call is settled, a failure is written to the console), but
    it updates nothing: the event snapshot, the source list and the error
    state, as the rest of the state, are what they were at the unmount,
    when the response arrives and whatever else happens before or
    afterwards. *)
Theorem late_response_discarded
    (evs before after : list Event) (id : nat) (o : Response) :
  (id ∈ in_flight (sys (run evs)))%stdpp ->
  Forall (fun ev => forall o', ev <> Deliver id o') before ->
  let m := run evs in
  let m1 := fold_left step before (step m Unmount) in
  let m2 := step m1 (Deliver id o) in
  let m3 := fold_left step after m2 in
  ((id ∈ in_flight (sys m1))%stdpp /\ (id ∉ in_flight (sys m2))%stdpp)
  /\ log (sys m2) =
       log (sys m1) ++ Settled id o ::
         match o with
         | Fulfilled _ => []
         | Rejected e => [Console "Error fetching webhook events:" e]
         end
  /\ webhookEvents (state (sys m2)) = webhookEvents (state (sys m))
  /\ sources (state (sys m2)) = sources (state (sys m))
  /\ error (state (sys m2)) = error (state (sys m))
  /\ state (sys m2) = state (sys m)
  /\ state (sys m3) = state (sys m).
Proof.
  intros Hin Hbefore m m1 m2 m3.
  destruct (in_flight_run before (step m Unmount) id (fetching_run evs) Hin Hbefore)
    as [Hf1 Hin1]. fold m1 in Hf1, Hin1.
  destruct (unmounted_run before (step m Unmount) eq_refl) as [Hm1 Hst1].
  fold m1 in Hm1, Hst1.
  destruct (unmounted_step m1 (Deliver id o) Hm1) as [Hm2 Hst2].
  fold m2 in Hm2, Hst2.
  destruct (unmounted_run after m2 Hm2) as [_ Hst3]. fold m3 in Hst3.
  assert (H2 : state (sys m2) = state (sys m)) by (by rewrite Hst2, Hst1).
  split; [split; [exact Hin1|]|].
  { subst m2. cbn [step]. rewrite in_flight_deliver by exact Hf1.
    intros [Hne _]%list_elem_of_filter. by apply Hne. }
  split.
  { subst m2. cbn [step]. unfold deliver. rewrite Hm1. cbn [sys with_state log].
    by destruct (settle_fetch_done (sys m1) id o Hf1 Hin1) as [_ ->]. }
  rewrite H2. split; [done|]. split; [done|]. split; [done|]. split; [done|].
  by rewrite Hst3.
Qed.

Lemma late_response_discarded_witness :
  webhookEvents
    (state (sys (step (step (run []) Unmount)
                   (Deliver 0%nat (Fulfilled [order_created])))))
  = [].
Proof.
  assert (Hin : (0%nat ∈ in_flight (sys (run [])))%stdpp) by (vm_compute; left).
  destruct (late_response_discarded [] [] [] 0%nat (Fulfilled [order_created])
              Hin (Forall_nil_2 _))
    as (_ & _ & Hev & _).
  exact Hev.
Defined.

End MonitorProperties.

(** ** Further properties of the flows *)

Section FurtherProperties.
Import Js IntegrationService Async.

(** X1: the filter value "all" shows the whole snapshot; any other value
    shows exactly the events whose source equals it, in snapshot order. *)
Theorem filteredEvents_by_source (st : WebhookEventsComponent.State) :
  (WebhookEventsComponent.filterSource st = "all" ->
     WebhookEventsComponent.filteredEvents st = WebhookEventsComponent.webhookEvents st)
  /\ (WebhookEventsComponent.filterSource st <> "all" ->
        WebhookEventsComponent.filteredEvents st =
          filter (fun event => WebhookEvent.source event
                               = WebhookEventsComponent.filterSource st)
            (WebhookEventsComponent.webhookEvents st))
  /\ (forall event, event ∈ WebhookEventsComponent.filteredEvents st ->
        event ∈ WebhookEventsComponent.webhookEvents st
        /\ (WebhookEventsComponent.filterSource st = "all"
            \/ WebhookEvent.source event = WebhookEventsComponent.filterSource st)).
Proof.
  unfold WebhookEventsComponent.filteredEvents.
  split; [|split].
  - intros Hall. induction (WebhookEventsComponent.webhookEvents st) as [|e l IH];
      [reflexivity|].
    rewrite filter_cons, decide_True by (by left). by rewrite IH.
  - intros Hnot. apply list_filter_iff. intros e. split; [|by right].
    by intros [?|?].
  - intros event [Hp Hin]%list_elem_of_filter. by split.
Qed.

(** X2: declining the confirmation of a disconnect changes nothing: no
    call is issued and no state is set. *)
Theorem handleDisconnect_unconfirmed (s : IntegrationsPage.Sys) (cid : string) :
  IntegrationsPage.step s (IntegrationsPage.ClickDisconnect cid false) = s.
Proof. reflexivity. Qed.

(** X3: submitting the connect form with no adapter selected issues no
    call and puts up the validation message. *)
Theorem handleConnect_without_adapter (s : IntegrationsPage.Sys) :
  IntegrationsPage.selectedAdapter (state s) = "" ->
  let s' := IntegrationsPage.step s IntegrationsPage.SubmitConnect in
  log s' = log s /\ in_flight s' = in_flight s /\ waiters s' = waiters s
  /\ IntegrationsPage.formError (state s') = Some (JStr "Please select an adapter")
  /\ IntegrationsPage.credentials (state s') = IntegrationsPage.credentials (state s).
Proof.
  intros Hsel. simpl. rewrite exec_handleConnect, Hsel. simpl. by repeat split.
Qed.

Lemma handleConnect_without_adapter_witness :
  log (IntegrationsPage.step IntegrationsPage.mount IntegrationsPage.SubmitConnect)
  = log IntegrationsPage.mount.
Proof.
  destruct (handleConnect_without_adapter IntegrationsPage.mount eq_refl) as [H _].
  exact H.
Defined.

(** X4: a webhook registration with an empty path issues no call; with a
    path it issues one [registerWebhook] call carrying the path and the
    options of the form; and in no session does the settling of a
    [registerWebhook] call issue a [getConnections] call. *)
Theorem handleRegisterWebhook_calls :
  (forall s : IntegrationsPage.Sys,
     IntegrationsPage.webhookPath (state s) = "" ->
     log (IntegrationsPage.step s IntegrationsPage.SubmitRegisterWebhook) = log s
     /\ IntegrationsPage.webhookError
          (state (IntegrationsPage.step s IntegrationsPage.SubmitRegisterWebhook))
        = Some (JStr "Please enter a webhook path"))
  /\ (forall s : IntegrationsPage.Sys,
        IntegrationsPage.webhookPath (state s) <> "" ->
        log (IntegrationsPage.step s IntegrationsPage.SubmitRegisterWebhook)
        = log s ++
          [Invoked (next_id s)
             (registerWebhook (IntegrationsPage.webhookPath (state s))
                (IntegrationsPage.options_object
                   (IntegrationsPage.webhookOptions (state s))))])
  /\ (forall (evs : list IntegrationsPage.Event) (id : nat) (path : string)
        (opts : gmap string json) (o : Outcome HttpError IntegrationsPage.Payload),
        Invoked id (registerWebhook path opts) ∈ log (IntegrationsPage.run evs) ->
        refreshes (log (IntegrationsPage.step (IntegrationsPage.run evs)
                          (IntegrationsPage.Settle id o)))
        = refreshes (log (IntegrationsPage.run evs))).
Proof.
  split; [|split].
  - intros s Hpath. simpl. rewrite exec_handleRegisterWebhook, Hpath. by split.
  - intros s Hpath. simpl. rewrite exec_handleRegisterWebhook.
    destruct (IntegrationsPage.webhookPath (state s)); [done | reflexivity].
  - intros evs id path opts o Hreg. simpl.
    pose proof (page_inv_run evs) as Hinv.
    destruct (decide (id ∈ in_flight (IntegrationsPage.run evs))) as [Hin|Hout];
      [|by rewrite settle_not_in_flight].
    destruct (settle_resumes _ id o Hinv Hin) as (ws & p & -> & _ & Hge & Hlt).
    assert (Hq : quiet p).
    { destruct (decide (2 <= id)) as [H2|H2].
      - destruct (Hge H2) as (op & k & Hop & Hk & ->).
        destruct Hinv as [_ Hu _ _ _ _ _]. rewrite (Hu _ _ _ Hop Hreg) in Hk.
        apply (cont_quiet _ k o Hk). by intros v _.
      - destruct (Hlt ltac:(lia)) as [-> | [r ->]];
          [constructor | apply load_k_quiet]. }
    destruct (settle_quiet_log (IntegrationsPage.run evs) id o ws p Hq)
      as (l & -> & Hl & _).
    by rewrite refreshes_app, refreshes_settled_silent, Nat.add_0_r.
Qed.

(** X5: when the answer to a [send] call in flight arrives, in any
    session of the form: on success the confirmation is shown and the
    whole form is reset to its initial single blank item; on failure the
    entered order data stays, and the message is the server's if it is
    truthy and the generic one otherwise.  Either way the form stops
    submitting and no call is issued. *)
Theorem handleSubmit_settled (evs : list OrderForm.Event) (id : nat)
    (o : Outcome HttpError json) :
  id ∈ in_flight (OrderForm.run evs) ->
  let s := OrderForm.run evs in
  let s' := OrderForm.step s (OrderForm.Settle id o) in
  match o with
  | Fulfilled result =>
      OrderForm.orderData (state s') = OrderForm.initial_orderData
      /\ OrderForm.orderResponse (state s') = Some result
      /\ OrderForm.orderStatus (state s') = Some OrderForm.success
  | Rejected err =>
      OrderForm.orderData (state s') = OrderForm.orderData (state s)
      /\ OrderForm.orderStatus (state s') = Some OrderForm.error_status
      /\ OrderForm.error (state s') =
           Some (or_else (error_message err)
                   (JStr "Failed to process order. Please try again."))
  end
  /\ OrderForm.isSubmitting (state s') = false
  /\ next_id s' = next_id s.
Proof.
  intros Hin s s'. subst s'. simpl.
  destruct (settle_send s id o (form_ok_run evs) Hin) as (ws & -> & _).
  destruct o as [result|err]; simpl; by repeat split.
Qed.

Lemma handleSubmit_settled_witness :
  OrderForm.orderData
    (state (OrderForm.step (OrderForm.run margherita)
              (OrderForm.Settle 0 (Fulfilled JNull))))
  = OrderForm.initial_orderData.
Proof.
  assert (Hin : 0 ∈ in_flight (OrderForm.run margherita)) by (vm_compute; left).
  destruct (handleSubmit_settled margherita 0 (Fulfilled JNull) Hin) as [[H _] _].
  exact H.
Defined.

End FurtherProperties.

(** ** The integration client: routes *)

Section Routes.
Import Js IntegrationService.

(** X6: two calls of the service reach the same route (verb and URL) only
    if they are calls of the same method on the same target: no two
    methods share a route; a [connect] or [disconnect] route determines
    the system or connection; the route of [send] determines its system
    and endpoint joined by a slash (and no more than that). *)
Theorem routes_apart (c1 c2 : Call) :
  route c1 = route c2 <-> same_target c1 c2.
Proof.
  split.
  - intros H. unfold route in H.
    destruct c1, c2; simpl; try discriminate H; try exact I;
      injection H; intros; subst; try reflexivity; try done.
  - destruct c1, c2; simpl; try done; intros H; unfold route; simpl; try by rewrite H.
Qed.
End Routes.

(** ** The application context: notifications *)

Section AppContextProperties.
Import AppContext.
Local Open Scope Z_scope.

Lemma close_due (l : list Z) (st : State) :
  fold_left (fun st _ => setNotification closed st) l st
  = if decide (l = []) then st else setNotification closed st.
Proof.
  destruct l as [|r l]; simpl; [reflexivity|].
  induction l as [|r' l IH]; simpl; [reflexivity | exact IH].
Qed.

Lemma timeouts_tick_after (k : Z) (l : list Z) :
  (fun r => r - 1) <$>
    List.filter (fun r => negb (due r)) ((fun r => r - k) <$> List.filter (fun r => k <? r) l)
  = (fun r => r - (k + 1)) <$> List.filter (fun r => k + 1 <? r) l.
Proof.
  unfold due. induction l as [|r l IH]; [reflexivity|]. cbn [List.filter].
  destruct (Z.ltb_spec k r), (Z.ltb_spec (k + 1) r); try lia;
    rewrite ?fmap_cons; cbn [List.filter]; try exact IH.
  - destruct (Z.leb_spec (r - k) 1); [lia|]. cbn [negb].
    rewrite !fmap_cons, IH. f_equal. lia.
  - destruct (Z.leb_spec (r - k) 1); [exact IH | lia].
Qed.

Lemma due_tick_after (k : Z) (l : list Z) :
  List.filter due ((fun r => r - k) <$> List.filter (fun r => k <? r) l) = []
  <-> existsb (fun r => (k <? r) && (r <=? k + 1)) l = false.
Proof.
  unfold due. induction l as [|r l IH]; [done|]. cbn [List.filter existsb].
  destruct (Z.ltb_spec k r); [|exact IH].
  rewrite fmap_cons. cbn [List.filter andb].
  destruct (Z.leb_spec (r - k) 1), (Z.leb_spec r (k + 1)); try lia;
    [done | exact IH].
Qed.

Lemma existsb_split (k : Z) (l : list Z) :
  existsb (fun r => r <=? k + 1) l
  = existsb (fun r => r <=? k) l || existsb (fun r => (k <? r) && (r <=? k + 1)) l.
Proof.
  induction l as [|r l IH]; simpl; [reflexivity|]. rewrite IH.
  destruct (Z.leb_spec r (k + 1)), (Z.leb_spec r k), (Z.ltb_spec k r);
    simpl; try lia; try reflexivity;
    destruct (existsb (fun r => r <=? k) l); reflexivity.
Qed.

Lemma tick_after (k : Z) (p : Provider) :
  tick (after_ms k p) = after_ms (k + 1) p.
Proof.
  unfold tick, after_ms. simpl. f_equal; [|apply timeouts_tick_after].
  rewrite close_due, existsb_split.
  pose proof (due_tick_after k (timeouts p)) as Hdue.
  destruct (decide _) as [Hnil|Hsome].
  - apply Hdue in Hnil. rewrite Hnil, orb_false_r. reflexivity.
  - destruct (existsb (fun r => (k <? r) && (r <=? k + 1)) (timeouts p)).
    + rewrite orb_true_r. by destruct (existsb _ (timeouts p)).
    + destruct Hsome. by apply Hdue.
Qed.

Lemma after_0 (p : Provider) :
  Forall (fun r => 0 < r) (timeouts p) -> after_ms 0 p = p.
Proof.
  destruct p as [st l]. unfold after_ms. cbn [state timeouts]. intros Hpos.
  induction Hpos as [|r l Hr Hl IH]; [reflexivity|].
  cbn [existsb List.filter].
  destruct (Z.leb_spec r 0), (Z.ltb_spec 0 r); try lia.
  rewrite fmap_cons, Z.sub_0_r. cbn [orb].
  injection IH as -> ->. reflexivity.
Qed.

Lemma advance_after (ms : Z) (p : Provider) :
  0 <= ms -> Forall (fun r => 0 < r) (timeouts p) ->
  advance ms p = after_ms ms p.
Proof.
  intros Hms Hpos. unfold advance.
  rewrite <- (Z2Nat.id ms) at 2 by exact Hms.
  induction (Z.to_nat ms) as [|n IH].
  - symmetry. by apply after_0.
  - rewrite Nat2Z.inj_succ, <- Z.add_1_r, <- tick_after, <- IH. reflexivity.
Qed.

Lemma advance_negative (ms : Z) (p : Provider) : ms <= 0 -> advance ms p = p.
Proof.
  intros Hms. unfold advance. by replace (Z.to_nat ms) with 0%nat by lia.
Qed.

Lemma provider_ok_positive (p : Provider) :
  provider_ok p -> Forall (fun r => 0 < r) (timeouts p).
Proof. intros [H _]. eapply Forall_impl; [exact H|]. simpl. lia. Qed.

Lemma existsb_none (k : Z) (l : list Z) :
  existsb (fun r => r <=? k) l = false -> List.filter (fun r => k <? r) l = l.
Proof.
  induction l as [|r l IH]; [reflexivity|]. cbn [existsb List.filter].
  destruct (Z.leb_spec r k), (Z.ltb_spec k r); try lia; try done.
  intros Hex. by rewrite IH.
Qed.

Lemma provider_ok_after (k : Z) (p : Provider) :
  0 <= k -> provider_ok p -> provider_ok (after_ms k p).
Proof.
  intros Hk [Hall Hopen]. split; cbn [after_ms state timeouts].
  - apply Forall_fmap. clear Hopen.
    induction Hall as [|r l Hr Hl IH]; [constructor|].
    cbn [List.filter]. destruct (Z.ltb_spec k r); [|exact IH].
    constructor; [simpl; lia | exact IH].
  - destruct (existsb (fun r => r <=? k) (timeouts p)) eqn:Hex; [discriminate|].
    intros Ho. rewrite (existsb_none _ _ Hex).
    specialize (Hopen Ho). destruct (timeouts p); [done | discriminate].
Qed.

Lemma provider_ok_step (p : Provider) (ev : Event) :
  provider_ok p -> provider_ok (step p ev).
Proof.
  intros Hp. pose proof Hp as [Hall Hopen]. destruct ev as [m t| |b|ms]; cbn [step].
  - split; cbn [showNotification state timeouts].
    + apply Forall_app. split; [exact Hall|]. apply Forall_singleton.
      unfold AUTO_HIDE_MS. lia.
    + intros _. by destruct (timeouts p).
  - split; [exact Hall | discriminate].
  - split; [exact Hall | exact Hopen].
  - destruct (Z.le_gt_cases 0 ms).
    + rewrite advance_after; [by apply provider_ok_after | done |].
      by apply provider_ok_positive.
    + rewrite advance_negative by lia. exact Hp.
Qed.

Lemma provider_ok_run (evs : list Event) : provider_ok (run evs).
Proof.
  unfold run. induction evs as [|ev evs IH] using rev_ind.
  - split; [constructor | discriminate].
  - rewrite fold_left_app. apply provider_ok_step, IH.
Qed.

Lemma existsb_all (k : Z) (l : list Z) :
  l <> [] -> Forall (fun r => r <= k) l -> existsb (fun r => r <=? k) l = true.
Proof.
  destruct l as [|r l]; [done|]. intros _ [Hr _]%Forall_cons. simpl.
  destruct (Z.leb_spec r k); [reflexivity | lia].
Qed.

Lemma filter_all_due (k : Z) (l : list Z) :
  Forall (fun r => r <= k) l -> List.filter (fun r => k <? r) l = [].
Proof.
  induction 1 as [|r l Hr Hl IH]; [reflexivity|]. cbn [List.filter].
  destruct (Z.ltb_spec k r); [lia | exact IH].
Qed.

(** X7: whatever has happened to the provider, an open notification has
    a timeout pending that fires within 5000 ms; so after 5000 ms without
    another event no notification shows and no timeout is left.  The
    passing of time only closes the notification: its message, its type
    and the loading flag stay. *)
Theorem notification_auto_hides (evs : list Event) :
  let p := run evs in
  (open (notification (state p)) = true ->
     exists r, r ∈ timeouts p /\ 0 < r <= 5000)
  /\ banner (state (step p (Advance 5000))) = None
  /\ timeouts (step p (Advance 5000)) = []
  /\ (forall ms,
        message (notification (state (step p (Advance ms))))
          = message (notification (state p))
        /\ type (notification (state (step p (Advance ms))))
          = type (notification (state p))
        /\ isLoading (state (step p (Advance ms))) = isLoading (state p)).
Proof.
  intros p. pose proof (provider_ok_run evs) as Hp. fold p in Hp.
  pose proof Hp as [Hall Hopen]. pose proof (provider_ok_positive p Hp) as Hpos.
  assert (Hle : Forall (fun r => r <= 5000) (timeouts p)).
  { eapply Forall_impl; [exact Hall|]. unfold AUTO_HIDE_MS. simpl. lia. }
  split; [|split; [|split]].
  - intros Ho. specialize (Hopen Ho).
    destruct (timeouts p) as [|r l] eqn:Hl; [done|].
    exists r. split; [by left|]. by apply Forall_cons in Hall as [? _].
  - cbn [step]. rewrite advance_after by (done || lia).
    unfold banner, after_ms. cbn [state].
    destruct (existsb _ (timeouts p)) eqn:Hex; [reflexivity|].
    destruct (open (notification (state p))) eqn:Ho; [|reflexivity].
    specialize (Hopen eq_refl). by rewrite existsb_all in Hex.
  - cbn [step]. rewrite advance_after by (done || lia).
    cbn [after_ms timeouts]. by rewrite filter_all_due.
  - intros ms. cbn [step]. destruct (Z.le_gt_cases 0 ms).
    + rewrite advance_after by done. cbn [after_ms state].
      by destruct (existsb _ (timeouts p)).
    + rewrite advance_negative by lia. done.
Qed.

(** X8: no timeout is ever cleared, so a notification shown [a]
    milliseconds after an earlier one ([0 < a < 5000]) is hidden when the
    earlier one's timeout fires: [5000 - a] milliseconds after it was
    shown, while its own timeout is still pending. *)
Theorem earlier_timeout_hides_later_notification (evs : list Event)
    (message1 message2 : string) (type1 type2 : option string) (a : Z) :
  0 < a < 5000 ->
  let p := run (evs ++ [ShowNotification message1 type1; Advance a;
                        ShowNotification message2 type2]) in
  banner (state p) = Some (default "info" type2, message2)
  /\ banner (state (step p (Advance (5000 - a)))) = None
  /\ 5000 ∈ timeouts p.
Proof.
  intros Ha p.
  assert (Hp : provider_ok p) by apply provider_ok_run.
  split; [|split].
  - subst p. unfold run. rewrite fold_left_app. reflexivity.
  - cbn [step]. rewrite advance_after; [|lia|by apply provider_ok_positive].
    unfold banner, after_ms. cbn [state].
    assert (Hex : existsb (fun r => r <=? 5000 - a) (timeouts p) = true).
    { apply existsb_exists. exists (5000 - a). split; [|lia].
      subst p. unfold run. rewrite fold_left_app.
      set (p0 := fold_left step evs mount).
      assert (Hp0 : provider_ok p0) by apply provider_ok_run.
      cbn [fold_left step showNotification timeouts].
      rewrite advance_after; [|lia|].
      2:{ cbn [timeouts]. apply Forall_app. split;
            [by apply provider_ok_positive | by apply Forall_singleton]. }
      cbn [after_ms timeouts]. apply in_or_app. left.
      cbn [showNotification timeouts]. rewrite List.filter_app, fmap_app. apply in_or_app. right.
      cbn [List.filter]. unfold AUTO_HIDE_MS.
      destruct (Z.ltb_spec a 5000); [|lia]. by left. }
    by rewrite Hex.
  - subst p. unfold run. rewrite fold_left_app.
    cbn [fold_left step showNotification timeouts].
    apply elem_of_app. right. by left.
Qed.

Lemma earlier_timeout_hides_later_notification_witness :
  banner (state (run [ShowNotification "Saved" None; Advance 3000;
                      ShowNotification "Failed" (Some "error"); Advance 2000]))
  = None.
Proof.
  destruct (earlier_timeout_hides_later_notification [] "Saved" "Failed" None
              (Some "error") 3000 ltac:(lia)) as (_ & H & _).
  exact H.
Defined.

End AppContextProperties.

(** ** The order form at its controls *)

Section OrderFormSessions.
Import Js IntegrationService Async OrderForm.

Lemma interact_snoc (s : OrderForm.Sys) (evs : list Event) (ev : Event) :
  interact s (evs ++ [ev]) =
  match interact s evs with
  | Some s' => if enabled (state s') ev then Some (step s' ev) else None
  | None => None
  end.
Proof.
  revert s. induction evs as [|e evs IH]; intros s; simpl.
  - by destruct (enabled (state s) ev).
  - destruct (enabled (state s) e); [apply IH | reflexivity].
Qed.

Lemma interact_run (evs : list Event) (s : OrderForm.Sys) :
  interact mount evs = Some s -> s = run evs.
Proof.
  revert s. induction evs as [|ev evs IH] using rev_ind; intros s.
  - by intros [= <-].
  - rewrite interact_snoc. destruct (interact mount evs) as [s'|]; [|done].
    destruct (enabled (state s') ev); [|done]. intros [= <-].
    unfold run. rewrite fold_left_app. simpl. f_equal. by apply IH.
Qed.

Lemma session_step (s : OrderForm.Sys) (ev : Event) :
  idle s \/ submitting s -> enabled (state s) ev = true ->
  idle (step s ev) \/ submitting (step s ev).
Proof.
  intros [(Hsub & Hfl & Hws & Hst) | (id & Hsub & Hfl & Hws & Hst & Herr)] Hen.
  - destruct ev as [n v|i e| |i| | |id o]; cbn [step].
    + by left.
    + left. unfold handleItemChange.
      by destruct (items (orderData (state s)) !! i).
    + by left.
    + left. unfold idle. cbn [with_state state in_flight waiters].
      unfold removeItem.
      by destruct (decide (length (items (orderData (state s))) = 1)).
    + unfold handleSubmit.
      destruct (truthy_string (customerName (orderData (state s)))); simpl;
        [|by left].
      destruct (existsb invalid_item (items (orderData (state s)))); simpl;
        [by left|].
      right. exists (next_id s). simpl. by rewrite Hfl, Hws.
    + left. split; [done|]. split; [done|]. split; [done|]. simpl. discriminate.
    + left. rewrite settle_not_in_flight; [done|]. rewrite Hfl. apply not_elem_of_nil.
  - destruct ev as [n v|i e| |i| | |id' o]; cbn [enabled] in Hen;
      rewrite ?Hsub, ?andb_false_r in Hen;
      try (unfold success_panel in Hen; rewrite Hst in Hen);
      simpl in Hen; try discriminate Hen.
    cbn [step]. destruct (decide (id' = id)) as [->|Hne].
      * left. rewrite settle_in_flight by (rewrite Hfl; by left).
        rewrite Hws, Hfl. cbn [resume react].
        rewrite decide_True by done. cbn [fst snd option_list app].
        rewrite filter_cons, decide_False, filter_nil by (intros H; by apply H).
        destruct o as [v|e]; simpl; repeat split; discriminate.
      * right. rewrite settle_not_in_flight.
        -- by exists id.
        -- rewrite Hfl. by intros ->%list_elem_of_singleton.
Qed.

Lemma session_ok (evs : list Event) (s : OrderForm.Sys) :
  interact mount evs = Some s -> idle s \/ submitting s.
Proof.
  revert s. induction evs as [|ev evs IH] using rev_ind; intros s.
  - intros [= <-]. left. repeat split; discriminate.
  - rewrite interact_snoc. destruct (interact mount evs) as [s'|]; [|done].
    destruct (enabled (state s') ev) eqn:Hen; [|done]. intros [= <-].
    apply session_step; [by apply IH | exact Hen].
Qed.

(** X13: at a form operated through its rendered controls at most one
    [send] call is in flight at any time; the form is submitting exactly
    while one is; and while it is, the submit control is disabled, the
    status is "processing" and no error is up.
    The state reached is the one the same events give without the
    guards. *)
Theorem one_submission_at_a_time (evs : list Event) (s : OrderForm.Sys) :
  interact mount evs = Some s ->
  s = run evs
  /\ length (in_flight s) <= 1
  /\ (isSubmitting (state s) = true <-> in_flight s <> [])
  /\ (isSubmitting (state s) = true -> enabled (state s) Submit = false)
  /\ (isSubmitting (state s) = true ->
        orderStatus (state s) = Some processing /\ error (state s) = None).
Proof.
  intros Hs. split; [by apply interact_run|].
  destruct (session_ok evs s Hs)
    as [(Hsub & Hfl & Hws & Hst) | (id & Hsub & Hfl & Hws & Hst & Herr)].
  - rewrite Hsub, Hfl. simpl. split; [lia|]. split; [done|]. split; done.
  - unfold enabled. rewrite Hsub, Hfl. simpl. split; [lia|]. split; [done|].
    split; [|done]. intros _. by rewrite andb_false_r.
Qed.

Lemma one_submission_at_a_time_witness :
  isSubmitting (state (run margherita)) = true <-> in_flight (run margherita) <> [].
Proof.
  destruct (one_submission_at_a_time margherita (run margherita))
    as (_ & _ & H & _); [vm_compute; reflexivity | exact H].
Defined.



(** X15: submitting an order that passes the validation issues one
    call, [send('square', 'orders/create', orderData)], that is a POST to
    [/api/integration/send/square/orders/create] with the order as body
    (customer name, items, payment method, ...); the form is then
    submitting, with status "processing" and no error, and the entered
    order is untouched. *)
Theorem submit_posts_order (s : OrderForm.Sys) :
  customerName (orderData (state s)) <> "" ->
  existsb invalid_item (items (orderData (state s))) = false ->
  let d := orderData (state s) in
  let s' := step s Submit in
  log s' = log s ++ [Invoked (next_id s) (send "square" "orders/create" (order_json d))]
  /\ request (send "square" "orders/create" (order_json d)) =
       {| verb := POST; url := "/api/integration/send/square/orders/create";
          body := Some (order_json d) |}
  /\ get "customerName" (Some (order_json d)) = Some (JStr (customerName d))
  /\ get "items" (Some (order_json d)) = Some (JArr (item_json <$> items d))
  /\ get "paymentMethod" (Some (order_json d)) = Some (JStr (paymentMethod d))
  /\ in_flight s' = in_flight s ++ [next_id s]
  /\ isSubmitting (state s') = true
  /\ orderStatus (state s') = Some processing
  /\ error (state s') = None
  /\ orderData (state s') = d.
Proof.
  intros Hname Hitems d s'. subst s'. cbn [step].
  rewrite handleSubmit_valid;
    [|by destruct (customerName (orderData (state s))) | exact Hitems].
  repeat split.
Qed.

Lemma submit_posts_order_witness :
  in_flight (run margherita) = [0].
Proof.
  pose (s := run [InputChange in_customerName "Ada";
                  ItemChange 0 (edit_name "Margherita");
                  ItemChange 0 (edit_price 9.5)]).
  destruct (submit_posts_order s) as (_ & _ & _ & _ & _ & H & _);
    [vm_compute; discriminate | vm_compute; reflexivity | exact H].
Defined.

(** X16: with a customer name entered, an order in which some item has
    an empty name, a quantity below 1 or a price of 0 or less is not
    sent: no call is issued, the order data and the status stay, and the
    item validation message is put up. *)
Theorem handleSubmit_invalid_item (s : OrderForm.Sys) (it : Item) :
  customerName (orderData (state s)) <> "" ->
  it ∈ items (orderData (state s)) ->
  name it = "" \/ PrimFloat.ltb (quantity it) 1 = true
    \/ PrimFloat.leb (price it) 0 = true ->
  let s' := step s Submit in
  log s' = log s
  /\ in_flight s' = in_flight s
  /\ waiters s' = waiters s
  /\ orderData (state s') = orderData (state s)
  /\ isSubmitting (state s') = isSubmitting (state s)
  /\ orderStatus (state s') = orderStatus (state s)
  /\ error_banner (state s') =
       Some (JStr "All items must have a name, quantity, and price").
Proof.
  intros Hname Hin Hbad s'. subst s'. cbn [step]. unfold handleSubmit.
  destruct (customerName (orderData (state s))) eqn:Hn; [done|]. cbn [truthy_string negb].
  assert (Hex : existsb invalid_item (items (orderData (state s))) = true).
  { apply existsb_exists. exists it. split; [by apply list_elem_of_In|].
    unfold invalid_item. destruct Hbad as [->|[->| ->]]; [reflexivity| |].
    - by rewrite orb_true_r.
    - by rewrite orb_true_r. }
  rewrite Hex. simpl. by repeat split.
Qed.

Lemma handleSubmit_invalid_item_witness :
  error_banner (state (run [InputChange in_customerName "Ada"; Submit]))
  = Some (JStr "All items must have a name, quantity, and price").
Proof.
  destruct (handleSubmit_invalid_item
              (run [InputChange in_customerName "Ada"]) blank_item)
    as (_ & _ & _ & _ & _ & _ & H);
    [vm_compute; discriminate | vm_compute; left | by left | exact H].
Defined.

(** *** Item rows *)

Lemma keep_items (st : OrderForm.State) :
  setOrderData (with_items (items (orderData st))) st = st.
Proof. by destruct st as [[] ? ? ? ?]. Qed.

Lemma delete_last {A} (l : list A) (x : A) : delete (length l) (l ++ [x]) = l.
Proof.
  induction l as [|y l IH]; [reflexivity|]. simpl. by rewrite IH.
Qed.

(** [splice(index, 1)] at an index outside the array. *)
Lemma splice1_clamped {A} (index : Z) (l : list A) :
  let len := Z.of_nat (length l) in
  ((len <= index)%Z -> splice1 index l = l)
  /\ ((- len <= index < 0)%Z ->
        splice1 index l = delete (Z.to_nat (len + index)) l)
  /\ ((index < - len)%Z -> splice1 index l = delete 0 l).
Proof.
  intros len. unfold splice1. fold len. split; [|split]; intros Hi.
  - destruct (Z.ltb_spec index 0); [lia|]. rewrite Z.min_r by lia.
    subst len. by rewrite Nat2Z.id, take_ge, drop_ge, app_nil_r by lia.
  - destruct (Z.ltb_spec index 0); [|lia]. rewrite Z.max_l by lia.
    by rewrite <- delete_take_drop.
  - destruct (Z.ltb_spec index 0); [|lia]. rewrite Z.max_r by lia.
    by rewrite <- delete_take_drop.
Qed.

(** X9: on a form with more than one item [removeItem] follows the index
    rules of [splice]: an index at or past the end removes nothing, a
    negative index counts from the end, and an index below minus the
    length removes the first item. *)
Theorem removeItem_index_clamped (st : OrderForm.State) (index : Z) :
  (1 < length (items (orderData st)))%nat ->
  let l := items (orderData st) in
  let len := Z.of_nat (length l) in
  ((len <= index)%Z -> removeItem index st = st)
  /\ ((- len <= index < 0)%Z ->
        removeItem index st =
          setOrderData (with_items (delete (Z.to_nat (len + index)) l)) st)
  /\ ((index < - len)%Z ->
        removeItem index st = setOrderData (with_items (delete 0 l)) st).
Proof.
  intros Hmore l len. unfold removeItem.
  destruct (decide (length (items (orderData st)) = 1)) as [?|_]; [lia|].
  fold l. destruct (splice1_clamped index l) as (Hpast & Hneg & Hlow).
  fold len in Hpast, Hneg, Hlow. split; [|split]; intros Hi.
  - rewrite Hpast by exact Hi. apply keep_items.
  - by rewrite Hneg.
  - by rewrite Hlow.
Qed.

Lemma removeItem_index_clamped_witness :
  items (orderData (removeItem (-1) (with_order_items [blank_item; carbonara])))
  = [blank_item].
Proof.
  destruct (removeItem_index_clamped (with_order_items [blank_item; carbonara]) (-1))
    as (_ & H & _); [simpl; lia|].
  rewrite H; [reflexivity | simpl; lia].
Defined.

(** X10: in any session [addItem] appends one blank item, and removing
    the item just added, by its index or by the index -1, gives back the
    state as it was. *)
Theorem addItem_then_removeItem (evs : list Event) :
  let st := state (run evs) in
  let n := Z.of_nat (length (items (orderData st))) in
  items (orderData (addItem st)) = items (orderData st) ++ [blank_item]
  /\ removeItem n (addItem st) = st
  /\ removeItem (-1) (addItem st) = st.
Proof.
  intros st n. destruct (form_ok_run evs) as [Hlen _]. fold st in Hlen.
  split; [reflexivity|].
  assert (Hone : length (items (orderData (addItem st))) <> 1).
  { simpl. rewrite length_app. simpl. lia. }
  assert (Hdel : forall k, k = length (items (orderData st)) ->
    setOrderData (with_items (delete k (items (orderData (addItem st))))) (addItem st) = st).
  { intros k ->. simpl. rewrite delete_last. by destruct st as [[] ? ? ? ?]. }
  split.
  - unfold removeItem. destruct (decide _) as [?|_]; [done|].
    rewrite splice1_in_range.
    + apply Hdel. subst n. by rewrite Nat2Z.id.
    + subst n. simpl. rewrite length_app. simpl. lia.
  - assert (Hlen' : length (items (orderData (addItem st)))
                    = S (length (items (orderData st)))).
    { simpl. rewrite length_app. simpl. lia. }
    unfold removeItem. destruct (decide _) as [?|_]; [done|].
    destruct (splice1_clamped (-1) (items (orderData (addItem st))))
      as (_ & Hneg & _).
    rewrite Hneg by lia. apply Hdel. lia.
Qed.

(** X11: edits of the form compose as writes to separate fields: of two
    edits of one input the later wins, edits of different inputs commute,
    an edit of an input commutes with an edit of a row, and an edit of a
    row replaces the field of that row and leaves the other rows and the
    number of rows alone. *)
Theorem edits_compose (st : OrderForm.State) :
  (forall n v1 v2,
     handleInputChange n v2 (handleInputChange n v1 st) = handleInputChange n v2 st)
  /\ (forall n1 n2 v1 v2, n1 <> n2 ->
        handleInputChange n2 v2 (handleInputChange n1 v1 st)
        = handleInputChange n1 v1 (handleInputChange n2 v2 st))
  /\ (forall n v i e,
        (i < length (items (orderData st)))%nat ->
        handleItemChange i e (handleInputChange n v st)
        = handleInputChange n v <$> handleItemChange i e st)
  /\ (forall i e it,
        items (orderData st) !! i = Some it ->
        exists st',
          handleItemChange i e st = Some st'
          /\ items (orderData st') !! i = Some (with_field e it)
          /\ (forall j, j <> i ->
                items (orderData st') !! j = items (orderData st) !! j)
          /\ length (items (orderData st')) = length (items (orderData st))).
Proof.
  split; [|split; [|split]].
  - intros n v1 v2. by destruct n.
  - intros n1 n2 v1 v2 Hne. by destruct n1, n2.
  - intros n v i e Hi. unfold handleItemChange.
    assert (Hitems : items (orderData (handleInputChange n v st))
                     = items (orderData st)) by reflexivity.
    rewrite Hitems. destruct (items (orderData st) !! i); by destruct n.
  - intros i e it Hi. unfold handleItemChange. rewrite Hi.
    eexists. split; [reflexivity|]. simpl. split; [|split].
    + apply list_lookup_insert_eq. by eapply lookup_lt_Some.
    + intros j Hj. by apply list_lookup_insert_ne.
    + apply length_insert.
Qed.

(** *** The total and blank rows *)

Lemma add_zero (x : float) :
  match Prim2SF x with
  | S754_zero _ => Prim2SF (x + 0) = S754_zero false
  | _ => (x + 0)%float = x
  end.
Proof.
  pose proof (add_spec x 0) as H. change (Prim2SF 0) with (S754_zero false) in H.
  unfold SF64add, SFadd in H.
  destruct (Prim2SF x) as [s|s| |s m e] eqn:Hx.
  - by destruct s.
  - by rewrite <- (SF2Prim_Prim2SF (x + 0)), H, <- Hx, SF2Prim_Prim2SF.
  - by rewrite <- (SF2Prim_Prim2SF (x + 0)), H, <- Hx, SF2Prim_Prim2SF.
  - by rewrite <- (SF2Prim_Prim2SF (x + 0)), H, <- Hx, SF2Prim_Prim2SF.
Qed.

Lemma toFixed2_add_zero (x : float) : toFixed2 (x + 0) = toFixed2 x.
Proof.
  pose proof (add_zero x) as H. unfold toFixed2.
  destruct (Prim2SF x) eqn:Hx; rewrite ?H, ?Hx; reflexivity.
Qed.

(** X12: adding a blank item (quantity 1, price 0) never changes the
    total the form displays, whatever the items are. *)
Theorem blank_item_keeps_total (st : OrderForm.State) :
  calculateTotal (addItem st) = calculateTotal st.
Proof.
  unfold calculateTotal. cbn [addItem setOrderData with_items orderData items].
  rewrite order_sum_snoc.
  change (quantity blank_item * price blank_item)%float with 0%float.
  apply toFixed2_add_zero.
Qed.

End OrderFormSessions.

Section SuccessPanelProperties.
Import Js IntegrationService Async OrderForm.



End SuccessPanelProperties.

(** ** The connection manager: how the flows end *)

Section ResumeLast.
Import Async.
Context {St Op Val Err : Type}.

(** A waiter installed for a fresh call is the one its settling resumes. *)
Lemma resume_last (id : nat) (o : Outcome Err Val)
    (ws : list (Waiter St Op Val Err)) (k : Outcome Err Val -> Prog St Op Val Err) :
  Forall (fun w => react id o w = None) ws ->
  resume id o (ws ++ [WaitOne id k]) = (ws, k o).
Proof.
  induction 1 as [|w ws Hw Hws IH]; simpl.
  - by rewrite decide_True.
  - by rewrite Hw, IH.
Qed.

End ResumeLast.

Section PageFlows.
Import Js IntegrationService Async IntegrationsPage.

Lemma known_waiter_other (lg : list Entry) (n : nat) (w : PWaiter)
    (o : Outcome HttpError Payload) :
  (forall id op, Invoked id op ∈ lg -> id < n) -> 2 <= n ->
  known_waiter lg w -> react n o w = None.
Proof.
  intros Hfresh Hn. destruct w as [id k|id1 id2 g1 g2 k]; simpl.
  - intros (_ & op & Hop & _). specialize (Hfresh _ _ Hop).
    rewrite decide_False by lia. reflexivity.
  - intros (-> & -> & _). by rewrite !decide_False by lia.
Qed.

(** A fulfilled mutation issues the refresh; when the refresh settles,
    the rest of the handler runs. *)
Lemma settle_refresh (s : IntegrationsPage.Sys)
    (k : Outcome HttpError Payload -> IntegrationsPage.Prog)
    (o : Outcome HttpError Payload) :
  page_inv s ->
  settle (next_id s) o (exec (Await getConnections k) s) =
    exec (k o)
      {| state := state s; waiters := waiters s;
         in_flight := filter (fun i => i ≠ next_id s) (in_flight s ++ [next_id s]);
         next_id := S (next_id s);
         log := (log s ++ [Invoked (next_id s) getConnections])
                ++ [Settled (next_id s) o] |}.
Proof.
  intros [Hf Hu [H0 H1] Hw Hp Hff Hsf]. cbn [exec].
  assert (Hn : 2 <= next_id s) by (specialize (Hf _ _ H1); lia).
  rewrite settle_in_flight.
  2:{ cbn. apply elem_of_app. right. by left. }
  cbn [suspend invoke waiters state in_flight next_id log].
  rewrite resume_last; [reflexivity|].
  eapply Forall_impl; [exact Hw|]. intros w. by apply known_waiter_other.
Qed.

(** Settling an in-flight [disconnect] or [registerWebhook] resumes its
    handler. *)
Lemma settle_disconnect (s : IntegrationsPage.Sys) c cid o :
  page_inv s -> c ∈ in_flight s -> Invoked c (disconnect cid) ∈ log s ->
  exists ws,
    settle c o s = exec (disconnect_k o) (settled_pre s c o ws)
    /\ page_inv (settled_pre s c o ws).
Proof.
  intros Hinv Hin Hc.
  destruct (settle_resumes s c o Hinv Hin) as (ws & p & Hs & Hpre & Hge & _).
  destruct (Hge (call_id_ge_2 s c _ Hinv Hc eq_refl)) as (op & k & Hop & Hk & ->).
  destruct Hinv as [_ Hu _ _ _ _ _]. rewrite (Hu _ _ _ Hop Hc) in Hk. simpl in Hk.
  subst k. by exists ws.
Qed.

Lemma settle_register (s : IntegrationsPage.Sys) c path opts o :
  page_inv s -> c ∈ in_flight s -> Invoked c (registerWebhook path opts) ∈ log s ->
  exists ws,
    settle c o s = exec (register_k path o) (settled_pre s c o ws).
Proof.
  intros Hinv Hin Hc.
  destruct (settle_resumes s c o Hinv Hin) as (ws & p & Hs & Hpre & Hge & _).
  assert (H2 : 2 <= c).
  { pose proof Hinv as [_ Hu [H0 H1] _ _ _ _].
    destruct c as [|[|c]]; [| |lia].
    - by specialize (Hu _ _ _ Hc H0).
    - by specialize (Hu _ _ _ Hc H1). }
  destruct (Hge H2) as (op & k & Hop & Hk & ->).
  destruct Hinv as [_ Hu _ _ _ _ _]. rewrite (Hu _ _ _ Hop Hc) in Hk. simpl in Hk.
  subst k. by exists ws.
Qed.

(** X17: in any session, when a [connect] call in flight is fulfilled,
    nothing is set yet and the one [getConnections] refresh is issued.  If
    the refresh is fulfilled, its list replaces the connections, the
    notice names the adapter that was submitted, and the selection and the
    credentials are reset.  If the refresh is rejected, the form shows a
    connect error (the server's message or the generic text) although the
    connection was made, and the notice, list, selection and credentials
    stay.  Either way the form stops submitting. *)
Theorem connect_then_refresh (evs : list Event) (c : nat) (sel : string)
    (creds : gmap string string) (v : Payload) (o : Outcome HttpError Payload) :
  c ∈ in_flight (run evs) ->
  Invoked c (connect sel creds) ∈ log (run evs) ->
  let s := run evs in
  let s1 := step s (Settle c (Fulfilled v)) in
  let s2 := step s1 (Settle (next_id s) o) in
  state s1 = state s
  /\ log s1 = log s ++ [Settled c (Fulfilled v); Invoked (next_id s) getConnections]
  /\ match o with
     | Fulfilled updatedConnections =>
         connections (state s2) = connections_of updatedConnections
         /\ formSuccess (state s2) = Some ("Successfully connected to " +:+ sel)
         /\ selectedAdapter (state s2) = ""
         /\ credentials (state s2) = ∅
         /\ formError (state s2) = formError (state s)
     | Rejected err =>
         formError (state s2) =
           Some (or_else (error_message err) (JStr connect_failed))
         /\ formSuccess (state s2) = formSuccess (state s)
         /\ connections (state s2) = connections (state s)
         /\ selectedAdapter (state s2) = selectedAdapter (state s)
         /\ credentials (state s2) = credentials (state s)
     end
  /\ isSubmitting (state s2) = false
  /\ next_id s2 = S (next_id s).
Proof.
  intros Hin Hc s s1 s2. subst s1 s2. cbn [step].
  destruct (settle_connect s c sel creds (Fulfilled v) (page_inv_run evs) Hin Hc)
    as (ws & -> & Hpre).
  rewrite connect_k_fulfilled.
  split; [reflexivity|]. split; [simpl; by rewrite <- app_assoc|].
  change (next_id s) with (next_id (settled_pre s c (Fulfilled v) ws)).
  rewrite (settle_refresh _ _ o Hpre).
  destruct o as [updatedConnections|err]; simpl; by repeat split.
Qed.

Lemma connect_then_refresh_witness :
  formError (state (fold_left step
    [Settle 2 (Fulfilled (Ack JNull)); Settle 3 (Rejected network_down)]
    (run connecting)))
  = Some (JStr connect_failed).
Proof.
  assert (Hin : 2 ∈ in_flight (run connecting)) by (vm_compute; left).
  assert (Hc : Invoked 2 (connect "square" typed_credentials)
               ∈ log (run connecting)).
  { vm_compute. do 4 right. left. }
  destruct (connect_then_refresh connecting 2 _ _ (Ack JNull)
              (Rejected network_down) Hin Hc) as (_ & _ & (H & _) & _).
  exact H.
Defined.

(** X18: in any session, a rejected [disconnect] call puts the server's
    message or "Failed to disconnect. Please try again." into the connect
    form's error and leaves the connections and the notice; a fulfilled one
    sets nothing and issues the refresh, whose list then replaces the
    connections under the notice "Successfully disconnected", or whose
    failure is reported like a failed disconnect.  Either way the loading
    flag is cleared. *)
Theorem disconnect_outcome (evs : list Event) (c : nat) (cid : string) :
  c ∈ in_flight (run evs) ->
  Invoked c (disconnect cid) ∈ log (run evs) ->
  let s := run evs in
  (forall err : HttpError,
     let s1 := step s (Settle c (Rejected err)) in
     formError (state s1) =
       Some (or_else (error_message err) (JStr disconnect_failed))
     /\ loading (state s1) = false
     /\ connections (state s1) = connections (state s)
     /\ formSuccess (state s1) = formSuccess (state s)
     /\ next_id s1 = next_id s)
  /\ (forall (v : Payload) (o : Outcome HttpError Payload),
        let s1 := step s (Settle c (Fulfilled v)) in
        let s2 := step s1 (Settle (next_id s) o) in
        state s1 = state s
        /\ log s1 = log s ++ [Settled c (Fulfilled v); Invoked (next_id s) getConnections]
        /\ match o with
           | Fulfilled updatedConnections =>
               connections (state s2) = connections_of updatedConnections
               /\ formSuccess (state s2) = Some "Successfully disconnected"
               /\ formError (state s2) = formError (state s)
           | Rejected err =>
               formError (state s2) =
                 Some (or_else (error_message err) (JStr disconnect_failed))
               /\ formSuccess (state s2) = formSuccess (state s)
               /\ connections (state s2) = connections (state s)
           end
        /\ loading (state s2) = false).
Proof.
  intros Hin Hc s. split.
  - intros err s1. subst s1. cbn [step].
    destruct (settle_disconnect s c cid (Rejected err) (page_inv_run evs) Hin Hc)
      as (ws & -> & _).
    simpl. by repeat split.
  - intros v o s1 s2. subst s1 s2. cbn [step].
    destruct (settle_disconnect s c cid (Fulfilled v) (page_inv_run evs) Hin Hc)
      as (ws & -> & Hpre).
    rewrite disconnect_k_fulfilled.
    split; [reflexivity|]. split; [simpl; by rewrite <- app_assoc|].
    change (next_id s) with (next_id (settled_pre s c (Fulfilled v) ws)).
    rewrite (settle_refresh _ _ o Hpre).
    destruct o as [updatedConnections|err]; simpl; by repeat split.
Qed.

(** X19: in any session, when a [registerWebhook] call in flight
    settles: on success the notice names the path that was submitted and
    the webhook form is reset; on failure the error is the server's
    message or the generic text and the form keeps its path and options.
    Either way the form stops registering, no call is issued and the
    connections are untouched. *)
Theorem register_outcome (evs : list Event) (c : nat) (path : string)
    (opts : gmap string json) (o : Outcome HttpError Payload) :
  c ∈ in_flight (run evs) ->
  Invoked c (registerWebhook path opts) ∈ log (run evs) ->
  let s := run evs in
  let s1 := step s (Settle c o) in
  match o with
  | Fulfilled _ =>
      webhookSuccess (state s1) = Some ("Successfully registered webhook at " +:+ path)
      /\ webhookPath (state s1) = ""
      /\ webhookOptions (state s1) = {| description := ""; events := [] |}
      /\ webhookError (state s1) = webhookError (state s)
  | Rejected err =>
      webhookError (state s1) =
        Some (or_else (error_message err) (JStr register_failed))
      /\ webhookPath (state s1) = webhookPath (state s)
      /\ webhookOptions (state s1) = webhookOptions (state s)
      /\ webhookSuccess (state s1) = webhookSuccess (state s)
  end
  /\ isRegisteringWebhook (state s1) = false
  /\ next_id s1 = next_id s
  /\ connections (state s1) = connections (state s).
Proof.
  intros Hin Hc s s1. subst s1. cbn [step].
  destruct (settle_register s c path opts o (page_inv_run evs) Hin Hc) as (ws & ->).
  destruct o as [v|err]; simpl; by repeat split.
Qed.


Lemma disconnect_outcome_witness :
  loading (state (step (run [Settle 0 (Fulfilled (AdapterList [square; sendgrid]));
                             Settle 1 (Fulfilled (ConnectionList [square_pos]));
                             ClickDisconnect "conn_123" true])
                    (Settle 2 (Rejected network_down)))) = false.
Proof.
  pose (evs := [Settle 0 (Fulfilled (AdapterList [square; sendgrid]));
                Settle 1 (Fulfilled (ConnectionList [square_pos]));
                ClickDisconnect "conn_123" true]).
  assert (Hin : 2 ∈ in_flight (run evs)) by (vm_compute; left).
  assert (Hc : Invoked 2 (disconnect "conn_123") ∈ log (run evs)).
  { vm_compute. do 4 right. left. }
  destruct (disconnect_outcome evs 2 "conn_123" Hin Hc) as [H _].
  destruct (H network_down) as (_ & Hl & _). exact Hl.
Defined.

Lemma register_outcome_witness :
  webhookPath (state (step (run [Settle 0 (Fulfilled (AdapterList [square; sendgrid]));
                                 Settle 1 (Fulfilled (ConnectionList [square_pos]));
                                 WebhookPathChange "/api/webhooks/orders";
                                 SubmitRegisterWebhook])
                        (Settle 2 (Fulfilled (Ack JNull))))) = "".
Proof.
  pose (evs := [Settle 0 (Fulfilled (AdapterList [square; sendgrid]));
                Settle 1 (Fulfilled (ConnectionList [square_pos]));
                WebhookPathChange "/api/webhooks/orders"; SubmitRegisterWebhook]).
  assert (Hin : 2 ∈ in_flight (run evs)) by (vm_compute; left).
  assert (Hc : Invoked 2 (registerWebhook "/api/webhooks/orders"
                            (options_object {| description := ""; events := [] |}))
               ∈ log (run evs)).
  { vm_compute. do 4 right. left. }
  destruct (register_outcome evs 2 _ _ (Fulfilled (Ack JNull)) Hin Hc)
    as ((_ & H & _) & _).
  exact H.
Defined.

(** X20: typing a credential and submitting the connect form issues one
    [connect] call for the selected adapter, a POST to
    [/api/integration/connect/<adapter>] whose body holds the value typed
    under the field's name and every other credential as it was. *)
Theorem connect_carries_credentials (s : IntegrationsPage.Sys) (name value : string) :
  selectedAdapter (state s) <> "" ->
  let sel := selectedAdapter (state s) in
  let creds := <[name := value]> (credentials (state s)) in
  let s' := step (step s (CredentialChange name value)) SubmitConnect in
  log s' = log s ++ [Invoked (next_id s) (connect sel creds)]
  /\ request (connect sel creds) =
       {| verb := POST; url := "/api/integration/connect/" +:+ sel;
          body := Some (JObj (JStr <$> creds)) |}
  /\ get name (body (request (connect sel creds))) = Some (JStr value)
  /\ (forall k, k <> name ->
        get k (body (request (connect sel creds)))
        = JStr <$> credentials (state s) !! k)
  /\ isSubmitting (state s') = true
  /\ formError (state s') = None.
Proof.
  intros Hsel sel creds s'. subst s'. cbn [step].
  rewrite exec_handleConnect. cbn [with_state state handleCredentialChange
    setCredentials selectedAdapter credentials].
  fold sel. fold creds.
  destruct sel eqn:Hs; [done|]. cbn [truthy_string].
  split; [reflexivity|]. split; [reflexivity|].
  split; [|split; [|split; reflexivity]].
  - simpl. subst creds. by rewrite lookup_fmap, lookup_insert_eq.
  - intros k Hk. simpl. subst creds. by rewrite lookup_fmap, lookup_insert_ne.
Qed.

Lemma connect_carries_credentials_witness :
  let s := run [Settle 0 (Fulfilled (AdapterList [square; sendgrid]));
                Settle 1 (Fulfilled (ConnectionList []));
                AdapterChange "square"] in
  isSubmitting (state (step (step s (CredentialChange "apiKey" "k")) SubmitConnect))
  = true.
Proof.
  intros s.
  destruct (connect_carries_credentials s "apiKey" "k") as (_ & _ & _ & _ & H & _);
    [vm_compute; discriminate | exact H].
Defined.

End PageFlows.

Section RegisterRequest.
Import Js IntegrationService Async IntegrationsPage.

(** X26: submitting the webhook form with a path issues one
    [registerWebhook] call whose request is a POST to
    [/api/integration/webhooks/register] with exactly the three entries
    [path], [description] and [events] of the form as body. *)
Theorem register_request_body (s : IntegrationsPage.Sys) :
  webhookPath (state s) <> "" ->
  let path := webhookPath (state s) in
  let options := webhookOptions (state s) in
  let call := registerWebhook path (options_object options) in
  log (step s SubmitRegisterWebhook) = log s ++ [Invoked (next_id s) call]
  /\ request call =
       {| verb := POST; url := "/api/integration/webhooks/register";
          body := Some (JObj (list_to_map
            [("path", JStr path);
             ("description", JStr (description options));
             ("events", JArr (JStr <$> events options))])) |}
  /\ isRegisteringWebhook (state (step s SubmitRegisterWebhook)) = true
  /\ webhookError (state (step s SubmitRegisterWebhook)) = None.
Proof.
  intros Hpath path options call. cbn [step].
  rewrite exec_handleRegisterWebhook. fold path. fold options.
  destruct path eqn:Hp; [done|]. cbn [truthy_string].
  split; [reflexivity|]. split; [|by split].
  reflexivity.
Qed.

Lemma register_request_body_witness :
  isRegisteringWebhook
    (state (run [WebhookPathChange "/api/webhooks/orders"; SubmitRegisterWebhook]))
  = true.
Proof.
  destruct (register_request_body (run [WebhookPathChange "/api/webhooks/orders"]))
    as (_ & _ & H & _); [vm_compute; discriminate | exact H].
Defined.

End RegisterRequest.

(** ** The connection manager: the data of the initial load *)

Section LoadData.
Import Js IntegrationService Async IntegrationsPage.

Lemma not_rejected_fulfilled (lg : list Entry) i v :
  ~ some_rejected lg -> ~ some_rejected (lg ++ [Settled i (Fulfilled v)]).
Proof.
  intros Hno (j & e & Hj & Hin). apply Hno. exists j, e. split; [exact Hj|].
  apply elem_of_app in Hin as [Hin|Hin]; [exact Hin|].
  apply list_elem_of_singleton in Hin. discriminate Hin.
Qed.

Lemma load_data_settle (s : IntegrationsPage.Sys) id o :
  load_data s -> load_data (settle id o s).
Proof.
  intros [Hw Hf Hs Hno | v Hw Hf Hs Hno Hv | v Hw Hf Hs Hno Hv | Hw Hs Hrej
         | v0 v1 Hw Hf Hs Hno H0 H1].
  - destruct id as [|[|id]].
    + rewrite settle_in_flight by (rewrite Hf; left).
      rewrite Hw. simpl. destruct o as [v|e]; simpl.
      * eapply data_adapters; simpl; rewrite ?Hf, ?Hs; try reflexivity;
          [by apply not_rejected_fulfilled | solve_in].
      * apply data_failed; simpl; rewrite ?Hs; try reflexivity.
        exists 0, e. split; [lia|]. solve_in.
    + rewrite settle_in_flight by (rewrite Hf; right; left).
      rewrite Hw. simpl. destruct o as [v|e]; simpl.
      * eapply data_connections; simpl; rewrite ?Hf, ?Hs; try reflexivity;
          [by apply not_rejected_fulfilled | solve_in].
      * apply data_failed; simpl; rewrite ?Hs; try reflexivity.
        exists 1, e. split; [lia|]. solve_in.
    + rewrite settle_not_in_flight; [by apply data_pending|].
      rewrite Hf. intros Hin. in_list Hin; discriminate Hin.
  - destruct (decide (id = 1)) as [->|Hne].
    + rewrite settle_in_flight by (rewrite Hf; left).
      rewrite Hw. simpl. destruct o as [v1|e]; simpl.
      * apply (data_loaded _ v v1); simpl; rewrite ?Hf, ?Hs; try reflexivity;
          [by apply not_rejected_fulfilled | solve_in | solve_in].
      * apply data_failed; simpl; rewrite ?Hs; try reflexivity.
        exists 1, e. split; [lia|]. solve_in.
    + rewrite settle_not_in_flight; [by eapply data_adapters|].
      rewrite Hf. intros Hin. in_list Hin; contradiction.
  - destruct (decide (id = 0)) as [->|Hne].
    + rewrite settle_in_flight by (rewrite Hf; left).
      rewrite Hw. simpl. destruct o as [v0|e]; simpl.
      * apply (data_loaded _ v0 v); simpl; rewrite ?Hf, ?Hs; try reflexivity;
          [by apply not_rejected_fulfilled | solve_in | solve_in].
      * apply data_failed; simpl; rewrite ?Hs; try reflexivity.
        exists 0, e. split; [lia|]. solve_in.
    + rewrite settle_not_in_flight; [by eapply data_connections|].
      rewrite Hf. intros Hin. in_list Hin; contradiction.
  - destruct (decide (id ∈ in_flight s)) as [Hin|Hout];
      [|rewrite settle_not_in_flight by done; by apply data_failed].
    rewrite settle_in_flight by done. rewrite Hw. simpl.
    apply data_failed; simpl; try done.
    destruct Hrej as (i & e & Hi & Hin'). exists i, e. split; [done|].
    apply elem_of_app. by left.
  - rewrite settle_not_in_flight; [by eapply data_loaded|].
    rewrite Hf. apply not_elem_of_nil.
Qed.

Lemma load_data_run (outs : list (nat * Outcome HttpError Payload)) :
  load_data (run (settlings outs)).
Proof.
  unfold run, settlings. induction outs as [|[id o] outs IH] using rev_ind; simpl.
  - apply data_pending; try reflexivity.
    intros (i & e & _ & Hin). simpl in Hin. in_list Hin; discriminate Hin.
  - rewrite fmap_app, fold_left_app. simpl. apply load_data_settle, IH.
Qed.

(** X24: during the activation the two lists are set together or not at
    all.  Once one of the two fetches has failed the page shows the error
    with both lists empty, even when the other fetch has delivered its
    list; without a failure the lists are empty while the page loads, and
    they are the two lists that arrived once it has loaded. *)
Theorem load_outcome (outs : list (nat * Outcome HttpError Payload)) :
  let s := run (settlings outs) in
  let st := state s in
  (some_rejected (log s) ->
     adapters st = [] /\ connections st = []
     /\ error st = Some load_failed /\ shows_spinner st = false)
  /\ (~ some_rejected (log s) ->
        (loading st = true /\ adapters st = [] /\ connections st = [])
        \/ exists v0 v1,
             Settled 0 (Fulfilled v0) ∈ log s /\ Settled 1 (Fulfilled v1) ∈ log s
             /\ adapters st = adapters_of v0
             /\ connections st = connections_of v1
             /\ loading st = false /\ error st = None)
  /\ (forall (l : list Adapter.t) (e : HttpError),
        let partial := run (settlings [(0, Fulfilled (AdapterList l)); (1, Rejected e)]) in
        adapters (state partial) = [] /\ error (state partial) = Some load_failed).
Proof.
  intros s st. split; [|split].
  - intros Hrej.
    destruct (load_data_run outs)
      as [Hw Hf Hs Hno | v Hw Hf Hs Hno Hv | v Hw Hf Hs Hno Hv | Hw Hs Hr
         | v0 v1 Hw Hf Hs Hno H0 H1]; try contradiction.
    subst st. fold s in Hs. by rewrite Hs.
  - intros Hno.
    destruct (load_data_run outs)
      as [Hw Hf Hs _ | v Hw Hf Hs _ Hv | v Hw Hf Hs _ Hv | Hw Hs Hr
         | v0 v1 Hw Hf Hs _ H0 H1]; try contradiction;
      subst st; fold s in Hs.
    + left. by rewrite Hs.
    + left. by rewrite Hs.
    + left. by rewrite Hs.
    + right. exists v0, v1. rewrite Hs. by repeat split.
  - intros l e partial. by split.
Qed.

End LoadData.

(** ** The connection manager: the success notices *)

Section NoticeTimers.
Import Js IntegrationService Async IntegrationsPage.
Local Open Scope Z_scope.

Lemma effect_ok (before after : option string) (timer : option Z) :
  timer_ok before timer -> timer_ok after (effect before after timer).
Proof.
  unfold effect. destruct (decide (before = after)) as [->|Hne]; [done|].
  intros _. destruct after as [s|]; [|done]. simpl.
  destruct (truthy_string s) eqn:Hs; simpl; rewrite ?Hs; [|done].
  unfold NOTICE_MS. split; [lia | done].
Qed.

Lemma rendered_ok (before after : IntegrationsPage.Sys) (m : Timed) :
  timer_ok (formSuccess (state before)) (formTimer m) ->
  timer_ok (webhookSuccess (state before)) (webhookTimer m) ->
  timers_ok (rendered before after m).
Proof. intros Hf Hw. split; by apply effect_ok. Qed.

Lemma form_tick_ok (m : Timed) : timers_ok m -> timers_ok (form_tick m).
Proof.
  destruct m as [p ft wt]. intros [Hf Hw]. unfold form_tick. simpl in *.
  destruct ft as [r|]; [|by split].
  destruct (decide (r <= 1)) as [Hdue|Hlater].
  - split; [|by apply effect_ok].
    cbn [rendered page formTimer with_state state].
    unfold effect. by destruct (decide _).
  - split; [|exact Hw]. simpl. destruct Hf as [Hrange Hb]. split; [lia | done].
Qed.

Lemma webhook_tick_ok (m : Timed) : timers_ok m -> timers_ok (webhook_tick m).
Proof.
  destruct m as [p ft wt]. intros [Hf Hw]. unfold webhook_tick. simpl in *.
  destruct wt as [r|]; [|by split].
  destruct (decide (r <= 1)) as [Hdue|Hlater].
  - split; [by apply effect_ok|].
    cbn [rendered page webhookTimer with_state state].
    unfold effect. by destruct (decide _).
  - split; [exact Hf|]. simpl. destruct Hw as [Hrange Hb]. split; [lia | done].
Qed.

Lemma timed_tick_ok (m : Timed) : timers_ok m -> timers_ok (timed_tick m).
Proof. intros Hm. by apply webhook_tick_ok, form_tick_ok. Qed.

Lemma elapse_ok (ms : Z) (m : Timed) : timers_ok m -> timers_ok (elapse ms m).
Proof.
  intros Hm. unfold elapse. induction (Z.to_nat ms) as [|n IH]; [exact Hm|].
  simpl. by apply timed_tick_ok.
Qed.

Lemma timed_step_ok (m : Timed) (tev : TimedEvent) :
  timers_ok m -> timers_ok (timed_step m tev).
Proof.
  intros Hm. pose proof Hm as [Hf Hw].
  destruct tev as [ev|ms]; [|by apply elapse_ok].
  destruct ev; cbn [timed_step]; try exact Hm; by apply rendered_ok.
Qed.

Lemma timed_run_ok (tevs : list TimedEvent) : timers_ok (timed_run tevs).
Proof.
  unfold timed_run. induction tevs as [|tev tevs IH] using rev_ind.
  - by split.
  - rewrite fold_left_app. by apply timed_step_ok.
Qed.


Lemma effect_same (notice : option string) (timer : option Z) :
  effect notice notice timer = timer.
Proof. unfold effect. by rewrite decide_True. Qed.

Lemma effect_cleared (before : option string) : effect before None None = None.
Proof. unfold effect. by destruct (decide _). Qed.

Lemma form_notice_tick (m : Timed) :
  form_notice (timed_tick m) = notice_tick (form_notice m).
Proof.
  destruct m as [p ft wt]. unfold timed_tick, form_notice, notice_tick.
  assert (Hw : forall m', form_notice (webhook_tick m') = form_notice m').
  { intros [p' ft' wt']. unfold webhook_tick, form_notice. simpl.
    destruct wt' as [r|]; [|reflexivity].
    destruct (decide (r <= 1)); [|reflexivity]. simpl. by rewrite effect_same. }
  unfold form_notice in Hw. rewrite Hw. unfold form_tick. simpl.
  destruct ft as [r|]; [|reflexivity].
  destruct (decide (r <= 1)); [|reflexivity]. simpl. by rewrite effect_cleared.
Qed.

Lemma webhook_notice_tick (m : Timed) :
  webhook_notice (timed_tick m) = notice_tick (webhook_notice m).
Proof.
  unfold timed_tick.
  assert (Hf : webhook_notice (form_tick m) = webhook_notice m).
  { destruct m as [p ft wt]. unfold form_tick, webhook_notice. simpl.
    destruct ft as [r|]; [|reflexivity].
    destruct (decide (r <= 1)); [|reflexivity]. simpl. by rewrite effect_same. }
  rewrite <- Hf. destruct (form_tick m) as [p ft wt].
  unfold webhook_tick, webhook_notice, notice_tick. simpl.
  destruct wt as [r|]; [|reflexivity].
  destruct (decide (r <= 1)); [|reflexivity]. simpl. by rewrite effect_cleared.
Qed.

(** [k] milliseconds on a notice whose timeout fires in [r]. *)
Lemma notice_ticks (k : nat) (notice : option string) (r : Z) :
  0 < r ->
  Nat.iter k notice_tick (notice, Some r) =
    if decide (r <= Z.of_nat k) then (None, None)
    else (notice, Some (r - Z.of_nat k)).
Proof.
  intros Hr. induction k as [|k IH].
  - simpl. rewrite decide_False by lia. by rewrite Z.sub_0_r.
  - rewrite Nat2Z.inj_succ, Nat.iter_succ, IH.
    destruct (decide (r <= Z.of_nat k)).
    + rewrite decide_True by lia. reflexivity.
    + unfold notice_tick. cbn [fst snd].
      destruct (decide (r - Z.of_nat k <= 1)).
      * rewrite decide_True by lia. reflexivity.
      * rewrite decide_False by lia. do 2 f_equal. lia.
Qed.

Lemma notice_ticks_idle (k : nat) (notice : option string) :
  Nat.iter k notice_tick (notice, None) = (notice, None).
Proof. induction k as [|k IH]; [reflexivity|]. simpl. by rewrite IH. Qed.

Lemma form_notice_elapse (ms : Z) (m : Timed) :
  form_notice (elapse ms m) = Nat.iter (Z.to_nat ms) notice_tick (form_notice m).
Proof.
  unfold elapse. induction (Z.to_nat ms) as [|k IH]; [reflexivity|].
  by rewrite !Nat.iter_succ, form_notice_tick, IH.
Qed.

Lemma webhook_notice_elapse (ms : Z) (m : Timed) :
  webhook_notice (elapse ms m)
  = Nat.iter (Z.to_nat ms) notice_tick (webhook_notice m).
Proof.
  unfold elapse. induction (Z.to_nat ms) as [|k IH]; [reflexivity|].
  by rewrite !Nat.iter_succ, webhook_notice_tick, IH.
Qed.

(** What time does to a notice that agrees with its timeout. *)
Lemma notice_after (ms : Z) (notice : option string) (timer : option Z) :
  timer_ok notice timer ->
  let after := Nat.iter (Z.to_nat ms) notice_tick (notice, timer) in
  (NOTICE_MS <= ms -> notice_banner after.1 = None)
  /\ (forall r, timer = Some r -> ms < r -> after.1 = notice)
  /\ (forall r, timer = Some r -> r <= ms -> after.1 = None).
Proof.
  intros Hok after. subst after. destruct timer as [r|]; simpl in Hok.
  - destruct Hok as [Hr Hb]. rewrite notice_ticks by lia.
    split; [|split].
    + intros Hms. rewrite decide_True by lia. reflexivity.
    + intros r' [= <-] Hlt. rewrite decide_False by lia. reflexivity.
    + intros r' [= <-] Hle. rewrite decide_True by lia. reflexivity.
  - rewrite notice_ticks_idle. by repeat split.
Qed.

(** X21: whatever has happened to the page, a success notice that shows
    has its timeout set, firing within 5000 ms.  While only time passes, a
    notice whose timeout fires in [r] milliseconds stays until then and is
    gone from then on; so after 5000 ms without another event neither
    success banner shows. *)
Theorem notices_auto_hide (tevs : list TimedEvent) :
  let m := timed_run tevs in
  (forall notice, notice_banner (formSuccess (state (page m))) = Some notice ->
     exists r, formTimer m = Some r /\ 0 < r <= 5000)
  /\ (forall notice, notice_banner (webhookSuccess (state (page m))) = Some notice ->
        exists r, webhookTimer m = Some r /\ 0 < r <= 5000)
  /\ (forall r ms, formTimer m = Some r ->
        let m' := timed_step m (Elapse ms) in
        (ms < r -> formSuccess (state (page m')) = formSuccess (state (page m)))
        /\ (r <= ms -> formSuccess (state (page m')) = None))
  /\ (forall r ms, webhookTimer m = Some r ->
        let m' := timed_step m (Elapse ms) in
        (ms < r -> webhookSuccess (state (page m')) = webhookSuccess (state (page m)))
        /\ (r <= ms -> webhookSuccess (state (page m')) = None))
  /\ notice_banner (formSuccess (state (page (timed_step m (Elapse 5000))))) = None
  /\ notice_banner (webhookSuccess (state (page (timed_step m (Elapse 5000))))) = None.
Proof.
  intros m. destruct (timed_run_ok tevs) as [Hf Hw]. fold m in Hf, Hw.
  pose proof (fun ms => notice_after ms _ _ Hf) as Hfa.
  pose proof (fun ms => notice_after ms _ _ Hw) as Hwa.
  cbn [timed_step].
  assert (Hfe : forall ms, formSuccess (state (page (elapse ms m)))
    = (Nat.iter (Z.to_nat ms) notice_tick
         (formSuccess (state (page m)), formTimer m)).1).
  { intros ms. pose proof (form_notice_elapse ms m) as H.
    unfold form_notice in H. by rewrite <- H. }
  assert (Hwe : forall ms, webhookSuccess (state (page (elapse ms m)))
    = (Nat.iter (Z.to_nat ms) notice_tick
         (webhookSuccess (state (page m)), webhookTimer m)).1).
  { intros ms. pose proof (webhook_notice_elapse ms m) as H.
    unfold webhook_notice in H. by rewrite <- H. }
  split; [|split; [|split; [|split; [|split]]]].
  - intros notice Hn. unfold timer_ok, NOTICE_MS in Hf.
    destruct (formTimer m) as [r|]; [|congruence].
    exists r. by destruct Hf.
  - intros notice Hn. unfold timer_ok, NOTICE_MS in Hw.
    destruct (webhookTimer m) as [r|]; [|congruence].
    exists r. by destruct Hw.
  - intros r ms Hr. rewrite Hfe.
    destruct (Hfa ms) as (_ & Hlt & Hge). split; intros; eauto.
  - intros r ms Hr. rewrite Hwe.
    destruct (Hwa ms) as (_ & Hlt & Hge). split; intros; eauto.
  - rewrite Hfe. destruct (Hfa 5000) as (H & _). apply H. unfold NOTICE_MS. lia.
  - rewrite Hwe. destruct (Hwa 5000) as (H & _). apply H. unfold NOTICE_MS. lia.
Qed.

End NoticeTimers.

(** ** The webhook monitor: what it shows *)

Section MonitorView.
Import Js IntegrationService Async WebhookEventsComponent.

Lemma unique_spec {A} `{EqDecision A} (l seen : list A) :
  let r := fold_left
    (fun seen x => if decide (x ∈ seen) then seen else seen ++ [x]) l seen in
  NoDup seen -> NoDup r /\ forall x, x ∈ r <-> x ∈ seen \/ x ∈ l.
Proof.
  revert seen. induction l as [|y l IH]; intros seen r Hnd; subst r; simpl.
  - split; [exact Hnd|]. intros x. rewrite elem_of_nil. tauto.
  - destruct (decide (y ∈ seen)) as [Hin|Hout].
    + destruct (IH seen Hnd) as [Hr Hx]. split; [exact Hr|].
      intros x. rewrite Hx, elem_of_cons. split; [tauto|].
      intros [?|[->|?]]; tauto.
    + assert (Hnd' : NoDup (seen ++ [y])).
      { apply NoDup_app. split; [exact Hnd|]. split; [|apply NoDup_singleton].
        intros x Hx ->%list_elem_of_singleton. contradiction. }
      destruct (IH _ Hnd') as [Hr Hx]. split; [exact Hr|].
      intros x. rewrite Hx, elem_of_app, !elem_of_cons, elem_of_nil. tauto.
Qed.

Lemma unique_NoDup {A} `{EqDecision A} (l : list A) : NoDup (unique l).
Proof. apply (unique_spec l []). constructor. Qed.

Lemma elem_of_unique {A} `{EqDecision A} (l : list A) (x : A) :
  x ∈ unique l <-> x ∈ l.
Proof.
  destruct (unique_spec l [] (NoDup_nil_2)) as [_ Hx]. rewrite (Hx x).
  rewrite elem_of_nil. tauto.
Qed.

Lemma arrived_app l1 l2 : arrived (l1 ++ l2) = arrived l1 ++ arrived l2.
Proof. apply omap_app. Qed.

Lemma arrived_silent l : Forall silent l -> arrived l = [].
Proof.
  induction 1 as [|entry l Hentry _ IH]; [reflexivity|].
  destruct entry; try done; exact IH.
Qed.

(** The log after the response of a fetch in flight has arrived. *)
Lemma settle_fetch_arrived (s : WebhookEventsComponent.Sys) (id : nat) (o : Response) :
  fetching s -> id ∈ in_flight s ->
  arrived (log (settle id o s)) = arrived (log s) ++ [o].
Proof.
  intros [Hw Hf] Hin. rewrite settle_in_flight by exact Hin.
  destruct (resume_spec id o (waiters s))
    as [[_ Hnone] | (l1 & w & l2 & rest & p & Hsplit & _ & Hreact & ->)].
  { rewrite Forall_forall in Hnone. specialize (Hnone _ (Hf id Hin)).
    simpl in Hnone. by rewrite decide_True in Hnone. }
  simpl. rewrite Hsplit in Hw. apply Forall_app in Hw as [Hw1 Hw2].
  apply Forall_cons in Hw2 as [[id' ->] Hw2]. simpl in Hreact.
  destruct (decide (id = id')) as [<-|]; [|discriminate].
  injection Hreact as <- <-.
  match goal with |- context [exec (fetch_k o) ?pre] => set (s0 := pre) end.
  destruct (exec_quiet (fetch_k o) s0 (fetch_k_quiet o))
    as (_ & _ & _ & l & -> & Hl).
  subst s0. simpl. rewrite !arrived_app, (arrived_silent l Hl), app_nil_r.
  reflexivity.
Qed.

Lemma last_snapshot_snoc (rs : list Response) (o : Response) :
  last_snapshot (rs ++ [o]) =
  match o with Fulfilled l => l | Rejected _ => last_snapshot rs end.
Proof. unfold last_snapshot. by rewrite fold_left_app. Qed.

Lemma shows_arrivals_settle (s : WebhookEventsComponent.Sys) (id : nat) (o : Response) :
  fetching s -> shows_arrivals s -> shows_arrivals (settle id o s).
Proof.
  intros Hs (Hev & Hsrc & Hld & Herr).
  destruct (decide (id ∈ in_flight s)) as [Hin|Hout];
    [|by rewrite settle_not_in_flight].
  unfold shows_arrivals.
  destruct (settle_fetch s id o Hs Hin) as (-> & _).
  rewrite (settle_fetch_arrived s id o Hs Hin), last_snapshot_snoc, last_snoc.
  assert (Hne : bool_decide (arrived (log s) ++ [o] = []) = false).
  { apply bool_decide_eq_false. by destruct (arrived (log s)). }
  rewrite Hne. destruct o as [l|e]; simpl; by repeat split.
Qed.

Lemma shows_arrivals_fetch (s : WebhookEventsComponent.Sys) :
  shows_arrivals s -> shows_arrivals (exec fetchWebhookEvents s).
Proof.
  intros Hs. rewrite exec_fetchWebhookEvents. unfold shows_arrivals. simpl.
  rewrite arrived_app. simpl. by rewrite app_nil_r.
Qed.

Lemma shows_arrivals_tick (m : Monitor) :
  shows_arrivals (sys m) -> shows_arrivals (sys (tick m)).
Proof.
  intros Hm. unfold tick. destruct (pollingInterval m) as [r|]; [|exact Hm].
  destruct (decide (r <= 1)%Z); simpl; [by apply shows_arrivals_fetch | exact Hm].
Qed.

Lemma shows_arrivals_step (m : Monitor) (ev : Event) :
  mounted m = true -> ev <> Unmount ->
  fetching (sys m) -> shows_arrivals (sys m) -> shows_arrivals (sys (step m ev)).
Proof.
  intros Hmt Hev Hf Hm. destruct ev as [ms|id o|src|]; cbn [step]; [| | |done].
  - unfold advance. induction (Z.to_nat ms) as [|n IH]; [exact Hm|].
    simpl. by apply shows_arrivals_tick.
  - unfold deliver. rewrite Hmt. by apply shows_arrivals_settle.
  - unfold select_filter. by rewrite Hmt.
Qed.

Lemma shows_arrivals_run (evs : list Event) :
  Forall (fun ev => ev <> Unmount) evs -> shows_arrivals (sys (run evs)).
Proof.
  induction evs as [|ev evs IH] using rev_ind; intros Hevs.
  - by repeat split.
  - apply Forall_app in Hevs as [Hevs Hev]. rewrite Forall_singleton in Hev.
    destruct (polling_run evs Hevs) as (_ & Hmt & Hf & _).
    unfold run in *. rewrite fold_left_app. cbn [fold_left].
    by apply shows_arrivals_step; [| | |apply IH].
Qed.

Lemma while_mounted_live (evs : list Event) :
  Forall (fun ev => ev <> Unmount) (while_mounted evs).
Proof.
  induction evs as [|ev evs IH]; [constructor|].
  destruct ev; simpl; by constructor.
Qed.

Lemma while_mounted_split (evs : list Event) :
  evs = while_mounted evs
  \/ exists rest, evs = while_mounted evs ++ Unmount :: rest.
Proof.
  induction evs as [|ev evs IH]; [by left|].
  destruct ev; simpl;
    try (destruct IH as [<-|[rest Hrest]];
         [by left | right; exists rest; by rewrite <- Hrest]).
  right. by exists evs.
Qed.

(** The state of the monitor is the state it had when it was
    unmounted. *)
Lemma state_while_mounted (evs : list Event) :
  state (sys (run evs)) = state (sys (run (while_mounted evs))).
Proof.
  destruct (while_mounted_split evs) as [<-|[rest Hrest]]; [reflexivity|].
  rewrite Hrest at 1. unfold run. rewrite fold_left_app. cbn [fold_left].
  by destruct (unmounted_run rest
    (step (fold_left step (while_mounted evs) mount) Unmount) eq_refl) as [_ ->].
Qed.

Lemma shows_arrivals_while_mounted (evs : list Event) :
  shows_arrivals (sys (run (while_mounted evs))).
Proof. apply shows_arrivals_run, while_mounted_live. Qed.

(** X22: whatever has happened to the monitor, its snapshot is that of
    the fulfilled response that arrived last while it was mounted
    (arrival order, not request order); the spinner shows exactly until
    the first response has arrived, and never again; after that the
    monitor shows the error message if the response that arrived last was
    a failure (the snapshot is kept), and the event list otherwise.  A
    response that arrives after the unmount changes none of this. *)
Theorem monitor_shows_latest_arrival (evs : list Event) :
  let st := state (sys (run evs)) in
  let rs := arrived (log (sys (run (while_mounted evs)))) in
  webhookEvents st = last_snapshot rs
  /\ (loading st = true <-> rs = [])
  /\ render st =
       match last rs with
       | None => Spinner
       | Some (Rejected _) => ErrorMessage load_failed
       | Some (Fulfilled _) =>
           EventList (sources st) (filterSource st) (filteredEvents st)
       end.
Proof.
  intros st rs.
  destruct (shows_arrivals_while_mounted evs) as (Hev & Hsrc & Hld & Herr).
  rewrite <- (state_while_mounted evs) in Hev, Hsrc, Hld, Herr.
  fold st in Hev, Hsrc, Hld, Herr. fold rs in Hev, Hsrc, Hld, Herr.
  split; [exact Hev|]. split.
  - rewrite Hld. apply bool_decide_eq_true.
  - unfold render. rewrite Hld, Herr.
    destruct rs as [|r rs'] using rev_ind; [reflexivity|].
    rewrite last_snoc, bool_decide_eq_false_2 by (by destruct rs').
    by destruct r.
Qed.

(** X23: whatever has happened to the monitor, the sources offered by
    the filter are the sources of the events of the current snapshot, each
    once; so selecting an offered source never gives an empty list. *)
Theorem sources_match_snapshot (evs : list Event) :
  let st := state (sys (run evs)) in
  NoDup (sources st)
  /\ (forall src, src ∈ sources st <->
        exists event, event ∈ webhookEvents st /\ WebhookEvent.source event = src)
  /\ (forall src, src ∈ sources st ->
        filteredEvents (setFilterSource src st) <> []).
Proof.
  intros st. destruct (shows_arrivals_while_mounted evs) as (Hev & Hsrc & _).
  rewrite <- (state_while_mounted evs) in Hev, Hsrc.
  fold st in Hev, Hsrc. rewrite <- Hev in Hsrc.
  assert (Hin : forall src, src ∈ sources st <->
    exists event, event ∈ webhookEvents st /\ WebhookEvent.source event = src).
  { intros src. rewrite Hsrc, elem_of_unique, list_elem_of_fmap.
    split; intros (e & H1 & H2); exists e; by split. }
  split; [rewrite Hsrc; apply unique_NoDup|]. split; [exact Hin|].
  intros src (event & He & Hs)%Hin Hnil.
  assert (Hf : event ∈ filteredEvents (setFilterSource src st)).
  { unfold filteredEvents. apply list_elem_of_filter. split; [by right | exact He]. }
  rewrite Hnil in Hf. by apply elem_of_nil in Hf.
Qed.

End MonitorView.

(** ** The connection manager at its buttons *)

Section PageFlowCounts.
Import Js IntegrationService Async IntegrationsPage.

Lemma flows_app (f : Flow) (l1 l2 : list Flow) :
  flows f (l1 ++ l2) = flows f l1 + flows f l2.
Proof. unfold flows. by rewrite filter_app, length_app. Qed.

Lemma flows_cons (f g : Flow) (l : list Flow) :
  flows f (g :: l) = (if decide (g = f) then 1 else 0) + flows f l.
Proof. unfold flows. rewrite filter_cons. by destruct (decide (g = f)). Qed.

Lemma flows_nil (f : Flow) : flows f [] = 0.
Proof. reflexivity. Qed.


Ltac count_flows :=
  unfold flag in *; simpl in *;
  rewrite ?flows_app, ?flows_cons, ?flows_nil in *;
  repeat match goal with
    | H : context [decide (?a = ?b)] |- _ => destruct (decide (a = b)); try congruence
    | |- context [decide (?a = ?b)] => destruct (decide (a = b)); try congruence
    end;
  repeat match goal with
    | H : context [if ?b then _ else _] |- _ => destruct b
    | |- context [if ?b then _ else _] => destruct b
    end;
  simpl in *; try lia.

Lemma flows_ok_settle (s : IntegrationsPage.Sys) id o :
  flows_ok s -> flows_ok (settle id o s).
Proof.
  intros (fs & Hws & Hc & Hr & Hd).
  destruct (decide (id ∈ in_flight s)) as [Hin|Hout];
    [|rewrite (settle_not_in_flight _ _ _ Hout); by exists fs].
  rewrite settle_in_flight by done.
  destruct (resume_spec id o (waiters s))
    as [[-> _] | (l1 & w & l2 & rest & p & Hsplit & _ & Hreact & ->)]; simpl.
  { by exists fs. }
  rewrite Hsplit in Hws.
  apply Forall2_app_inv_l in Hws as (f1 & f2' & Hf1 & Hf2 & ->).
  apply Forall2_cons_inv_l in Hf2 as (f & f2 & Hw & Hf2 & ->).
  destruct (react_Some _ _ _ _ _ Hreact)
    as [(k & -> & -> & ->) | (id1 & id2 & g1 & g2 & k & -> & _ & Hrest)].
  - destruct f; simpl in Hw; try done.
    + destruct Hw as [sel [-> | ->]]; destruct o as [v|e]; simpl.
      * exists ((f1 ++ f2) ++ [ConnectFlow]). split.
        -- apply Forall2_app; [by apply Forall2_app|].
           constructor; [|constructor]. exists sel. by right.
        -- repeat split; count_flows.
      * exists (f1 ++ f2). split; [by apply Forall2_app|].
        repeat split; count_flows.
      * exists (f1 ++ f2). split; [by apply Forall2_app|].
        repeat split; count_flows.
      * exists (f1 ++ f2). split; [by apply Forall2_app|].
        repeat split; count_flows.
    + destruct Hw as [-> | ->]; destruct o as [v|e]; simpl.
      * exists ((f1 ++ f2) ++ [DisconnectFlow]). split.
        -- apply Forall2_app; [by apply Forall2_app|].
           constructor; [|constructor]. by right.
        -- repeat split; count_flows.
      * exists (f1 ++ f2). split; [by apply Forall2_app|].
        repeat split; count_flows.
      * exists (f1 ++ f2). split; [by apply Forall2_app|].
        repeat split; count_flows.
      * exists (f1 ++ f2). split; [by apply Forall2_app|].
        repeat split; count_flows.
    + destruct Hw as [path ->]. destruct o as [v|e]; simpl.
      * exists (f1 ++ f2). split; [by apply Forall2_app|].
        repeat split; count_flows.
      * exists (f1 ++ f2). split; [by apply Forall2_app|].
        repeat split; count_flows.
  - destruct f; simpl in Hw; try done. subst k.
    destruct Hrest as [[-> [r ->]] | (g1' & g2' & -> & ->)]; simpl.
    + destruct r as [[v1 v2]|e]; simpl;
        (exists (f1 ++ f2); split; [by apply Forall2_app|]);
        repeat split; count_flows.
    + exists (f1 ++ LoadFlow :: f2). split.
      * apply Forall2_app; [done|]. by constructor.
      * repeat split; count_flows.
Qed.


Lemma flows_ok_mount : flows_ok mount.
Proof.
  exists [LoadFlow]. split; [|by repeat split].
  constructor; [reflexivity | constructor].
Qed.

Lemma flows_ok_step (s : IntegrationsPage.Sys) (ev : Event) :
  flows_ok s -> enabled (state s) ev = true -> flows_ok (step s ev).
Proof.
  intros Hs Hen. pose proof Hs as (fs & Hws & Hc & Hr & Hd).
  destruct ev; cbn [step]; cbn [enabled] in Hen.
  - exists fs. split; [exact Hws|]. cbn [with_state state]. unfold handleAdapterChange.
    by destruct (find _ _).
  - by exists fs.
  - rewrite exec_handleConnect.
    apply andb_prop in Hen as [[_ Hsel]%andb_prop Hsub]. rewrite Hsel.
    exists (fs ++ [ConnectFlow]). split.
    + apply Forall2_app; [exact Hws|]. constructor; [|constructor].
      eexists. by left.
    + repeat split; count_flows.
  - rewrite exec_handleDisconnect. destruct confirmed; [|exact Hs].
    apply andb_prop in Hen as [[_ Hld]%andb_prop _].
    exists (fs ++ [DisconnectFlow]). split.
    + apply Forall2_app; [exact Hws|]. constructor; [|constructor]. by left.
    + repeat split; count_flows.
  - by exists fs.
  - by exists fs.
  - by exists fs.
  - rewrite exec_handleRegisterWebhook.
    apply andb_prop in Hen as [[_ Hpath]%andb_prop Hreg]. rewrite Hpath.
    exists (fs ++ [RegisterFlow]). split.
    + apply Forall2_app; [exact Hws|]. constructor; [|constructor]. by eexists.
    + repeat split; count_flows.
  - destruct (formSuccess (state s)); [by exists fs | exact Hs].
  - destruct (webhookSuccess (state s)); [by exists fs | exact Hs].
  - by apply flows_ok_settle.
Qed.

Lemma page_interact_snoc (s : IntegrationsPage.Sys) (evs : list Event) (ev : Event) :
  interact s (evs ++ [ev]) =
  match interact s evs with
  | Some s' => if enabled (state s') ev then Some (step s' ev) else None
  | None => None
  end.
Proof.
  revert s. induction evs as [|e evs IH]; intros s; simpl.
  - by destruct (enabled (state s) ev).
  - destruct (enabled (state s) e); [apply IH | reflexivity].
Qed.

Lemma page_interact_ok (evs : list Event) (s : IntegrationsPage.Sys) :
  interact mount evs = Some s -> s = run evs /\ flows_ok s.
Proof.
  revert s. induction evs as [|ev evs IH] using rev_ind; intros s.
  - intros [= <-]. split; [reflexivity | apply flows_ok_mount].
  - rewrite page_interact_snoc. destruct (interact mount evs) as [s'|]; [|done].
    destruct (enabled (state s') ev) eqn:Hen; [|done]. intros [= <-].
    destruct (IH s' eq_refl) as [-> Hok]. split.
    + unfold run. by rewrite fold_left_app.
    + by apply flows_ok_step.
Qed.

(** The three handlers that start a flow leave different continuations. *)
Lemma runs_flow (op : Call) (k : Outcome HttpError Payload -> IntegrationsPage.Prog)
    (id : nat) (f : Flow) :
  cont_matches op k -> runs (WaitOne id k) f ->
  match op with
  | connect _ _ => f = ConnectFlow
  | disconnect _ => f = DisconnectFlow
  | registerWebhook _ _ => f = RegisterFlow
  | _ => True
  end.
Proof.
  assert (Hne : forall k1 k2 : Outcome HttpError Payload -> IntegrationsPage.Prog,
    k1 (Rejected network_down) <> k2 (Rejected network_down) -> k1 <> k2)
    by (intros k1 k2 Hne ->; by apply Hne).
  destruct op; simpl; try done; intros ->; destruct f; simpl; try done;
    intros H; exfalso;
    repeat match type of H with
      | _ \/ _ => destruct H as [H|H]
      | ex _ => destruct H as [? H]
      end;
    revert H; apply Hne; simpl; discriminate.
Qed.


Lemma flows_at (fs : list Flow) (f : Flow) (i : nat) :
  fs !! i = Some f -> 1 <= flows f fs.
Proof.
  revert i. induction fs as [|g fs IH]; intros i Hi; [done|].
  rewrite flows_cons. destruct i as [|i]; simpl in Hi.
  - injection Hi as ->. rewrite decide_True by done. lia.
  - specialize (IH i Hi). lia.
Qed.

Lemma flows_at_two (fs : list Flow) (f : Flow) (i j : nat) :
  i <> j -> fs !! i = Some f -> fs !! j = Some f -> 2 <= flows f fs.
Proof.
  revert i j. induction fs as [|g fs IH]; intros i j Hne Hi Hj; [done|].
  rewrite flows_cons. destruct i as [|i], j as [|j]; simpl in Hi, Hj; try done.
  - injection Hi as ->. rewrite decide_True by done.
    pose proof (flows_at fs f j Hj). lia.
  - injection Hj as ->. rewrite decide_True by done.
    pose proof (flows_at fs f i Hi). lia.
  - assert (2 <= flows f fs) by (apply (IH i j); [lia | done | done]). lia.
Qed.

(** A call in flight that started a flow has its handler waiting. *)
Lemma waiter_of_call (s : IntegrationsPage.Sys) (c : nat) (op : Call) (f : Flow) :
  page_inv s -> c ∈ in_flight s -> Invoked c op ∈ log s -> starts op = Some f ->
  exists k, WaitOne c k ∈ waiters s /\ cont_matches op k.
Proof.
  intros [_ Hu [H0 H1] Hw Hp _ _] Hin Hop Hf.
  assert (H2 : 2 <= c).
  { destruct c as [|[|c]]; [| |lia].
    - rewrite (Hu _ _ _ Hop H0) in Hf. discriminate Hf.
    - rewrite (Hu _ _ _ Hop H1) in Hf. discriminate Hf. }
  destruct (Hp c Hin H2) as [k Hk]. exists k. split; [exact Hk|].
  rewrite Forall_forall in Hw. destruct (Hw _ Hk) as (_ & op' & Hop' & Hk').
  by rewrite (Hu _ _ _ Hop Hop').
Qed.

Lemma flow_of_call (s : IntegrationsPage.Sys) (fs : list Flow) (c : nat)
    (op : Call) (f : Flow) :
  page_inv s -> Forall2 runs (waiters s) fs ->
  c ∈ in_flight s -> Invoked c op ∈ log s -> starts op = Some f ->
  exists i k, waiters s !! i = Some (WaitOne c k) /\ fs !! i = Some f.
Proof.
  intros Hinv Hws Hin Hop Hf.
  destruct (waiter_of_call s c op f Hinv Hin Hop Hf) as (k & Hk & Hm).
  apply list_elem_of_lookup in Hk as [i Hi].
  destruct (Forall2_lookup_l _ _ _ _ _ Hws Hi) as (g & Hg & Hruns).
  exists i, k. split; [exact Hi|].
  pose proof (runs_flow op k c g Hm Hruns) as Hflow.
  destruct op; try discriminate Hf; injection Hf as <-; by rewrite Hg, Hflow.
Qed.

Lemma flows_bound (s : IntegrationsPage.Sys) (fs : list Flow) (f : Flow) :
  flows ConnectFlow fs = flag (isSubmitting (state s)) ->
  flows RegisterFlow fs = flag (isRegisteringWebhook (state s)) ->
  flows DisconnectFlow fs + flows LoadFlow fs = flag (loading (state s)) ->
  flows f fs <= flag (busy f (state s)).
Proof. intros Hc Hr Hd. destruct f; simpl; lia. Qed.

(** X27: at a page whose flows are started through its rendered
    buttons, a call in flight that started a flow (connect, disconnect,
    register) has the busy flag of its flow up; no two calls in flight
    started flows of the same kind; and while a flag is up the button that
    starts such a flow is disabled.
    The state reached is the one the same events give without the
    guards. *)
Theorem one_flow_of_a_kind (evs : list Event) (s : IntegrationsPage.Sys) :
  interact mount evs = Some s ->
  s = run evs
  /\ (forall c op f,
        c ∈ in_flight s -> Invoked c op ∈ log s -> starts op = Some f ->
        busy f (state s) = true)
  /\ (forall c1 c2 op1 op2 f,
        c1 ∈ in_flight s -> Invoked c1 op1 ∈ log s -> starts op1 = Some f ->
        c2 ∈ in_flight s -> Invoked c2 op2 ∈ log s -> starts op2 = Some f ->
        c1 = c2)
  /\ (isSubmitting (state s) = true -> enabled (state s) SubmitConnect = false)
  /\ (loading (state s) = true ->
        forall cid confirmed, enabled (state s) (ClickDisconnect cid confirmed) = false)
  /\ (isRegisteringWebhook (state s) = true ->
        enabled (state s) SubmitRegisterWebhook = false).
Proof.
  intros Hs. destruct (page_interact_ok evs s Hs) as [-> (fs & Hws & Hc & Hr & Hd)].
  pose proof (page_inv_run evs) as Hinv.
  pose proof (fun f => flows_bound (run evs) fs f Hc Hr Hd) as Hbound.
  split; [reflexivity|]. split; [|split; [|split; [|split]]].
  - intros c op f Hin Hop Hf.
    destruct (flow_of_call _ fs c op f Hinv Hws Hin Hop Hf) as (i & k & _ & Hi).
    pose proof (flows_at fs f i Hi). specialize (Hbound f).
    destruct (busy f (state (run evs))); [reflexivity | simpl in Hbound; lia].
  - intros c1 c2 op1 op2 f Hin1 Hop1 Hf1 Hin2 Hop2 Hf2.
    destruct (flow_of_call _ fs c1 op1 f Hinv Hws Hin1 Hop1 Hf1) as (i & k1 & Hw1 & Hi).
    destruct (flow_of_call _ fs c2 op2 f Hinv Hws Hin2 Hop2 Hf2) as (j & k2 & Hw2 & Hj).
    destruct (decide (i = j)) as [->|Hne]; [congruence|].
    pose proof (flows_at_two fs f i j Hne Hi Hj). specialize (Hbound f).
    destruct (busy f (state (run evs))); simpl in Hbound; lia.
  - intros Hb. cbn [enabled]. rewrite Hb. by rewrite andb_false_r.
  - intros Hb cid confirmed. cbn [enabled]. rewrite Hb. cbn [negb].
    by rewrite andb_false_r.
  - intros Hb. cbn [enabled]. rewrite Hb. by rewrite andb_false_r.
Qed.

Lemma one_flow_of_a_kind_witness :
  loading (state (run two_flows)) = true
  /\ isRegisteringWebhook (state (run two_flows)) = true.
Proof.
  assert (Hs : interact mount two_flows = Some (run two_flows))
    by (vm_compute; reflexivity).
  destruct (one_flow_of_a_kind two_flows (run two_flows) Hs) as (_ & Hbusy & _).
  split.
  - apply (Hbusy 2 (disconnect "conn_123") DisconnectFlow);
      [vm_compute; left | vm_compute; do 4 right; left | reflexivity].
  - apply (Hbusy 3 (registerWebhook "/api/webhooks/orders"
                      (options_object {| description := ""; events := [] |}))
             RegisterFlow);
      [vm_compute; right; left | vm_compute; do 5 right; left | reflexivity].
Defined.

End PageFlowCounts.
